(** * The WebSocket connection manager of bytebot

    A shallow embedding of [bytebot/websocket/events.py] and
    [bytebot/websocket/manager.py]: the event, message and response models,
    the [WebSocketConnection] objects, and the [WebSocketManager] with its
    registry ([connections]) and its two indices ([user_connections],
    [task_subscribers]).

    Python code mutates the manager in place, calls into a transport that
    may raise, and may itself raise.  It is embedded in a state-and-exception
    monad over a [World]: the manager, the clock, the health of every
    transport handle, and the trace of the transport calls made so far.
    An exception leaves the world as the code had changed it when it was
    raised.

    Conventions of the embedding:
    - a coroutine runs to completion: the operations of the manager do not
      interleave;
    - dictionaries with string or UUID keys are [gmap]s and sets are
      [gset]s; a Python [for] over a set or over the registry visits the
      elements in the order of [elements] and [map_to_list], and no theorem
      depends on that order;
    - [d[k]] and [del d[k]] raise [KeyError] on a missing key;
    - the transport is the environment: whether [accept], [send_text] and
      [close] raise on a handle is a field of the world, which the
      environment may change between two operations;
    - the functions of the Python library whose results the manager only
      passes on ([UUID(...)] on a string, [str], [isoformat]) are the fields
      of the class [PyLib], over which the development is parametric;
    - logging is left out, and so are the [db] argument of the handlers,
      which none of them reads, and [send_response], which the manager does
      not call. *)

From stdpp Require Import base option list strings gmap sets fin_maps fin_sets.
From stdpp Require Import pretty.
From Stdlib Require Import ZArith.

Set Default Proof Using "Type".
Set Warnings "-register-all,-clear-no-such-hyp".
Open Scope string_scope.

(** ** Python values

    What [json.loads] hands to the manager and what the models keep in their
    [data] dictionaries.  A dictionary is an association list read from the
    left. *)

Inductive pyval :=
| PNone
| PBool (b : bool)
| PInt (z : Z)
| PStr (s : string)
| PList (l : list pyval)
| PDict (d : list (string * pyval)).

Abbreviation pydict := (list (string * pyval)).

(** [bool(v)]: the truth value Python gives to [v]. *)
Definition truthy (v : pyval) : bool :=
  match v with
  | PNone => false
  | PBool b => b
  | PInt z => negb (z =? 0)%Z
  | PStr s => negb (String.eqb s "")
  | PList l => match l with [] => false | _ => true end
  | PDict d => match d with [] => false | _ => true end
  end.

(** [d[key]] read as an option, and [d.get(key)]. *)
Fixpoint dict_lookup (d : pydict) (key : string) : option pyval :=
  match d with
  | [] => None
  | (k, v) :: d' => if String.eqb k key then Some v else dict_lookup d' key
  end.

Definition dict_get (d : pydict) (key : string) : pyval :=
  default PNone (dict_lookup d key).

(** [d[key] = value]: the value of an existing key is replaced where the
    key stands, a new key is added at the end. *)
Fixpoint dict_set (d : pydict) (key : string) (value : pyval) : pydict :=
  match d with
  | [] => [(key, value)]
  | (k, v) :: d' =>
      if String.eqb k key then (k, value) :: d'
      else (k, v) :: dict_set d' key value
  end.

(** The dictionary display [{... d ..., **more}]: the entries of [more] are
    set one after the other. *)
Definition dict_update (d more : pydict) : pydict :=
  foldl (λ d kv, dict_set d kv.1 kv.2) d more.

(** An [Optional[str]] as a Python value, and its truth value. *)
Definition py_of_opt (o : option string) : pyval :=
  match o with Some s => PStr s | None => PNone end.

Definition truthy_opt (o : option string) : bool := truthy (py_of_opt o).

(** ** Exceptions and the monad

    The exceptions that the embedded code can meet: a missing key, the two
    failures of [UUID(...)], a model that pydantic refuses, and a failure of
    the transport. *)

Inductive exn :=
| KeyError
| ValueError
| AttributeError
| ValidationError
| TransportError.

Inductive outcome (A : Type) :=
| Ok (a : A)
| Raise (e : exn).
Arguments Ok {A} a.
Arguments Raise {A} e.

Definition UUID := N.
Definition datetime := nat.
(** A transport handle: the [WebSocket] object given to [connect]. *)
Definition WebSocket := nat.

(** The functions of the Python library the manager calls and whose results
    it only passes on. *)
Class PyLib := {
  UUID_parse : string → option UUID;   (* [UUID(s)] on a string; [None] is [ValueError] *)
  UUID_str : UUID → string;            (* [str(uuid)] *)
  isoformat : datetime → string;       (* [datetime.isoformat()] *)
  exn_str : exn → string;              (* [str(e)] *)
}.

(** ** events.py *)

Inductive WebSocketEventType :=
| CONNECT | DISCONNECT
| TASK_CREATED | TASK_UPDATED | TASK_STARTED | TASK_PAUSED | TASK_RESUMED
| TASK_COMPLETED | TASK_FAILED | TASK_CANCELLED | TASK_PROGRESS
| MESSAGE_CREATED | MESSAGE_UPDATED | MESSAGE_PROCESSED | MESSAGE_FAILED
| SUMMARY_CREATED | SUMMARY_UPDATED | SUMMARY_APPROVED | SUMMARY_ARCHIVED
| AI_THINKING | AI_TOOL_USE | AI_TOOL_RESULT | AI_RESPONSE
| SYSTEM_STATUS | ERROR | HEARTBEAT
| DESKTOP_ACTION | DESKTOP_SCREENSHOT | DESKTOP_STATUS.

(** [event.type in [SYSTEM_STATUS, ERROR]] *)
Definition is_system_kind (t : WebSocketEventType) : bool :=
  match t with SYSTEM_STATUS | ERROR => true | _ => false end.

Record WebSocketEvent := {
  e_id : UUID;
  e_type : WebSocketEventType;
  e_data : pydict;
  e_timestamp : datetime;
  e_task_id : option UUID;
  e_user_id : option string;
  e_session_id : option string;
}.

Record WebSocketMessage := {
  m_type : string;
  m_data : pydict;
  m_request_id : option string;
}.

Record WebSocketResponse := {
  r_type : string;
  r_data : pydict;
  r_success : bool;
  r_error : option string;
  r_request_id : option string;
}.

(** ** manager.py: the objects *)

Record WebSocketConnection := {
  c_websocket : WebSocket;
  c_connection_id : string;
  c_user_id : option string;
  c_session_id : option string;
  c_connected_at : datetime;
  c_last_heartbeat : datetime;
  c_subscribed_tasks : gset UUID;
  c_is_active : bool;
}.

Record WebSocketManager := {
  connections : gmap string WebSocketConnection;
  user_connections : gmap string (gset string);
  task_subscribers : gmap UUID (gset string);
}.

(** One call into a transport handle, as the trace records it: which
    connection made it, on which handle, what it was, and whether it
    returned ([true]) or raised ([false]). *)
Inductive call :=
| Accept
| SendText (event : WebSocketEvent)
| Close.

Record effect := {
  eff_conn : string;
  eff_ws : WebSocket;
  eff_call : call;
  eff_ok : bool;
}.

(** The health of the transports: the handles on which [accept],
    [send_text] and [close] currently raise. *)
Record Net := {
  accept_failing : gset WebSocket;
  send_failing : gset WebSocket;
  close_failing : gset WebSocket;
}.

Record World := {
  manager : WebSocketManager;
  now : datetime;          (* what [datetime.utcnow()] returns *)
  entropy : N;             (* what the next [uuid4()] returns *)
  net : Net;
  trace : list effect;
}.

Definition M (A : Type) : Type := World → outcome A * World.

Definition ret {A} (a : A) : M A := λ w, (Ok a, w).

Definition bind {A B} (m : M A) (f : A → M B) : M B :=
  λ w, match m w with
       | (Ok a, w') => f a w'
       | (Raise e, w') => (Raise e, w')
       end.

Definition raise {A} (e : exn) : M A := λ w, (Raise e, w).

(** [try: m  except Exception as e: h e]; what [m] did to the world before
    it raised stays done. *)
Definition try_except {A} (m : M A) (h : exn → M A) : M A :=
  λ w, match m w with
       | (Ok a, w') => (Ok a, w')
       | (Raise e, w') => h e w'
       end.

Definition gets {A} (f : World → A) : M A := λ w, (Ok (f w), w).
Definition modify (f : World → World) : M unit := λ w, (Ok tt, f w).
Definition lift {A} (o : outcome A) : M A := λ w, (o, w).

Declare Scope py_scope.
Delimit Scope py_scope with py.
Notation "'let!' x ':=' m 'in' k" := (bind m (λ x, k))
  (at level 10, x name, m at level 100, k at level 200) : py_scope.
Notation "m >> k" := (bind m (λ _, k))
  (at level 100, k at level 200, right associativity) : py_scope.
Open Scope py_scope.

Fixpoint for_each {A} (l : list A) (body : A → M unit) : M unit :=
  match l with
  | [] => ret tt
  | x :: l' => body x >> for_each l' body
  end.

(** Python's [d[k]] and [del d[k]], which raise [KeyError] on a missing
    key. *)
Definition getitem `{Countable K} {V} (d : gmap K V) (k : K) : outcome V :=
  match d !! k with
  | Some v => Ok v
  | None => Raise KeyError
  end.

Definition delitem `{Countable K} {V} (d : gmap K V) (k : K)
  : outcome (gmap K V) :=
  match d !! k with
  | Some _ => Ok (delete k d)
  | None => Raise KeyError
  end.

Definition outcome_bind {A B} (o : outcome A) (f : A → outcome B) : outcome B :=
  match o with
  | Ok a => f a
  | Raise e => Raise e
  end.

(** The lines [d[k].discard(x)] and [if not d[k]: del d[k]], which
    [disconnect] has twice and [_handle_unsubscribe_task] once, always under
    an [if k in d]. *)
Definition discard_entry `{Countable K} (d : gmap K (gset string)) (k : K)
    (x : string) : outcome (gmap K (gset string)) :=
  outcome_bind (getitem d k) (λ s,
    let d1 := <[k := s ∖ {[x]}]> d in
    outcome_bind (getitem d1 k) (λ s1,
      if decide (s1 = ∅) then delitem d1 k else Ok d1)).

(** The lines [if k not in d: d[k] = set()] and [d[k].add(x)] of [connect]
    and [_handle_subscribe_task]. *)
Definition add_entry `{Countable K} (d : gmap K (gset string)) (k : K)
    (x : string) : outcome (gmap K (gset string)) :=
  let d1 := match d !! k with Some _ => d | None => <[k := ∅]> d end in
  outcome_bind (getitem d1 k) (λ s, Ok (<[k := s ∪ {[x]}]> d1)).

(** ** The world: field updates and primitive steps *)

Definition with_manager (f : WebSocketManager → WebSocketManager) (w : World)
  : World :=
  {| manager := f (manager w); now := now w; entropy := entropy w;
     net := net w; trace := trace w |}.

Definition set_connections (cs : gmap string WebSocketConnection)
    (m : WebSocketManager) : WebSocketManager :=
  {| connections := cs; user_connections := user_connections m;
     task_subscribers := task_subscribers m |}.

Definition set_user_connections (uc : gmap string (gset string))
    (m : WebSocketManager) : WebSocketManager :=
  {| connections := connections m; user_connections := uc;
     task_subscribers := task_subscribers m |}.

Definition set_task_subscribers (ts : gmap UUID (gset string))
    (m : WebSocketManager) : WebSocketManager :=
  {| connections := connections m; user_connections := user_connections m;
     task_subscribers := ts |}.

Definition log (e : effect) (w : World) : World :=
  {| manager := manager w; now := now w; entropy := entropy w;
     net := net w; trace := trace w ++ [e] |}.

Definition utcnow : M datetime := gets now.

Definition uuid4 : M UUID :=
  λ w, (Ok (entropy w),
        {| manager := manager w; now := now w; entropy := N.succ (entropy w);
           net := net w; trace := trace w |}).

(** [asyncio.sleep(seconds)] *)
Definition sleep (seconds : nat) : M unit :=
  modify (λ w, {| manager := manager w; now := now w + seconds;
                  entropy := entropy w; net := net w; trace := trace w |}).

Definition failing (c : call) (n : Net) : gset WebSocket :=
  match c with
  | Accept => accept_failing n
  | SendText _ => send_failing n
  | Close => close_failing n
  end.

(** A call of connection [connection_id] into its transport handle: it is
    recorded, and raises when the handle is failing for that call. *)
Definition transport (connection_id : string) (websocket : WebSocket)
    (c : call) : M unit :=
  λ w, let ok := bool_decide (websocket ∉ failing c (net w)) in
       (if ok then Ok tt else Raise TransportError,
        log {| eff_conn := connection_id; eff_ws := websocket;
               eff_call := c; eff_ok := ok |} w).

(** ** events.py: the factories *)

(** [cls(type=..., data=..., task_id=..., user_id=..., session_id=...)]:
    [id] and [timestamp] come from their default factories. *)
Definition new_event (type : WebSocketEventType) (data : pydict)
    (task_id : option UUID) (user_id session_id : option string)
  : M WebSocketEvent :=
  let! id := uuid4 in
  let! timestamp := utcnow in
  ret {| e_id := id; e_type := type; e_data := data; e_timestamp := timestamp;
         e_task_id := task_id; e_user_id := user_id;
         e_session_id := session_id |}.

Section events.
Context `{PyLib}.

Definition create_task_event (event_type : WebSocketEventType) (task_id : UUID)
    (data : pydict) (user_id session_id : option string) : M WebSocketEvent :=
  new_event event_type data (Some task_id) user_id session_id.

Definition create_message_event (event_type : WebSocketEventType)
    (message_id task_id : UUID) (data : pydict)
    (user_id session_id : option string) : M WebSocketEvent :=
  let event_data :=
    dict_update [("message_id", PStr (UUID_str message_id))] data in
  new_event event_type event_data (Some task_id) user_id session_id.

Definition create_summary_event (event_type : WebSocketEventType)
    (summary_id task_id : UUID) (data : pydict)
    (user_id session_id : option string) : M WebSocketEvent :=
  let event_data :=
    dict_update [("summary_id", PStr (UUID_str summary_id))] data in
  new_event event_type event_data (Some task_id) user_id session_id.

Definition create_ai_event (event_type : WebSocketEventType) (task_id : UUID)
    (data : pydict) (user_id session_id : option string) : M WebSocketEvent :=
  new_event event_type data (Some task_id) user_id session_id.

Definition create_system_event (event_type : WebSocketEventType)
    (data : pydict) (user_id session_id : option string) : M WebSocketEvent :=
  new_event event_type data None user_id session_id.

Definition create_error_event (error_message : string)
    (error_code : option string) (task_id : option UUID)
    (user_id session_id : option string) : M WebSocketEvent :=
  let data := [("message", PStr error_message)] in
  let data := if truthy_opt error_code
              then dict_set data "code" (py_of_opt error_code) else data in
  new_event ERROR data task_id user_id session_id.

Definition create_heartbeat_event (user_id session_id : option string)
  : M WebSocketEvent :=
  let! t := utcnow in
  new_event HEARTBEAT [("timestamp", PStr (isoformat t))] None
            user_id session_id.

End events.

(** [WebSocketMessage] built from the unpacked [message_data], under
    pydantic's validation: [type]
    is a required string, [data] a dictionary that defaults to the empty
    one, [request_id] a string or [None]; other keys are ignored. *)
Definition WebSocketMessage_new (message_data : pydict)
  : outcome WebSocketMessage :=
  match dict_lookup message_data "type" with
  | Some (PStr type) =>
      let with_data (data : pydict) :=
        match dict_lookup message_data "request_id" with
        | None | Some PNone =>
            Ok {| m_type := type; m_data := data; m_request_id := None |}
        | Some (PStr r) =>
            Ok {| m_type := type; m_data := data; m_request_id := Some r |}
        | Some _ => Raise ValidationError
        end in
      match dict_lookup message_data "data" with
      | None => with_data []
      | Some (PDict data) => with_data data
      | Some _ => Raise ValidationError
      end
  | _ => Raise ValidationError
  end.

(** [WebSocketResponse(type=..., data=..., success=..., error=...,
    request_id=...)]: the callers pass whatever they hold as [request_id],
    and the model accepts a string or [None]. *)
Definition WebSocketResponse_new (type : string) (data : pydict)
    (success : bool) (error : option string) (request_id : pyval)
  : outcome WebSocketResponse :=
  match request_id with
  | PNone => Ok {| r_type := type; r_data := data; r_success := success;
                   r_error := error; r_request_id := None |}
  | PStr r => Ok {| r_type := type; r_data := data; r_success := success;
                    r_error := error; r_request_id := Some r |}
  | _ => Raise ValidationError
  end.

Definition success_response (message_type : string) (data : pydict)
    (request_id : pyval) : M WebSocketResponse :=
  lift (WebSocketResponse_new message_type data true None request_id).

Definition error_response (message_type error_message : string)
    (request_id : pyval) : M WebSocketResponse :=
  lift (WebSocketResponse_new message_type [] false (Some error_message)
          request_id).

(** ** manager.py: WebSocketConnection

    A [WebSocketConnection] is a Python object, shared by reference between
    the registry and whoever looked it up.  The manager only ever holds the
    objects that its registry holds, each under its own [connection_id], so
    an assignment to an attribute of [self] is an [alter] of that entry. *)

Definition set_is_active (b : bool) (c : WebSocketConnection)
  : WebSocketConnection :=
  {| c_websocket := c_websocket c; c_connection_id := c_connection_id c;
     c_user_id := c_user_id c; c_session_id := c_session_id c;
     c_connected_at := c_connected_at c;
     c_last_heartbeat := c_last_heartbeat c;
     c_subscribed_tasks := c_subscribed_tasks c; c_is_active := b |}.

Definition set_last_heartbeat (t : datetime) (c : WebSocketConnection)
  : WebSocketConnection :=
  {| c_websocket := c_websocket c; c_connection_id := c_connection_id c;
     c_user_id := c_user_id c; c_session_id := c_session_id c;
     c_connected_at := c_connected_at c; c_last_heartbeat := t;
     c_subscribed_tasks := c_subscribed_tasks c;
     c_is_active := c_is_active c |}.

Definition set_subscribed_tasks (f : gset UUID → gset UUID)
    (c : WebSocketConnection) : WebSocketConnection :=
  {| c_websocket := c_websocket c; c_connection_id := c_connection_id c;
     c_user_id := c_user_id c; c_session_id := c_session_id c;
     c_connected_at := c_connected_at c;
     c_last_heartbeat := c_last_heartbeat c;
     c_subscribed_tasks := f (c_subscribed_tasks c);
     c_is_active := c_is_active c |}.

Definition mutate (self : WebSocketConnection)
    (f : WebSocketConnection → WebSocketConnection) : M unit :=
  modify (with_manager (λ m,
    set_connections (alter f (c_connection_id self) (connections m)) m)).

Definition send_event (self : WebSocketConnection) (event : WebSocketEvent)
  : M bool :=
  try_except
    (transport (c_connection_id self) (c_websocket self) (SendText event) >>
     ret true)
    (λ _, mutate self (set_is_active false) >> ret false).

Definition subscribe_to_task (self : WebSocketConnection) (task_id : UUID)
  : M unit :=
  mutate self (set_subscribed_tasks (λ s, s ∪ {[task_id]})).

Definition unsubscribe_from_task (self : WebSocketConnection) (task_id : UUID)
  : M unit :=
  mutate self (set_subscribed_tasks (λ s, s ∖ {[task_id]})).

Definition update_heartbeat (self : WebSocketConnection) : M unit :=
  let! t := utcnow in
  mutate self (set_last_heartbeat t).

(** ** manager.py: WebSocketManager *)

Definition connections_get (connection_id : string)
  : M (option WebSocketConnection) :=
  gets (λ w, connections (manager w) !! connection_id).

Definition update_connections
    (f : gmap string WebSocketConnection
         → outcome (gmap string WebSocketConnection)) : M unit :=
  let! cs := gets (λ w, connections (manager w)) in
  let! cs' := lift (f cs) in
  modify (with_manager (set_connections cs')).

Definition update_user_connections
    (f : gmap string (gset string) → outcome (gmap string (gset string)))
  : M unit :=
  let! uc := gets (λ w, user_connections (manager w)) in
  let! uc' := lift (f uc) in
  modify (with_manager (set_user_connections uc')).

Definition update_task_subscribers
    (f : gmap UUID (gset string) → outcome (gmap UUID (gset string)))
  : M unit :=
  let! ts := gets (λ w, task_subscribers (manager w)) in
  let! ts' := lift (f ts) in
  modify (with_manager (set_task_subscribers ts')).

(** [k in d] *)
Definition contains `{Countable K} {V} (d : gmap K V) (k : K) : bool :=
  bool_decide (is_Some (d !! k)).

Definition disconnect (connection_id : string) : M unit :=
  let! connection := connections_get connection_id in
  match connection with
  | None => ret tt
  | Some connection =>
      (* Remove from user connections *)
      (match c_user_id connection with
       | Some user_id =>
           let! uc := gets (λ w, user_connections (manager w)) in
           if truthy_opt (Some user_id) && contains uc user_id
           then update_user_connections
                  (λ uc, discard_entry uc user_id connection_id)
           else ret tt
       | None => ret tt
       end) >>
      (* Remove from task subscriptions *)
      for_each (elements (c_subscribed_tasks connection)) (λ task_id,
        let! ts := gets (λ w, task_subscribers (manager w)) in
        if contains ts task_id
        then update_task_subscribers
               (λ ts, discard_entry ts task_id connection_id)
        else ret tt) >>
      (* Close WebSocket if still active *)
      try_except
        (if c_is_active connection
         then transport (c_connection_id connection) (c_websocket connection)
                Close
         else ret tt)
        (λ _, ret tt) >>
      (* Remove from connections *)
      update_connections (λ cs, delitem cs connection_id)
  end.

(** The loop that [broadcast_event], [send_to_user] and
    [send_to_task_subscribers] each run over their targets; it returns
    [failed_connections]. *)
Fixpoint send_loop (event : WebSocketEvent) (targets : list string)
    (failed_connections : list string) : M (list string) :=
  match targets with
  | [] => ret failed_connections
  | connection_id :: targets' =>
      let! connection := connections_get connection_id in
      let! failed_connections :=
        match connection with
        | Some connection =>
            if c_is_active connection
            then let! success := send_event connection event in
                 ret (if success then failed_connections
                      else failed_connections ++ [connection_id])%list
            else ret failed_connections
        | None => ret failed_connections
        end in
      send_loop event targets' failed_connections
  end.

(** The targets [broadcast_event] resolves.  A UUID object is always
    truthy, so [event.task_id and ...] only tests that the task id is set;
    an empty string as user id is falsy. *)
Definition target_connections (m : WebSocketManager) (event : WebSocketEvent)
  : gset string :=
  let targets : gset string := ∅ in
  (* If event has a task_id, send to task subscribers *)
  let targets :=
    match e_task_id event with
    | Some task_id =>
        match task_subscribers m !! task_id with
        | Some s => targets ∪ s
        | None => targets
        end
    | None => targets
    end in
  (* If event has a user_id, send to user connections *)
  let targets :=
    match e_user_id event with
    | Some user_id =>
        if truthy_opt (Some user_id)
        then match user_connections m !! user_id with
             | Some s => targets ∪ s
             | None => targets
             end
        else targets
    | None => targets
    end in
  (* For system events, broadcast to all connections *)
  if is_system_kind (e_type event)
  then targets ∪ dom (connections m)
  else targets.

Definition broadcast_event (event : WebSocketEvent) : M unit :=
  let! m := gets manager in
  if decide (connections m = ∅) then ret tt
  else
    let targets := target_connections m event in
    let! failed_connections := send_loop event (elements targets) [] in
    (* Clean up failed connections *)
    for_each failed_connections disconnect.

Definition send_to_user (user_id : string) (event : WebSocketEvent) : M unit :=
  let! uc := gets (λ w, user_connections (manager w)) in
  match uc !! user_id with
  | None => ret tt
  | Some s =>
      let! failed_connections := send_loop event (elements s) [] in
      for_each failed_connections disconnect
  end.

Definition send_to_task_subscribers (task_id : UUID) (event : WebSocketEvent)
  : M unit :=
  let! ts := gets (λ w, task_subscribers (manager w)) in
  match ts !! task_id with
  | None => ret tt
  | Some s =>
      let! failed_connections := send_loop event (elements s) [] in
      for_each failed_connections disconnect
  end.

(** [stop], without the cancellation of the two background tasks. *)
Definition stop : M unit :=
  let! cs := gets (λ w, connections (manager w)) in
  for_each (map_to_list cs) (λ kc, disconnect (c_connection_id kc.2)).

Section manager.
Context `{PyLib}.

Definition connect (websocket : WebSocket) (connection_id : string)
    (user_id session_id : option string) : M WebSocketConnection :=
  transport connection_id websocket Accept >>
  let! connected_at := utcnow in
  let! last_heartbeat := utcnow in
  let connection :=
    {| c_websocket := websocket; c_connection_id := connection_id;
       c_user_id := user_id; c_session_id := session_id;
       c_connected_at := connected_at; c_last_heartbeat := last_heartbeat;
       c_subscribed_tasks := ∅; c_is_active := true |} in
  modify (with_manager (λ m,
    set_connections (<[connection_id := connection]> (connections m)) m)) >>
  (* Track user connections *)
  (match user_id with
   | Some user_id =>
       if truthy_opt (Some user_id)
       then update_user_connections (λ uc, add_entry uc user_id connection_id)
       else ret tt
   | None => ret tt
   end) >>
  (* Send connection confirmation *)
  let! t := utcnow in
  let! event :=
    create_system_event CONNECT
      [("connection_id", PStr connection_id); ("timestamp", PStr (isoformat t))]
      user_id session_id in
  let! sent := send_event connection event in
  ret (set_is_active sent connection).

(** [UUID(v)]: on a string, the library's parser; anything else has no
    [replace] attribute. *)
Definition UUID_new (v : pyval) : outcome UUID :=
  match v with
  | PStr s =>
      match UUID_parse s with
      | Some u => Ok u
      | None => Raise ValueError
      end
  | _ => Raise AttributeError
  end.

Definition _handle_subscribe_task (connection : WebSocketConnection)
    (message : WebSocketMessage) : M WebSocketResponse :=
  let task_id_str := dict_get (m_data message) "task_id" in
  if negb (truthy task_id_str)
  then error_response (m_type message) "task_id is required"
         (py_of_opt (m_request_id message))
  else
    match UUID_new task_id_str with
    | Raise ValueError =>
        error_response (m_type message) "Invalid task_id format"
          (py_of_opt (m_request_id message))
    | Raise e => raise e
    | Ok task_id =>
        (* Subscribe connection to task *)
        subscribe_to_task connection task_id >>
        (* Track task subscribers *)
        update_task_subscribers
          (λ ts, add_entry ts task_id (c_connection_id connection)) >>
        success_response (m_type message)
          [("task_id", PStr (UUID_str task_id)); ("subscribed", PBool true)]
          (py_of_opt (m_request_id message))
    end.

Definition _handle_unsubscribe_task (connection : WebSocketConnection)
    (message : WebSocketMessage) : M WebSocketResponse :=
  let task_id_str := dict_get (m_data message) "task_id" in
  if negb (truthy task_id_str)
  then error_response (m_type message) "task_id is required"
         (py_of_opt (m_request_id message))
  else
    match UUID_new task_id_str with
    | Raise ValueError =>
        error_response (m_type message) "Invalid task_id format"
          (py_of_opt (m_request_id message))
    | Raise e => raise e
    | Ok task_id =>
        (* Unsubscribe connection from task *)
        unsubscribe_from_task connection task_id >>
        (* Remove from task subscribers *)
        (let! ts := gets (λ w, task_subscribers (manager w)) in
         if contains ts task_id
         then update_task_subscribers
                (λ ts, discard_entry ts task_id (c_connection_id connection))
         else ret tt) >>
        success_response (m_type message)
          [("task_id", PStr (UUID_str task_id)); ("subscribed", PBool false)]
          (py_of_opt (m_request_id message))
    end.

Definition _handle_heartbeat (connection : WebSocketConnection)
    (message : WebSocketMessage) : M WebSocketResponse :=
  update_heartbeat connection >>
  let! t := utcnow in
  success_response (m_type message) [("timestamp", PStr (isoformat t))]
    (py_of_opt (m_request_id message)).

Definition _handle_get_status (connection : WebSocketConnection)
    (message : WebSocketMessage) : M WebSocketResponse :=
  let! cs := gets (λ w, connections (manager w)) in
  success_response (m_type message)
    [("connection_id", PStr (c_connection_id connection));
     ("user_id", py_of_opt (c_user_id connection));
     ("session_id", py_of_opt (c_session_id connection));
     ("connected_at", PStr (isoformat (c_connected_at connection)));
     ("subscribed_tasks",
      PList ((λ task_id, PStr (UUID_str task_id))
               <$> elements (c_subscribed_tasks connection)));
     ("total_connections", PInt (Z.of_nat (size cs)))]
    (py_of_opt (m_request_id message)).

Definition handle_message (connection_id : string) (message_data : pydict)
  : M WebSocketResponse :=
  let! connection := connections_get connection_id in
  match connection with
  | None => error_response "error" "Connection not found" PNone
  | Some connection =>
      match WebSocketMessage_new message_data with
      | Raise _ =>
          error_response "error" "Invalid message format"
            (dict_get message_data "request_id")
      | Ok message =>
          (* Update heartbeat *)
          update_heartbeat connection >>
          (* Handle different message types *)
          try_except
            (if String.eqb (m_type message) "subscribe_task"
             then _handle_subscribe_task connection message
             else if String.eqb (m_type message) "unsubscribe_task"
             then _handle_unsubscribe_task connection message
             else if String.eqb (m_type message) "heartbeat"
             then _handle_heartbeat connection message
             else if String.eqb (m_type message) "get_status"
             then _handle_get_status connection message
             else error_response (m_type message)
                    ("Unknown message type: " ++ m_type message)
                    (py_of_opt (m_request_id message)))
            (λ e, error_response (m_type message)
                    ("Internal error: " ++ exn_str e)
                    (py_of_opt (m_request_id message)))
      end
  end.

(** One turn of the [while True] of [_heartbeat_loop]. *)
Definition _heartbeat_loop_iteration : M unit :=
  try_except
    (sleep 30 >>
     let! cs := gets (λ w, connections (manager w)) in
     if decide (cs = ∅) then ret tt
     else
       let! heartbeat_event := create_heartbeat_event None None in
       broadcast_event heartbeat_event)
    (λ _, ret tt).

(** [_heartbeat_loop], cancelled after the given number of turns. *)
Fixpoint _heartbeat_loop (turns : nat) : M unit :=
  match turns with
  | 0 => ret tt
  | S turns' => _heartbeat_loop_iteration >> _heartbeat_loop turns'
  end.

(** One turn of the [while True] of [_cleanup_loop]. *)
Definition _cleanup_loop_iteration : M unit :=
  try_except
    (sleep 60 >>
     let! now := utcnow in
     let! cs := gets (λ w, connections (manager w)) in
     let inactive_connections :=
       (map_to_list cs) ≫= (λ kc,
          if bool_decide (300 < now - c_last_heartbeat kc.2)
          then [kc.1] else []) in
     for_each inactive_connections disconnect)
    (λ _, ret tt).

(** [_cleanup_loop], cancelled after the given number of turns. *)
Fixpoint _cleanup_loop (turns : nat) : M unit :=
  match turns with
  | 0 => ret tt
  | S turns' => _cleanup_loop_iteration >> _cleanup_loop turns'
  end.

End manager.

(** ** The two indices as relations

    [indexed d k x]: the index [d] lists connection id [x] under key [k]. *)

Definition indexed `{Countable K} (d : gmap K (gset string)) (k : K)
    (x : string) : Prop :=
  ∃ s, d !! k = Some s ∧ x ∈ s.

(** No key of the index holds an empty set. *)
Definition no_empty_entry `{Countable K} (d : gmap K (gset string)) : Prop :=
  ∀ k s, d !! k = Some s → s ≠ ∅.

(** What [discard_entry] and [add_entry] leave behind. *)
Definition discarded `{Countable K} (d : gmap K (gset string)) (k : K)
    (x : string) : gmap K (gset string) :=
  match d !! k with
  | Some s => if decide (s ∖ {[x]} = ∅) then delete k d
              else <[k := s ∖ {[x]}]> d
  | None => d
  end.

Definition added `{Countable K} (d : gmap K (gset string)) (k : K)
    (x : string) : gmap K (gset string) :=
  <[k := default ∅ (d !! k) ∪ {[x]}]> d.

Section index_facts.
Context `{Countable K}.
Implicit Types (d : gmap K (gset string)) (k : K) (x : string).

Lemma discard_entry_ok d k x :
  is_Some (d !! k) → discard_entry d k x = Ok (discarded d k x).
Proof.
  intros [s Hs]. unfold discard_entry, discarded, getitem, delitem.
  rewrite Hs. unfold outcome_bind. rewrite lookup_insert_eq.
  destruct (decide (s ∖ {[x]} = ∅)); [|done].
  by rewrite delete_insert_eq.
Qed.

Lemma discarded_absent d k x : d !! k = None → discarded d k x = d.
Proof. intros Hk. unfold discarded. by rewrite Hk. Qed.

Lemma indexed_discarded d k x k' x' :
  indexed (discarded d k x) k' x' ↔ indexed d k' x' ∧ ¬ (k = k' ∧ x = x').
Proof.
  unfold indexed, discarded. destruct (d !! k) as [s|] eqn:Hs.
  - destruct (decide (s ∖ {[x]} = ∅)) as [He|He].
    + split.
      * intros (s' & Hs' & Hx'). destruct (decide (k = k')) as [->|Hne].
        { by rewrite lookup_delete_eq in Hs'. }
        rewrite lookup_delete_ne in Hs' by done. naive_solver.
      * intros [(s' & Hs' & Hx') Hn]. destruct (decide (k = k')) as [->|Hne].
        { rewrite Hs in Hs'. simplify_eq. set_solver. }
        exists s'. by rewrite lookup_delete_ne.
    + split.
      * intros (s' & Hs' & Hx'). destruct (decide (k = k')) as [->|Hne].
        { rewrite lookup_insert_eq in Hs'. simplify_eq.
          split; [exists s; set_solver | set_solver]. }
        rewrite lookup_insert_ne in Hs' by done. naive_solver.
      * intros [(s' & Hs' & Hx') Hn]. destruct (decide (k = k')) as [->|Hne].
        { rewrite Hs in Hs'. simplify_eq. exists (s' ∖ {[x]}).
          rewrite lookup_insert_eq. split; [done|]. set_solver. }
        exists s'. by rewrite lookup_insert_ne.
  - split; [|naive_solver]. intros (s' & Hs' & Hx').
    split; [by exists s'|]. intros [-> _]. congruence.
Qed.

Lemma no_empty_entry_discarded d k x :
  no_empty_entry d → no_empty_entry (discarded d k x).
Proof.
  unfold no_empty_entry, discarded. intros Hd k' s'.
  destruct (d !! k) as [s|] eqn:Hs; [|by apply Hd].
  destruct (decide (s ∖ {[x]} = ∅)).
  - destruct (decide (k = k')) as [->|Hne].
    + by rewrite lookup_delete_eq.
    + rewrite lookup_delete_ne by done. apply Hd.
  - destruct (decide (k = k')) as [->|Hne].
    + rewrite lookup_insert_eq. congruence.
    + rewrite lookup_insert_ne by done. apply Hd.
Qed.

Lemma add_entry_ok d k x : add_entry d k x = Ok (added d k x).
Proof.
  unfold add_entry, added, getitem, outcome_bind.
  destruct (d !! k) as [s|] eqn:Hs.
  - by rewrite Hs.
  - rewrite lookup_insert_eq. by rewrite insert_insert_eq.
Qed.

Lemma indexed_added d k x k' x' :
  indexed (added d k x) k' x' ↔ indexed d k' x' ∨ (k = k' ∧ x = x').
Proof.
  unfold indexed, added. destruct (decide (k = k')) as [->|Hne].
  - rewrite lookup_insert_eq. split.
    + intros (s' & Hs' & Hx'). simplify_eq.
      apply elem_of_union in Hx' as [Hx'|Hx']; [|set_solver].
      left. destruct (d !! k') as [s|]; [by exists s | set_solver].
    + intros [(s' & Hs' & Hx')|[_ ->]]; eexists; (split; [done|]).
      * rewrite Hs'. set_solver.
      * set_solver.
  - rewrite lookup_insert_ne by done. naive_solver.
Qed.

Lemma no_empty_entry_added d k x :
  no_empty_entry d → no_empty_entry (added d k x).
Proof.
  unfold no_empty_entry, added. intros Hd k' s'.
  destruct (decide (k = k')) as [->|Hne].
  - rewrite lookup_insert_eq. intros [= <-]. set_solver.
  - rewrite lookup_insert_ne by done. apply Hd.
Qed.

Lemma added_twice d k x : added (added d k x) k x = added d k x.
Proof.
  unfold added. rewrite lookup_insert_eq, insert_insert_eq. cbn.
  f_equal. set_solver.
Qed.

Lemma discarded_not_indexed d k x :
  no_empty_entry d → ¬ indexed d k x → discarded d k x = d.
Proof.
  intros Hd Hn. unfold discarded. destruct (d !! k) as [s|] eqn:Hs; [|done].
  assert (x ∉ s) by (intros ?; apply Hn; by exists s).
  assert (s ∖ {[x]} = s) as -> by set_solver.
  destruct (decide (s = ∅)) as [->|_]; [by apply Hd in Hs|].
  by apply insert_id.
Qed.

Lemma discarded_empties d k x s :
  d !! k = Some s → s ∖ {[x]} = ∅ → discarded d k x !! k = None.
Proof.
  intros Hs He. unfold discarded. rewrite Hs.
  destruct (decide (s ∖ {[x]} = ∅)); [|done]. apply lookup_delete_eq.
Qed.

Lemma indexed_foldl_discarded (l : list K) d x k' x' :
  indexed (foldl (λ d k, discarded d k x) d l) k' x'
  ↔ indexed d k' x' ∧ ¬ (k' ∈ l ∧ x = x').
Proof.
  revert d. induction l as [|k l IH]; intros d; cbn.
  - set_solver.
  - rewrite IH, indexed_discarded. set_solver.
Qed.

Lemma no_empty_entry_foldl_discarded (l : list K) d x :
  no_empty_entry d → no_empty_entry (foldl (λ d k, discarded d k x) d l).
Proof.
  revert d. induction l as [|k l IH]; intros d Hd; cbn; [done|].
  by apply IH, no_empty_entry_discarded.
Qed.

End index_facts.

(** ** Running the monad *)

Lemma bind_ok {A B} (m : M A) (f : A → M B) w a w' :
  m w = (Ok a, w') → bind m f w = f a w'.
Proof. unfold bind. by intros ->. Qed.


Lemma bind_ret_snd {A} (m : M A) w : (bind m (λ _, ret tt) w).2 = (m w).2.
Proof. unfold bind, ret. by destruct (m w) as [[]]. Qed.

Lemma with_manager_id w f : f (manager w) = manager w → with_manager f w = w.
Proof. destruct w. unfold with_manager. simpl. by intros ->. Qed.

Lemma set_task_subscribers_id m :
  set_task_subscribers (task_subscribers m) m = m.
Proof. by destruct m. Qed.

Lemma set_user_connections_id m :
  set_user_connections (user_connections m) m = m.
Proof. by destruct m. Qed.


(** Unfold the field updates of the world and of the manager. *)
Ltac fields :=
  unfold with_manager, log, set_connections, set_user_connections,
    set_task_subscribers in *;
  simpl in *.

(** ** [disconnect] in closed form *)

Definition close_effect (w : World) (c : WebSocketConnection) : effect :=
  {| eff_conn := c_connection_id c; eff_ws := c_websocket c;
     eff_call := Close;
     eff_ok := bool_decide (c_websocket c ∉ close_failing (net w)) |}.

(** The world after [disconnect k], when [k] is registered to [c]. *)
Definition disconnected (k : string) (c : WebSocketConnection) (w : World)
  : World :=
  let m := manager w in
  {| manager :=
       {| connections := delete k (connections m);
          user_connections :=
            match c_user_id c with
            | Some u => if truthy_opt (Some u)
                        then discarded (user_connections m) u k
                        else user_connections m
            | None => user_connections m
            end;
          task_subscribers :=
            foldl (λ ts t, discarded ts t k) (task_subscribers m)
                  (elements (c_subscribed_tasks c)) |};
     now := now w; entropy := entropy w; net := net w;
     trace := trace w ++ if c_is_active c then [close_effect w c] else [] |}.

Lemma update_task_subscribers_discard t k w :
  (let! ts := gets (λ w, task_subscribers (manager w)) in
   if contains ts t
   then update_task_subscribers (λ ts, discard_entry ts t k)
   else ret tt) w
  = (Ok tt, with_manager
              (set_task_subscribers
                 (discarded (task_subscribers (manager w)) t k)) w).
Proof.
  unfold bind, gets, contains, update_task_subscribers, bind, gets, lift,
    modify, ret.
  destruct (task_subscribers (manager w) !! t) as [s|] eqn:Hs.
  - rewrite bool_decide_eq_true_2 by eauto.
    rewrite discard_entry_ok by eauto. done.
  - rewrite bool_decide_eq_false_2 by (by intros [??]).
    rewrite discarded_absent by done.
    by rewrite with_manager_id by apply set_task_subscribers_id.
Qed.

Lemma unsubscribe_loop_run (l : list UUID) k w :
  for_each l (λ task_id,
    let! ts := gets (λ w, task_subscribers (manager w)) in
    if contains ts task_id
    then update_task_subscribers (λ ts, discard_entry ts task_id k)
    else ret tt) w
  = (Ok tt, with_manager
              (set_task_subscribers
                 (foldl (λ ts t, discarded ts t k)
                        (task_subscribers (manager w)) l)) w).
Proof.
  revert w. induction l as [|t l IH]; intros w.
  - simpl. unfold ret. by rewrite with_manager_id by apply set_task_subscribers_id.
  - cbn [for_each]. erewrite bind_ok by apply update_task_subscribers_discard.
    rewrite IH. by destruct w as [[]].
Qed.

Lemma disconnect_unknown w k :
  connections (manager w) !! k = None → disconnect k w = (Ok tt, w).
Proof.
  intros Hk. unfold disconnect, connections_get, bind, gets. by rewrite Hk.
Qed.

Lemma disconnect_known w k c :
  connections (manager w) !! k = Some c →
  disconnect k w = (Ok tt, disconnected k c w).
Proof.
  intros Hk. unfold disconnect.
  erewrite bind_ok by (unfold connections_get, gets; by rewrite Hk).
  cbv beta iota.
  set (w1 := with_manager (set_user_connections
    match c_user_id c with
    | Some u => if truthy_opt (Some u)
                then discarded (user_connections (manager w)) u k
                else user_connections (manager w)
    | None => user_connections (manager w)
    end) w).
  erewrite (bind_ok _ _ w tt w1); cycle 1.
  { subst w1. destruct (c_user_id c) as [u|]; cycle 1.
    { unfold ret. by rewrite with_manager_id by apply set_user_connections_id. }
    unfold bind, gets. destruct (truthy_opt (Some u)); cycle 1.
    { unfold ret. by rewrite with_manager_id by apply set_user_connections_id. }
    rewrite andb_true_l. unfold contains.
    destruct (user_connections (manager w) !! u) as [s|] eqn:Hs.
    - rewrite bool_decide_eq_true_2 by eauto.
      unfold update_user_connections, bind, gets, lift, modify.
      rewrite discard_entry_ok by eauto. done.
    - rewrite bool_decide_eq_false_2 by (by intros [??]).
      rewrite discarded_absent by done. unfold ret.
      by rewrite with_manager_id by apply set_user_connections_id. }
  erewrite bind_ok by apply unsubscribe_loop_run.
  unfold bind, try_except, update_connections, bind, gets, lift, modify, delitem.
  destruct (c_is_active c) eqn:Hact.
  - unfold transport.
    destruct (bool_decide _) eqn:Hok; simpl; rewrite Hk;
      unfold disconnected, close_effect; simpl; rewrite Hact, ?Hok;
      subst w1; destruct w as [[]]; fields; rewrite ?Hok; done.
  - unfold ret. simpl. rewrite Hk. unfold disconnected. rewrite Hact.
    subst w1. destruct w as [[]]; fields. by rewrite app_nil_r.
Qed.

(** ** The index consistency invariant

    The registry is the source of truth, and the two indices reflect it
    exactly: an id is listed under a user exactly when the registry holds a
    connection of that (non-empty) user under that id, and under a task
    exactly when that connection subscribes to the task; every object sits
    under its own id, and no index keeps an empty set. *)

Record consistent (m : WebSocketManager) : Prop := {
  cons_key : ∀ k c, connections m !! k = Some c → c_connection_id c = k;
  cons_user : ∀ u k,
    indexed (user_connections m) u k
    ↔ ∃ c, connections m !! k = Some c ∧ c_user_id c = Some u
           ∧ truthy_opt (Some u) = true;
  cons_task : ∀ t k,
    indexed (task_subscribers m) t k
    ↔ ∃ c, connections m !! k = Some c ∧ t ∈ c_subscribed_tasks c;
  cons_user_nonempty : no_empty_entry (user_connections m);
  cons_task_nonempty : no_empty_entry (task_subscribers m);
}.

(** [WebSocketManager.__init__] *)
Definition new_manager : WebSocketManager :=
  {| connections := ∅; user_connections := ∅; task_subscribers := ∅ |}.

Lemma consistent_new : consistent new_manager.
Proof.
  split; unfold indexed, no_empty_entry; simpl.
  - intros k c. by rewrite lookup_empty.
  - intros u k. split.
    + intros (s & Hs & _). by rewrite lookup_empty in Hs.
    + intros (c & Hc & _). by rewrite lookup_empty in Hc.
  - intros t k. split.
    + intros (s & Hs & _). by rewrite lookup_empty in Hs.
    + intros (c & Hc & _). by rewrite lookup_empty in Hc.
  - intros k s. by rewrite lookup_empty.
  - intros k s. by rewrite lookup_empty.
Qed.

Lemma consistent_disconnected w k c :
  consistent (manager w) → connections (manager w) !! k = Some c →
  consistent (manager (disconnected k c w)).
Proof.
  intros [Hkey Hu Ht Hun Htn] Hk. split; simpl.
  - intros k' c'. rewrite lookup_delete_Some. intros [_ ?]. by apply Hkey.
  - intros u k'.
    assert (indexed (user_connections (manager w)) u k' ∧ k ≠ k'
            ↔ ∃ c', delete k (connections (manager w)) !! k' = Some c'
                    ∧ c_user_id c' = Some u ∧ truthy_opt (Some u) = true)
      as <-.
    { rewrite Hu. setoid_rewrite lookup_delete_Some. naive_solver. }
    destruct (c_user_id c) as [u0|] eqn:Hcu;
      [destruct (truthy_opt (Some u0)) eqn:Htu|].
    + rewrite indexed_discarded. split; [|naive_solver].
      intros [Hi Hn]. split; [done|]. intros <-. apply Hn. split; [|done].
      apply Hu in Hi as (c' & ? & ? & ?). congruence.
    + split; [|naive_solver]. intros Hi. split; [done|]. intros <-.
      apply Hu in Hi as (c' & ? & ? & ?). congruence.
    + split; [|naive_solver]. intros Hi. split; [done|]. intros <-.
      apply Hu in Hi as (c' & ? & ? & ?). congruence.
  - intros t k'. rewrite indexed_foldl_discarded, Ht.
    setoid_rewrite lookup_delete_Some. rewrite elem_of_elements. split.
    + intros [(c' & Hc' & Hin) Hn]. exists c'. split; [|done].
      split; [|done]. intros <-. apply Hn. split; [|done]. congruence.
    + intros (c' & [Hne Hc'] & Hin). split; [by exists c'|]. naive_solver.
  - destruct (c_user_id c) as [u0|]; [destruct (truthy_opt (Some u0))|];
      try done. by apply no_empty_entry_discarded.
  - by apply no_empty_entry_foldl_discarded.
Qed.

(** An assignment to an attribute that no index reflects. *)
Lemma consistent_alter m k (f : WebSocketConnection → WebSocketConnection) :
  (∀ c, c_connection_id (f c) = c_connection_id c
        ∧ c_user_id (f c) = c_user_id c
        ∧ c_subscribed_tasks (f c) = c_subscribed_tasks c) →
  consistent m → consistent (set_connections (alter f k (connections m)) m).
Proof.
  intros Hf [Hkey Hu Ht Hun Htn].
  assert (∀ k' (P : WebSocketConnection → Prop),
    (∀ c, P (f c) ↔ P c) →
    (∃ c, alter f k (connections m) !! k' = Some c ∧ P c)
    ↔ (∃ c, connections m !! k' = Some c ∧ P c)) as Hex.
  { intros k' P HP. rewrite lookup_alter. case_decide; [subst|done].
    destruct (connections m !! k') as [c0|]; simpl; [|naive_solver].
    split; intros (c & [= <-] & ?); eexists; split; try done; by apply HP. }
  split; simpl; try done.
  - intros k' c'. rewrite lookup_alter. case_decide; [subst|by apply Hkey].
    destruct (connections m !! k') as [c0|] eqn:Hc0; simpl; [|done].
    intros [= <-]. destruct (Hf c0) as (-> & _). by apply Hkey.
  - intros u k'. rewrite Hu. symmetry. apply Hex.
    intros c. by destruct (Hf c) as (_ & -> & _).
  - intros t k'. rewrite Ht. symmetry. apply Hex.
    intros c. by destruct (Hf c) as (_ & _ & ->).
Qed.

(** ** Subscribing and unsubscribing in closed form *)

Definition subscribed (k : string) (t : UUID) (m : WebSocketManager)
  : WebSocketManager :=
  {| connections :=
       alter (set_subscribed_tasks (λ s, s ∪ {[t]})) k (connections m);
     user_connections := user_connections m;
     task_subscribers := added (task_subscribers m) t k |}.

Definition unsubscribed (k : string) (t : UUID) (m : WebSocketManager)
  : WebSocketManager :=
  {| connections :=
       alter (set_subscribed_tasks (λ s, s ∖ {[t]})) k (connections m);
     user_connections := user_connections m;
     task_subscribers := discarded (task_subscribers m) t k |}.

Lemma consistent_subscribed m k t :
  consistent m → is_Some (connections m !! k) → consistent (subscribed k t m).
Proof.
  intros Hm [c0 Hc0].
  pose proof (consistent_alter m k (set_subscribed_tasks (λ s, s ∪ {[t]})))
    as Ha.
  destruct Hm as [Hkey Hu Ht Hun Htn]. split; simpl.
  - intros k' c'. rewrite lookup_alter. case_decide; [subst|by apply Hkey].
    rewrite Hc0. intros [= <-]. simpl. by apply Hkey.
  - intros u k'. rewrite Hu, lookup_alter. case_decide; [subst|done].
    rewrite Hc0. simpl. split; intros (c & [= <-] & ?); eexists; by split.
  - intros t' k'. rewrite indexed_added, Ht, lookup_alter.
    case_decide; [subst; rewrite Hc0; simpl|naive_solver]. split.
    + intros [(c & [= <-] & ?)|[<- _]]; eexists; (split; [done|]); simpl;
        set_solver.
    + intros (c & [= <-] & Hin). simpl in Hin.
      apply elem_of_union in Hin as [Hin|Hin]; [left; by exists c0|].
      right. set_solver.
  - done.
  - by apply no_empty_entry_added.
Qed.

Lemma consistent_unsubscribed m k t :
  consistent m → consistent (unsubscribed k t m).
Proof.
  intros [Hkey Hu Ht Hun Htn]. split; simpl.
  - intros k' c'. rewrite lookup_alter. case_decide; [subst|by apply Hkey].
    destruct (connections m !! k') as [c0|] eqn:Hc0; simpl; [|done].
    intros [= <-]. simpl. by apply Hkey.
  - intros u k'. rewrite Hu, lookup_alter. case_decide; [subst|done].
    destruct (connections m !! k') as [c0|] eqn:Hc0; simpl; [|done].
    split; intros (c & [= <-] & ?); eexists; by split.
  - intros t' k'. rewrite indexed_discarded, Ht, lookup_alter.
    case_decide; [subst|naive_solver].
    destruct (connections m !! k') as [c0|] eqn:Hc0; simpl; [|naive_solver].
    split.
    + intros [(c & [= <-] & ?) Hn]. eexists. split; [done|]. simpl.
      set_solver.
    + intros (c & [= <-] & Hin). simpl in Hin. split; [|set_solver].
      exists c0. set_solver.
  - done.
  - by apply no_empty_entry_discarded.
Qed.

Lemma response_new_opt type data success error (o : option string) :
  WebSocketResponse_new type data success error (py_of_opt o)
  = Ok {| r_type := type; r_data := data; r_success := success;
          r_error := error; r_request_id := o |}.
Proof. by destruct o. Qed.

Section handlers.
Context `{PyLib}.

(** The task id a subscribe or unsubscribe message names, when it names
    one: the [task_id] entry of its data is truthy and parses. *)
Definition task_id_of (message : WebSocketMessage) : option UUID :=
  let task_id_str := dict_get (m_data message) "task_id" in
  if truthy task_id_str
  then match UUID_new task_id_str with Ok t => Some t | Raise _ => None end
  else None.

Lemma handle_subscribe_task_run c message t w :
  task_id_of message = Some t →
  _handle_subscribe_task c message w
  = (Ok {| r_type := m_type message;
           r_data := [("task_id", PStr (UUID_str t));
                      ("subscribed", PBool true)];
           r_success := true; r_error := None;
           r_request_id := m_request_id message |},
     with_manager (subscribed (c_connection_id c) t) w).
Proof.
  unfold task_id_of, _handle_subscribe_task. intros Ht.
  destruct (truthy _); [|done]. simpl.
  destruct (UUID_new _) as [t'|]; [|done]. injection Ht as ->.
  unfold bind, subscribe_to_task, mutate, modify, update_task_subscribers,
    bind, gets, lift, success_response, lift.
  rewrite add_entry_ok, response_new_opt. by destruct w as [[]].
Qed.

Lemma handle_unsubscribe_task_run c message t w :
  task_id_of message = Some t →
  _handle_unsubscribe_task c message w
  = (Ok {| r_type := m_type message;
           r_data := [("task_id", PStr (UUID_str t));
                      ("subscribed", PBool false)];
           r_success := true; r_error := None;
           r_request_id := m_request_id message |},
     with_manager (unsubscribed (c_connection_id c) t) w).
Proof.
  unfold task_id_of, _handle_unsubscribe_task. intros Ht.
  destruct (truthy _); [|done]. simpl.
  destruct (UUID_new _) as [t'|]; [|done]. injection Ht as ->.
  unfold bind at 1. unfold unsubscribe_from_task, mutate, modify.
  erewrite bind_ok by apply update_task_subscribers_discard.
  unfold success_response, lift. rewrite response_new_opt.
  by destruct w as [[]].
Qed.

(** A message that names no task changes nothing. *)
Lemma handle_subscribe_task_none c message w :
  task_id_of message = None → (_handle_subscribe_task c message w).2 = w.
Proof.
  unfold task_id_of, _handle_subscribe_task. intros Ht.
  destruct (truthy _); simpl; [|done].
  destruct (UUID_new _) as [t'|[]]; done.
Qed.

Lemma handle_unsubscribe_task_none c message w :
  task_id_of message = None → (_handle_unsubscribe_task c message w).2 = w.
Proof.
  unfold task_id_of, _handle_unsubscribe_task. intros Ht.
  destruct (truthy _); simpl; [|done].
  destruct (UUID_new _) as [t'|[]]; done.
Qed.

End handlers.

(** ** [connect] in closed form *)

Definition accept_effect (w : World) (websocket : WebSocket) (k : string)
  : effect :=
  {| eff_conn := k; eff_ws := websocket; eff_call := Accept;
     eff_ok := bool_decide (websocket ∉ accept_failing (net w)) |}.

(** [WebSocketConnection.__init__] at time [t]. *)
Definition new_connection (websocket : WebSocket) (k : string)
    (user_id session_id : option string) (t : datetime)
  : WebSocketConnection :=
  {| c_websocket := websocket; c_connection_id := k; c_user_id := user_id;
     c_session_id := session_id; c_connected_at := t; c_last_heartbeat := t;
     c_subscribed_tasks := ∅; c_is_active := true |}.

Section connect_facts.
Context `{PyLib}.

(** The confirmation event [connect] sends. *)
Definition connect_event (w : World) (k : string)
    (user_id session_id : option string) : WebSocketEvent :=
  {| e_id := entropy w; e_type := CONNECT;
     e_data := [("connection_id", PStr k);
                ("timestamp", PStr (isoformat (now w)))];
     e_timestamp := now w; e_task_id := None; e_user_id := user_id;
     e_session_id := session_id |}.

(** The world after a [connect] whose handshake succeeded. *)
Definition connected (websocket : WebSocket) (k : string)
    (user_id session_id : option string) (w : World) : World :=
  let m := manager w in
  let sent := bool_decide (websocket ∉ send_failing (net w)) in
  {| manager :=
       {| connections :=
            <[k := set_is_active sent
                     (new_connection websocket k user_id session_id (now w))]>
              (connections m);
          user_connections :=
            match user_id with
            | Some u => if truthy_opt (Some u)
                        then added (user_connections m) u k
                        else user_connections m
            | None => user_connections m
            end;
          task_subscribers := task_subscribers m |};
     now := now w; entropy := N.succ (entropy w); net := net w;
     trace := trace w ++
       [accept_effect w websocket k;
        {| eff_conn := k; eff_ws := websocket;
           eff_call := SendText (connect_event w k user_id session_id);
           eff_ok := sent |}] |}.

Lemma connect_run websocket k user_id session_id w :
  connect websocket k user_id session_id w
  = if bool_decide (websocket ∉ accept_failing (net w))
    then (Ok (set_is_active (bool_decide (websocket ∉ send_failing (net w)))
                (new_connection websocket k user_id session_id (now w))),
          connected websocket k user_id session_id w)
    else (Raise TransportError, log (accept_effect w websocket k) w).
Proof.
  unfold connect, accept_effect. unfold bind at 1. unfold transport at 1.
  unfold failing.
  destruct (bool_decide (websocket ∉ accept_failing (net w))) eqn:Hacc;
    [|done].
  cbv beta iota.
  set (w1 := log _ w).
  unfold bind at 1. unfold utcnow at 1, gets at 1.
  unfold bind at 1. unfold utcnow at 1, gets at 1.
  unfold bind at 1. unfold modify at 1.
  set (w2 := with_manager _ w1).
  set (w3 := with_manager (set_user_connections
    match user_id with
    | Some u => if truthy_opt (Some u)
                then added (user_connections (manager w2)) u k
                else user_connections (manager w2)
    | None => user_connections (manager w2)
    end) w2).
  erewrite (bind_ok _ _ w2 tt w3); cycle 1.
  { subst w3. destruct user_id as [u|]; cycle 1.
    { unfold ret. by rewrite with_manager_id by apply set_user_connections_id. }
    destruct (truthy_opt (Some u)); cycle 1.
    { unfold ret. by rewrite with_manager_id by apply set_user_connections_id. }
    unfold update_user_connections, bind, gets, lift, modify.
    by rewrite add_entry_ok. }
  unfold bind, utcnow, gets, create_system_event, new_event, bind, uuid4,
    utcnow, gets, ret, send_event, try_except, bind, transport, mutate,
    modify, ret.
  unfold failing. unfold connected, connect_event.
  subst w3 w2 w1. destruct w as [[cs uc ts] t e n tr]. fields.
  unfold new_connection, accept_effect, set_is_active. simpl. rewrite ?Hacc.
  destruct (bool_decide (websocket ∉ send_failing n)); simpl.
  - rewrite <- (assoc_L (++)). simpl. done.
  - rewrite alter_insert_eq, <- (assoc_L (++)). done.
Qed.

Lemma consistent_connected websocket k user_id session_id w :
  consistent (manager w) → connections (manager w) !! k = None →
  consistent (manager (connected websocket k user_id session_id w)).
Proof.
  intros [Hkey Hu Ht Hun Htn] Hk. split; simpl.
  - intros k' c'. rewrite lookup_insert. case_decide; [subst|by apply Hkey].
    by intros [= <-].
  - intros u k'.
    assert (indexed (user_connections (manager w)) u k'
            ∨ (k = k' ∧ user_id = Some u ∧ truthy_opt (Some u) = true)
            ↔ ∃ c, <[k := set_is_active
                        (bool_decide (websocket ∉ send_failing (net w)))
                        (new_connection websocket k user_id session_id
                           (now w))]> (connections (manager w)) !! k'
                   = Some c
                   ∧ c_user_id c = Some u ∧ truthy_opt (Some u) = true)
      as <-.
    { rewrite Hu, lookup_insert. case_decide; [subst|naive_solver]. split.
      - intros [(c & ? & _)|(_ & ? & ?)]; [congruence|]. by eexists.
      - intros (c & [= <-] & ? & ?). by right. }
    destruct user_id as [u0|]; [destruct (truthy_opt (Some u0)) eqn:Htu|].
    + rewrite indexed_added. naive_solver.
    + split; [by left|]. intros [?|(_ & [= <-] & ?)]; [done|congruence].
    + naive_solver.
  - intros t k'. rewrite Ht, lookup_insert. case_decide; [subst|done]. split.
    + intros (c & ? & _). congruence.
    + intros (c & [= <-] & Hin). simpl in Hin. set_solver.
  - destruct user_id as [u0|]; [destruct (truthy_opt (Some u0))|]; try done.
    by apply no_empty_entry_added.
  - done.
Qed.

End connect_facts.

(** ** Properties that the steps of a computation keep *)

(** [m] keeps [P]: whatever [m] returns or raises, [P] holds afterwards. *)
Definition keeps {A} (P : World → Prop) (m : M A) : Prop :=
  ∀ w, P w → P (m w).2.

(** [m] returns: it never raises. *)
Definition returns {A} (m : M A) : Prop :=
  ∀ w, ∃ a, (m w).1 = Ok a.

Section keeps_rules.
Context (P : World → Prop).

Lemma keeps_ret {A} (a : A) : keeps P (ret a).
Proof. by intros w. Qed.

Lemma keeps_gets {A} (f : World → A) : keeps P (gets f).
Proof. by intros w. Qed.

Lemma keeps_lift {A} (o : outcome A) : keeps P (lift o).
Proof. by intros w. Qed.

Lemma keeps_raise {A} (e : exn) : keeps P (@raise A e).
Proof. by intros w. Qed.

Lemma keeps_bind {A B} (m : M A) (f : A → M B) :
  keeps P m → (∀ a, keeps P (f a)) → keeps P (bind m f).
Proof.
  intros Hm Hf w Hw. unfold bind. specialize (Hm w Hw).
  destruct (m w) as [[a|e] w']; simpl in *; [by apply Hf | done].
Qed.

Lemma keeps_try_except {A} (m : M A) (h : exn → M A) :
  keeps P m → (∀ e, keeps P (h e)) → keeps P (try_except m h).
Proof.
  intros Hm Hh w Hw. unfold try_except. specialize (Hm w Hw).
  destruct (m w) as [[a|e] w']; simpl in *; [done | by apply Hh].
Qed.

Lemma keeps_for_each {A} (l : list A) (body : A → M unit) :
  (∀ x, keeps P (body x)) → keeps P (for_each l body).
Proof.
  intros Hb. induction l as [|x l IH]; simpl.
  - apply keeps_ret.
  - apply keeps_bind; [apply Hb | by intros _].
Qed.

End keeps_rules.

Lemma returns_ret {A} (a : A) : returns (ret a).
Proof. intros w. by exists a. Qed.

Lemma returns_gets {A} (f : World → A) : returns (gets f).
Proof. intros w. by eexists. Qed.

Lemma returns_bind {A B} (m : M A) (f : A → M B) :
  returns m → (∀ a, returns (f a)) → returns (bind m f).
Proof.
  intros Hm Hf w. unfold bind. destruct (Hm w) as [a Ha].
  destruct (m w) as [[a'|e] w']; simpl in *; [apply Hf | done].
Qed.

Lemma returns_try_except {A} (m : M A) (h : exn → M A) :
  (∀ e, returns (h e)) → returns (try_except m h).
Proof.
  intros Hh w. unfold try_except.
  destruct (m w) as [[a|e] w']; simpl; [by exists a | apply Hh].
Qed.

Lemma returns_for_each {A} (l : list A) (body : A → M unit) :
  (∀ x, returns (body x)) → returns (for_each l body).
Proof.
  intros Hb. induction l as [|x l IH]; simpl.
  - apply returns_ret.
  - apply returns_bind; [apply Hb | by intros _].
Qed.


Lemma returns_disconnect k : returns (disconnect k).
Proof.
  intros w. destruct (connections (manager w) !! k) as [c|] eqn:Hk.
  - rewrite (disconnect_known _ _ _ Hk). by exists tt.
  - rewrite (disconnect_unknown _ _ Hk). by exists tt.
Qed.

Lemma returns_send_event c event : returns (send_event c event).
Proof.
  apply returns_try_except. intros _.
  apply returns_bind; [|intros _; apply returns_ret].
  intros w. by exists tt.
Qed.

Lemma returns_send_loop event l failed : returns (send_loop event l failed).
Proof.
  revert failed. induction l as [|k l IH]; intros failed; simpl.
  - apply returns_ret.
  - apply returns_bind; [apply returns_gets|]. intros [c|].
    + apply returns_bind; [|intros ?; apply IH].
      destruct (c_is_active c); [|apply returns_ret].
      apply returns_bind; [apply returns_send_event|].
      intros ?. apply returns_ret.
    + apply returns_bind; [apply returns_ret | intros ?; apply IH].
Qed.

(** [broadcast_event] and the two targeted sends never raise: a failed send
    is not reported to the producer. *)
Lemma returns_broadcast_event event : returns (broadcast_event event).
Proof.
  apply returns_bind; [apply returns_gets|]. intros m.
  destruct (decide _); [apply returns_ret|].
  apply returns_bind; [apply returns_send_loop|]. intros failed.
  apply returns_for_each, returns_disconnect.
Qed.

Lemma returns_send_to_user u event : returns (send_to_user u event).
Proof.
  apply returns_bind; [apply returns_gets|]. intros uc.
  destruct (uc !! u); [|apply returns_ret].
  apply returns_bind; [apply returns_send_loop|]. intros failed.
  apply returns_for_each, returns_disconnect.
Qed.

Lemma returns_send_to_task_subscribers t event :
  returns (send_to_task_subscribers t event).
Proof.
  apply returns_bind; [apply returns_gets|]. intros ts.
  destruct (ts !! t); [|apply returns_ret].
  apply returns_bind; [apply returns_send_loop|]. intros failed.
  apply returns_for_each, returns_disconnect.
Qed.

(** The world at another time and with another entropy. *)
Definition retime (t : datetime) (e : N) (w : World) : World :=
  {| manager := manager w; now := t; entropy := e; net := net w;
     trace := trace w |}.

(** What the operations built from [send_event] and [disconnect] keep. *)
Section composite.
Context (P : World → Prop).
Hypothesis P_disconnect : ∀ k, keeps P (disconnect k).
Hypothesis P_send_event : ∀ c event, keeps P (send_event c event).
Hypothesis P_retime : ∀ t e w, P w → P (retime t e w).

Lemma keeps_send_loop event l failed : keeps P (send_loop event l failed).
Proof using P_send_event.
  revert failed. induction l as [|k l IH]; intros failed; simpl.
  - apply keeps_ret.
  - apply keeps_bind; [apply keeps_gets|]. intros [c|].
    + apply keeps_bind; [|intros ?; apply IH].
      destruct (c_is_active c); [|apply keeps_ret].
      apply keeps_bind; [apply P_send_event|]. intros ?. apply keeps_ret.
    + apply keeps_bind; [apply keeps_ret | intros ?; apply IH].
Qed.

Lemma keeps_broadcast_event event : keeps P (broadcast_event event).
Proof using P_send_event P_disconnect.
  apply keeps_bind; [apply keeps_gets|]. intros m.
  destruct (decide _); [apply keeps_ret|].
  apply keeps_bind; [apply keeps_send_loop|]. intros failed.
  by apply keeps_for_each.
Qed.

Lemma keeps_send_to_user u event : keeps P (send_to_user u event).
Proof using P_send_event P_disconnect.
  apply keeps_bind; [apply keeps_gets|]. intros uc.
  destruct (uc !! u); [|apply keeps_ret].
  apply keeps_bind; [apply keeps_send_loop|]. intros failed.
  by apply keeps_for_each.
Qed.

Lemma keeps_send_to_task_subscribers t event :
  keeps P (send_to_task_subscribers t event).
Proof using P_send_event P_disconnect.
  apply keeps_bind; [apply keeps_gets|]. intros ts.
  destruct (ts !! t); [|apply keeps_ret].
  apply keeps_bind; [apply keeps_send_loop|]. intros failed.
  by apply keeps_for_each.
Qed.

Lemma keeps_stop : keeps P stop.
Proof using P_disconnect.
  apply keeps_bind; [apply keeps_gets|]. intros cs.
  apply keeps_for_each. intros kc. apply P_disconnect.
Qed.

Lemma keeps_sleep s : keeps P (sleep s).
Proof using P_retime. intros w Hw. by apply (P_retime (now w + s) (entropy w)). Qed.

Lemma keeps_uuid4 : keeps P uuid4.
Proof using P_retime. intros w Hw. by apply (P_retime (now w) (N.succ (entropy w))). Qed.

Lemma keeps_new_event type data task_id user_id session_id :
  keeps P (new_event type data task_id user_id session_id).
Proof using P_retime.
  apply keeps_bind; [apply keeps_uuid4|]. intros ?.
  apply keeps_bind; [apply keeps_gets|]. intros ?. apply keeps_ret.
Qed.

Lemma keeps_heartbeat_loop_iteration `{PyLib} :
  keeps P _heartbeat_loop_iteration.
Proof using P_send_event P_disconnect P_retime.
  apply keeps_try_except; [|intros _; apply keeps_ret].
  apply keeps_bind; [apply keeps_sleep|]. intros _.
  apply keeps_bind; [apply keeps_gets|]. intros cs.
  destruct (decide _); [apply keeps_ret|].
  apply keeps_bind; [|intros ?; apply keeps_broadcast_event].
  apply keeps_bind; [apply keeps_gets|]. intros ?. apply keeps_new_event.
Qed.

Lemma keeps_cleanup_loop_iteration `{PyLib} :
  keeps P _cleanup_loop_iteration.
Proof using P_disconnect P_retime.
  apply keeps_try_except; [|intros _; apply keeps_ret].
  apply keeps_bind; [apply keeps_sleep|]. intros _.
  apply keeps_bind; [apply keeps_gets|]. intros t.
  apply keeps_bind; [apply keeps_gets|]. intros cs.
  by apply keeps_for_each.
Qed.

End composite.

(** ** The consistency invariant along the operations *)

Definition consistent_world (w : World) : Prop := consistent (manager w).

Lemma consistent_mutate c f :
  (∀ c, c_connection_id (f c) = c_connection_id c
        ∧ c_user_id (f c) = c_user_id c
        ∧ c_subscribed_tasks (f c) = c_subscribed_tasks c) →
  keeps consistent_world (mutate c f).
Proof. intros Hf w Hw. by apply consistent_alter. Qed.

Lemma consistent_update_heartbeat c : keeps consistent_world (update_heartbeat c).
Proof.
  apply keeps_bind; [apply keeps_gets|]. intros t.
  by apply consistent_mutate.
Qed.

Lemma consistent_send_event c event : keeps consistent_world (send_event c event).
Proof.
  apply keeps_try_except.
  - apply keeps_bind; [by intros w|]. intros _. apply keeps_ret.
  - intros _. apply keeps_bind; [|intros _; apply keeps_ret].
    by apply consistent_mutate.
Qed.

Lemma consistent_disconnect k : keeps consistent_world (disconnect k).
Proof.
  intros w Hw. destruct (connections (manager w) !! k) as [c|] eqn:Hk.
  - rewrite (disconnect_known _ _ _ Hk). by apply consistent_disconnected.
  - by rewrite (disconnect_unknown _ _ Hk).
Qed.


Lemma is_Some_after_mutate c f k w :
  is_Some (connections (manager w) !! k) →
  is_Some (connections (manager (mutate c f w).2) !! k).
Proof.
  intros [c0 Hc0]. simpl. rewrite lookup_alter. case_decide; [subst|by eexists].
  rewrite Hc0. by eexists.
Qed.

Section handle_message_consistent.
Context `{PyLib}.

Lemma consistent_handle_subscribe_task c message w :
  consistent_world w → is_Some (connections (manager w) !! c_connection_id c) →
  consistent_world (_handle_subscribe_task c message w).2.
Proof.
  intros Hw Hc. destruct (task_id_of message) as [t|] eqn:Ht.
  - rewrite (handle_subscribe_task_run _ _ _ _ Ht).
    by apply consistent_subscribed.
  - by rewrite handle_subscribe_task_none.
Qed.

Lemma consistent_handle_unsubscribe_task c message w :
  consistent_world w →
  consistent_world (_handle_unsubscribe_task c message w).2.
Proof.
  intros Hw. destruct (task_id_of message) as [t|] eqn:Ht.
  - rewrite (handle_unsubscribe_task_run _ _ _ _ Ht).
    by apply consistent_unsubscribed.
  - by rewrite handle_unsubscribe_task_none.
Qed.

Lemma consistent_handle_message k message_data :
  keeps consistent_world (handle_message k message_data).
Proof.
  intros w Hw. unfold handle_message, bind at 1, connections_get, gets.
  destruct (connections (manager w) !! k) as [c|] eqn:Hk; [|done].
  destruct (WebSocketMessage_new message_data) as [message|]; [|done].
  assert (c_connection_id c = k) as Hid by by eapply cons_key.
  unfold bind at 1.
  pose proof (consistent_update_heartbeat c w Hw) as Hw1.
  assert (is_Some (connections (manager (update_heartbeat c w).2)
                     !! c_connection_id c)) as Hc1.
  { unfold update_heartbeat, bind, utcnow, gets.
    apply is_Some_after_mutate. rewrite Hid. by eexists. }
  destruct (update_heartbeat c w) as [[[]|e] w1] eqn:Hhb; simpl in *; [|done].
  unfold try_except.
  match goal with
  | |- context [match ?m w1 with _ => _ end] =>
      assert (consistent_world (m w1).2) as Hd; [|by destruct (m w1) as [[]]]
  end.
  repeat case_match.
  - by apply consistent_handle_subscribe_task.
  - by apply consistent_handle_unsubscribe_task.
  - unfold _handle_heartbeat. apply keeps_bind; [|by intros _ w2|done].
    apply consistent_update_heartbeat.
  - done.
  - done.
Qed.

End handle_message_consistent.

(** ** Sequences of operations

    What can happen to a manager: a call of one of its methods, one turn
    of one of its two background loops, or a move of the environment (the
    health of the transports changes, time passes). *)

Inductive op :=
| Connect (websocket : WebSocket) (connection_id : string)
    (user_id session_id : option string)
| Disconnect (connection_id : string)
| HandleMessage (connection_id : string) (message_data : pydict)
| BroadcastEvent (event : WebSocketEvent)
| SendToUser (user_id : string) (event : WebSocketEvent)
| SendToTaskSubscribers (task_id : UUID) (event : WebSocketEvent)
| HeartbeatTurn
| CleanupTurn
| Stop
| SetNet (n : Net)
| Advance (seconds : nat).

Definition set_net (n : Net) (w : World) : World :=
  {| manager := manager w; now := now w; entropy := entropy w; net := n;
     trace := trace w |}.

(** The world in which a manager is created. *)
Definition boot (n : Net) (t : datetime) (e : N) : World :=
  {| manager := new_manager; now := t; entropy := e; net := n; trace := [] |}.

Section runs.
Context `{PyLib}.

Definition exec (o : op) : M unit :=
  match o with
  | Connect websocket connection_id user_id session_id =>
      connect websocket connection_id user_id session_id >> ret tt
  | Disconnect connection_id => disconnect connection_id
  | HandleMessage connection_id message_data =>
      handle_message connection_id message_data >> ret tt
  | BroadcastEvent event => broadcast_event event
  | SendToUser user_id event => send_to_user user_id event
  | SendToTaskSubscribers task_id event =>
      send_to_task_subscribers task_id event
  | HeartbeatTurn => _heartbeat_loop_iteration
  | CleanupTurn => _cleanup_loop_iteration
  | Stop => stop
  | SetNet n => modify (set_net n)
  | Advance seconds => sleep seconds
  end.

(** The world after an operation has completed, whether it returned or
    raised. *)
Definition step (w : World) (o : op) : World := (exec o w).2.

Definition run (w : World) (ops : list op) : World := foldl step w ops.

(** Every [connect] of the sequence is given an id that the registry does
    not hold at that time. *)
Fixpoint fresh_ids (w : World) (ops : list op) : Prop :=
  match ops with
  | [] => True
  | o :: ops' =>
      match o with
      | Connect _ connection_id _ _ =>
          connections (manager w) !! connection_id = None
      | _ => True
      end ∧ fresh_ids (step w o) ops'
  end.

Lemma consistent_connect websocket k user_id session_id w :
  consistent_world w → connections (manager w) !! k = None →
  consistent_world (connect websocket k user_id session_id w).2.
Proof.
  intros Hw Hk. rewrite connect_run. case_match; simpl; [|done].
  by apply consistent_connected.
Qed.

Lemma consistent_step w o :
  consistent_world w → fresh_ids w [o] → consistent_world (step w o).
Proof.
  intros Hw [Ho _]. unfold step. destruct o; simpl exec.
  - rewrite bind_ret_snd. by apply consistent_connect.
  - by apply consistent_disconnect.
  - rewrite bind_ret_snd. by apply consistent_handle_message.
  - apply keeps_broadcast_event;
      auto using consistent_disconnect, consistent_send_event.
  - apply keeps_send_to_user;
      auto using consistent_disconnect, consistent_send_event.
  - apply keeps_send_to_task_subscribers;
      auto using consistent_disconnect, consistent_send_event.
  - apply keeps_heartbeat_loop_iteration;
      auto using consistent_disconnect, consistent_send_event.
  - apply keeps_cleanup_loop_iteration;
      auto using consistent_disconnect, consistent_send_event.
  - apply keeps_stop; auto using consistent_disconnect.
  - done.
  - done.
Qed.


(** The invariant holds in every state that a sequence of operations
    reaches from a consistent one. *)
Lemma consistent_run w ops :
  consistent_world w → fresh_ids w ops → consistent_world (run w ops).
Proof.
  revert w. induction ops as [|o ops IH]; intros w Hw Hf; simpl; [done|].
  destruct Hf as [Ho Hf]. apply IH; [|done]. by apply consistent_step.
Qed.

Lemma consistent_boot n t e : consistent_world (boot n t e).
Proof. apply consistent_new. Qed.

End runs.

(** ** The send loop in closed form *)

(** Every registered object sits under its own id. *)
Definition keyed (w : World) : Prop :=
  ∀ k c, connections (manager w) !! k = Some c → c_connection_id c = k.

(** The connection a send to [k] is attempted on: [k] is registered and its
    connection is active. *)
Definition attempted (w : World) (k : string) : option WebSocketConnection :=
  match connections (manager w) !! k with
  | Some c => if c_is_active c then Some c else None
  | None => None
  end.

Definition send_ok (w : World) (c : WebSocketConnection) : bool :=
  bool_decide (c_websocket c ∉ send_failing (net w)).

Definition send_effect (w : World) (event : WebSocketEvent)
    (c : WebSocketConnection) : effect :=
  {| eff_conn := c_connection_id c; eff_ws := c_websocket c;
     eff_call := SendText event; eff_ok := send_ok w c |}.

(** The transport calls of a send loop over [l], and the ids it fails on. *)
Definition sends (w : World) (event : WebSocketEvent) (l : list string)
  : list effect :=
  omap (λ k, send_effect w event <$> attempted w k) l.

Definition failure (w : World) (k : string) : bool :=
  match attempted w k with
  | Some c => negb (send_ok w c)
  | None => false
  end.

Definition failures (w : World) (l : list string) : list string :=
  filter (λ k, failure w k) l.

Definition deactivate (k : string) (w : World) : World :=
  with_manager (λ m,
    set_connections (alter (set_is_active false) k (connections m)) m) w.

Definition after_sends (event : WebSocketEvent) (l : list string) (w : World)
  : World :=
  {| manager :=
       set_connections
         (foldl (λ cs k, alter (set_is_active false) k cs)
                (connections (manager w)) (failures w l))
         (manager w);
     now := now w; entropy := entropy w; net := net w;
     trace := trace w ++ sends w event l |}.

Lemma send_event_run c event w :
  send_event c event w
  = if send_ok w c then (Ok true, log (send_effect w event c) w)
    else (Ok false, deactivate (c_connection_id c)
                      (log (send_effect w event c) w)).
Proof.
  unfold send_event, try_except, bind, transport, failing, send_effect,
    send_ok, mutate, modify, ret, deactivate.
  by destruct (bool_decide _).
Qed.

Lemma attempted_log e w k : attempted (log e w) k = attempted w k.
Proof. done. Qed.

Lemma attempted_deactivate_ne k w k' :
  k ≠ k' → attempted (deactivate k w) k' = attempted w k'.
Proof. intros Hne. unfold attempted. simpl. by rewrite lookup_alter_ne. Qed.

Lemma attempted_deactivate_log k e w k' :
  k ≠ k' → attempted (deactivate k (log e w)) k' = attempted w k'.
Proof. intros Hne. by rewrite attempted_deactivate_ne. Qed.

Lemma failures_ext w w' l :
  (∀ k, k ∈ l → attempted w' k = attempted w k) → net w' = net w →
  failures w' l = failures w l.
Proof.
  intros Ha Hn. unfold failures. induction l as [|k l IH]; [done|].
  assert (failure w' k = failure w k) as Hk.
  { unfold failure, send_ok. rewrite Ha, Hn by set_solver. done. }
  rewrite !filter_cons, Hk, IH; [done|]. intros ??. apply Ha. set_solver.
Qed.

Lemma sends_ext w w' event l :
  (∀ k, k ∈ l → attempted w' k = attempted w k) → net w' = net w →
  sends w' event l = sends w event l.
Proof.
  intros Ha Hn. unfold sends.
  apply list_omap_ext, Forall_Forall2_diag, Forall_forall. intros k Hk.
  rewrite Ha by done. unfold send_effect, send_ok. by rewrite Hn.
Qed.

Lemma keyed_deactivate k w : keyed w → keyed (deactivate k w).
Proof.
  intros Hw k' c'. simpl. rewrite lookup_alter. case_decide; [subst|apply Hw].
  destruct (connections (manager w) !! k') as [c0|] eqn:Hc0; simpl; [|done].
  intros [= <-]. simpl. by apply Hw.
Qed.

Lemma after_sends_nil event w : after_sends event [] w = w.
Proof.
  unfold after_sends, sends, failures. simpl. rewrite app_nil_r.
  by destruct w as [[]].
Qed.

Lemma failures_cons w k l :
  failures w (k :: l)
  = if failure w k then k :: failures w l else failures w l.
Proof. unfold failures. rewrite filter_cons. by destruct (failure w k). Qed.

Lemma sends_cons w event k l :
  sends w event (k :: l)
  = match attempted w k with
    | Some c => send_effect w event c :: sends w event l
    | None => sends w event l
    end.
Proof. unfold sends. simpl. by destruct (attempted w k). Qed.

Lemma after_sends_skip event k l w :
  attempted w k = None → after_sends event (k :: l) w = after_sends event l w.
Proof.
  intros Hk. unfold after_sends. rewrite failures_cons, sends_cons.
  unfold failure. by rewrite Hk.
Qed.

Lemma after_sends_ok event k l w c :
  attempted w k = Some c → send_ok w c = true →
  after_sends event (k :: l) w
  = after_sends event l (log (send_effect w event c) w).
Proof.
  intros Hk Hok. unfold after_sends.
  rewrite (failures_ext w (log _ w)), (sends_ext w (log _ w)) by done.
  rewrite failures_cons, sends_cons. unfold failure. rewrite Hk, Hok. simpl.
  by rewrite <- (assoc_L (++)).
Qed.

Lemma after_sends_failed event k l w c :
  attempted w k = Some c → send_ok w c = false → k ∉ l →
  after_sends event (k :: l) w
  = after_sends event l (deactivate k (log (send_effect w event c) w)).
Proof.
  intros Hk Hok Hl. unfold after_sends.
  rewrite (failures_ext w (deactivate k (log _ w))),
          (sends_ext w (deactivate k (log _ w))); try done;
    try (intros k' Hk'; apply attempted_deactivate_log; set_solver).
  rewrite failures_cons, sends_cons. unfold failure. rewrite Hk, Hok. simpl.
  by rewrite <- (assoc_L (++)).
Qed.

Lemma send_loop_run event l failed w :
  keyed w → NoDup l →
  send_loop event l failed w
  = (Ok (failed ++ failures w l)%list, after_sends event l w).
Proof.
  revert w failed. induction l as [|k l IH]; intros w failed Hw Hl.
  - simpl. unfold ret, failures. simpl. by rewrite app_nil_r, after_sends_nil.
  - apply NoDup_cons in Hl as [Hk Hl]. cbn [send_loop].
    unfold bind at 1, connections_get, gets. rewrite failures_cons.
    destruct (connections (manager w) !! k) as [c|] eqn:Hc; cycle 1.
    { unfold bind, ret. rewrite IH by done.
      assert (attempted w k = None) as Hat by (unfold attempted; by rewrite Hc).
      rewrite after_sends_skip by done. unfold failure. by rewrite Hat. }
    destruct (c_is_active c) eqn:Hact; cycle 1.
    { unfold bind, ret. rewrite IH by done.
      assert (attempted w k = None) as Hat
        by (unfold attempted; by rewrite Hc, Hact).
      rewrite after_sends_skip by done. unfold failure. by rewrite Hat. }
    assert (c_connection_id c = k) as Hid by by apply Hw.
    assert (attempted w k = Some c) as Hat.
    { unfold attempted. by rewrite Hc, Hact. }
    unfold bind at 1. unfold bind at 1. rewrite send_event_run, Hid.
    unfold failure. rewrite Hat.
    destruct (send_ok w c) eqn:Hok; unfold ret; simpl.
    + rewrite IH by done.
      rewrite (failures_ext w (log _ w)) by done.
      by rewrite (after_sends_ok _ _ _ _ c).
    + rewrite IH by (try apply keyed_deactivate; done).
      rewrite (failures_ext w (deactivate k (log _ w))); try done;
        try (intros k' Hk'; apply attempted_deactivate_log; set_solver).
      rewrite (after_sends_failed _ _ _ _ c) by done.
      by rewrite <- (assoc_L (++)).
Qed.

Lemma foldl_alter_lookup (f : WebSocketConnection → WebSocketConnection)
    (l : list string) (cs : gmap string WebSocketConnection) k :
  (∀ c, f (f c) = f c) →
  foldl (λ cs k, alter f k cs) cs l !! k
  = if decide (k ∈ l) then f <$> cs !! k else cs !! k.
Proof.
  intros Hf. revert cs. induction l as [|k0 l IH]; intros cs; simpl.
  - done.
  - rewrite IH, lookup_alter.
    destruct (decide (k0 = k)) as [->|Hne].
    + rewrite (decide_True (P := k ∈ k :: l)) by set_solver.
      destruct (cs !! k) as [c|]; simpl; [|by case_decide].
      rewrite Hf. by case_decide.
    + destruct (decide (k ∈ l)).
      * by rewrite decide_True by set_solver.
      * by rewrite decide_False by set_solver.
Qed.

Lemma after_sends_lookup event l w k :
  connections (manager (after_sends event l w)) !! k
  = if decide (k ∈ failures w l)
    then set_is_active false <$> connections (manager w) !! k
    else connections (manager w) !! k.
Proof. simpl. by apply foldl_alter_lookup. Qed.

(** Disconnecting connections that a failed send has marked inactive closes
    no transport. *)
Lemma disconnect_inactive_loop l w :
  (∀ k c, k ∈ l → connections (manager w) !! k = Some c →
          c_is_active c = false) →
  ∃ w', for_each l disconnect w = (Ok tt, w')
        ∧ trace w' = trace w ∧ net w' = net w
        ∧ ∀ k, connections (manager w') !! k
               = if decide (k ∈ l) then None else connections (manager w) !! k.
Proof.
  revert w. induction l as [|k0 l IH]; intros w Hl.
  - exists w. by repeat split.
  - cbn [for_each].
    destruct (connections (manager w) !! k0) as [c|] eqn:Hc.
    + erewrite bind_ok by by apply disconnect_known.
      assert (c_is_active c = false) as Hact
        by (apply (Hl k0); [set_solver|done]).
      destruct (IH (disconnected k0 c w)) as (w' & Hrun & Htr & Hnet & Hcs).
      { intros k c'. simpl. rewrite lookup_delete_Some. intros ? [_ ?].
        apply (Hl k); [set_solver|done]. }
      exists w'. split; [done|]. simpl in *. rewrite Hact in Htr.
      rewrite app_nil_r in Htr. repeat split; try done.
      intros k. rewrite Hcs. destruct (decide (k ∈ l)).
      * by rewrite decide_True by set_solver.
      * destruct (decide (k0 = k)) as [->|Hne].
        -- rewrite lookup_delete_eq. by rewrite decide_True by set_solver.
        -- rewrite lookup_delete_ne by done.
           by rewrite decide_False by set_solver.
    + erewrite bind_ok by by apply disconnect_unknown.
      destruct (IH w) as (w' & Hrun & Htr & Hnet & Hcs).
      { intros k c' ?. apply Hl. set_solver. }
      exists w'. repeat split; try done.
      intros k. rewrite Hcs. destruct (decide (k ∈ l)).
      * by rewrite decide_True by set_solver.
      * destruct (decide (k0 = k)) as [->|Hne].
        -- by rewrite decide_True by set_solver.
        -- by rewrite decide_False by set_solver.
Qed.

(** What a send loop followed by the clean-up of its failures leaves: the
    transport calls are the sends of the loop, and the registry has lost
    the ids whose send failed, and only those. *)
Record fanned_out (event : WebSocketEvent) (l : list string) (w w' : World)
  : Prop := {
  fan_trace : trace w' = (trace w ++ sends w event l)%list;
  fan_net : net w' = net w;
  fan_connections : ∀ k,
    connections (manager w') !! k
    = if decide (k ∈ failures w l) then None else connections (manager w) !! k;
}.

Lemma elem_of_failures w l k :
  k ∈ failures w l
  ↔ k ∈ l ∧ ∃ c, attempted w k = Some c ∧ send_ok w c = false.
Proof.
  unfold failures. rewrite list_elem_of_filter. unfold failure.
  destruct (attempted w k) as [c|]; simpl.
  - destruct (send_ok w c) eqn:Hok; simpl.
    + split; [by intros [[] _]|]. intros (_ & c0 & [= <-] & ?). congruence.
    + split; [|by intros [? _]]. intros [_ ?]. split; [done|]. by exists c.
  - split; [by intros [[] _]|]. by intros (_ & c0 & ? & _).
Qed.

Lemma elem_of_sends w event l e :
  e ∈ sends w event l
  ↔ ∃ k c, k ∈ l ∧ attempted w k = Some c ∧ e = send_effect w event c.
Proof.
  unfold sends. rewrite list_elem_of_omap. split.
  - intros (k & Hk & He). destruct (attempted w k) as [c|] eqn:Hc; [|done].
    injection He as <-. by exists k, c.
  - intros (k & c & Hk & Hc & ->). exists k. by rewrite Hc.
Qed.

Lemma attempted_Some w k c :
  attempted w k = Some c
  ↔ connections (manager w) !! k = Some c ∧ c_is_active c = true.
Proof.
  unfold attempted. destruct (connections (manager w) !! k) as [c'|].
  - destruct (c_is_active c') eqn:Hact.
    + split; [by intros [= <-]|]. by intros [[= <-] _].
    + split; [done|]. intros [[= <-] ?]. congruence.
  - split; [done|]. by intros [? _].
Qed.

Lemma fan_out_run event l w :
  keyed w → NoDup l →
  ∃ w', (let! failed_connections := send_loop event l [] in
         for_each failed_connections disconnect) w = (Ok tt, w')
        ∧ fanned_out event l w w'.
Proof.
  intros Hw Hl. erewrite bind_ok by by apply send_loop_run.
  simpl.
  destruct (disconnect_inactive_loop (failures w l) (after_sends event l w))
    as (w' & Hrun & Htr & Hnet & Hcs).
  { intros k c Hk. rewrite after_sends_lookup, decide_True by done.
    destruct (connections (manager w) !! k) as [c0|]; simpl; [|done].
    by intros [= <-]. }
  exists w'. split; [done|]. split; [done..|].
  intros k. rewrite Hcs. case_decide; [done|].
  by rewrite after_sends_lookup, decide_False.
Qed.

Lemma sends_nil_of_empty w event l :
  connections (manager w) = ∅ → sends w event l = [] ∧ failures w l = [].
Proof.
  intros He. unfold sends, failures.
  assert (∀ k, attempted w k = None) as Hat.
  { intros k. unfold attempted. by rewrite He, lookup_empty. }
  induction l as [|k l [IH1 IH2]]; [done|]. split.
  - simpl. by rewrite Hat.
  - fold (failures w (k :: l)). rewrite failures_cons. unfold failure.
    by rewrite (Hat k).
Qed.

Lemma fanned_out_refl event l w :
  sends w event l = [] → failures w l = [] → fanned_out event l w w.
Proof.
  intros Hs Hf. split; rewrite ?Hs, ?Hf, ?app_nil_r; done.
Qed.

Lemma broadcast_event_run event w :
  keyed w →
  ∃ w', broadcast_event event w = (Ok tt, w')
        ∧ fanned_out event (elements (target_connections (manager w) event))
            w w'.
Proof.
  intros Hw. unfold broadcast_event, bind at 1, gets.
  destruct (decide (connections (manager w) = ∅)) as [He|_].
  - exists w. split; [done|].
    by apply fanned_out_refl; apply sends_nil_of_empty.
  - apply fan_out_run; [done|]. apply NoDup_elements.
Qed.

Lemma send_to_user_run u event w :
  keyed w →
  ∃ w', send_to_user u event w = (Ok tt, w')
        ∧ fanned_out event
            (elements (default ∅ (user_connections (manager w) !! u))) w w'.
Proof.
  intros Hw. unfold send_to_user, bind at 1, gets.
  destruct (user_connections (manager w) !! u) as [s|]; simpl.
  - apply fan_out_run; [done|]. apply NoDup_elements.
  - exists w. split; [done|]. rewrite elements_empty.
    by apply fanned_out_refl.
Qed.

Lemma send_to_task_subscribers_run t event w :
  keyed w →
  ∃ w', send_to_task_subscribers t event w = (Ok tt, w')
        ∧ fanned_out event
            (elements (default ∅ (task_subscribers (manager w) !! t))) w w'.
Proof.
  intros Hw. unfold send_to_task_subscribers, bind at 1, gets.
  destruct (task_subscribers (manager w) !! t) as [s|]; simpl.
  - apply fan_out_run; [done|]. apply NoDup_elements.
  - exists w. split; [done|]. rewrite elements_empty.
    by apply fanned_out_refl.
Qed.

(** ** Closing the transports

    [closes h tr] counts the calls of [close] on the handle [h] in the
    trace [tr]. *)

Definition is_close (e : effect) : bool :=
  match eff_call e with Close => true | _ => false end.

Definition closes (h : WebSocket) (tr : list effect) : nat :=
  length (filter (λ e, eff_ws e = h ∧ is_close e) tr).

Lemma closes_app h tr tr' : closes h (tr ++ tr') = closes h tr + closes h tr'.
Proof. unfold closes. by rewrite filter_app, length_app. Qed.

Lemma closes_other h e : is_close e = false → closes h [e] = 0.
Proof.
  intros He. unfold closes. rewrite filter_cons_False; [done|].
  rewrite He. by intros [_ ?].
Qed.

Lemma closes_close_effect h w c :
  closes h [close_effect w c] = if decide (c_websocket c = h) then 1 else 0.
Proof.
  unfold closes. case_decide.
  - by rewrite filter_cons_True.
  - rewrite filter_cons_False; [done|]. by intros [? _].
Qed.

(** A registered connection owns its handle: no other registered connection
    has it, the handle has been seen by the trace (its handshake), no handle
    has been closed twice and the handle of a registered connection has not
    been closed at all. *)
Record transports_owned (w : World) : Prop := {
  own_inj : ∀ k k' c c',
    connections (manager w) !! k = Some c →
    connections (manager w) !! k' = Some c' →
    c_websocket c = c_websocket c' → k = k';
  own_seen : ∀ k c,
    connections (manager w) !! k = Some c →
    c_websocket c ∈ eff_ws <$> trace w;
  own_once : ∀ h, (closes h (trace w) ≤ 1)%nat;
  own_open : ∀ k c,
    connections (manager w) !! k = Some c →
    closes (c_websocket c) (trace w) = 0;
}.

Lemma owned_boot n t e : transports_owned (boot n t e).
Proof.
  split; simpl.
  - intros k k' c c'. by rewrite lookup_empty.
  - intros k c. by rewrite lookup_empty.
  - intros h. unfold closes. simpl. lia.
  - intros k c. by rewrite lookup_empty.
Qed.

Lemma owned_log e w :
  is_close e = false → transports_owned w → transports_owned (log e w).
Proof.
  intros He [Hinj Hseen Honce Hopen]. split; simpl.
  - done.
  - intros k c Hk. rewrite fmap_app. apply elem_of_app. left. by eapply Hseen.
  - intros h. rewrite closes_app, closes_other by done. specialize (Honce h). lia.
  - intros k c Hk. rewrite closes_app, closes_other by done.
    rewrite (Hopen k c Hk). done.
Qed.

(** An assignment to an attribute other than the handle. *)
Lemma owned_alter (f : WebSocketConnection → WebSocketConnection) k w :
  (∀ c, c_websocket (f c) = c_websocket c) →
  transports_owned w →
  transports_owned
    (with_manager (λ m, set_connections (alter f k (connections m)) m) w).
Proof.
  intros Hf [Hinj Hseen Honce Hopen].
  assert (∀ k' c', alter f k (connections (manager w)) !! k' = Some c' →
            ∃ c0, connections (manager w) !! k' = Some c0
                  ∧ c_websocket c' = c_websocket c0) as Hback.
  { intros k' c'. rewrite lookup_alter. case_decide; [subst|by eauto].
    destruct (connections (manager w) !! k') as [c0|]; simpl; [|done].
    intros [= <-]. eauto. }
  split; simpl.
  - intros k1 k2 c1 c2 H1 H2.
    apply Hback in H1 as (c1' & H1 & ->). apply Hback in H2 as (c2' & H2 & ->).
    by eapply Hinj.
  - intros k' c' H'. apply Hback in H' as (c0 & H0 & ->). by eapply Hseen.
  - done.
  - intros k' c' H'. apply Hback in H' as (c0 & H0 & ->). by eapply Hopen.
Qed.

Lemma owned_mutate c f :
  (∀ c, c_websocket (f c) = c_websocket c) →
  keeps transports_owned (mutate c f).
Proof. intros Hf w Hw. by apply owned_alter. Qed.

Lemma owned_update_task_subscribers f :
  keeps transports_owned (update_task_subscribers f).
Proof.
  intros w Hw. unfold update_task_subscribers, bind, gets, lift, modify.
  destruct (f _); simpl; [|done]. by destruct Hw.
Qed.

Lemma owned_send_event c event : keeps transports_owned (send_event c event).
Proof.
  intros w Hw. rewrite send_event_run.
  destruct (send_ok w c); simpl.
  - by apply owned_log.
  - apply owned_alter; [done|]. by apply owned_log.
Qed.

Lemma owned_disconnected k c w :
  transports_owned w → connections (manager w) !! k = Some c →
  transports_owned (disconnected k c w).
Proof.
  intros [Hinj Hseen Honce Hopen] Hk. split; simpl.
  - intros k1 k2 c1 c2. rewrite !lookup_delete_Some.
    intros [_ H1] [_ H2]. by eapply Hinj.
  - intros k' c'. rewrite lookup_delete_Some. intros [_ H'].
    rewrite fmap_app. apply elem_of_app. left. by eapply Hseen.
  - intros h. rewrite closes_app. destruct (c_is_active c).
    + rewrite closes_close_effect. case_decide.
      * subst h. rewrite (Hopen k c Hk). lia.
      * specialize (Honce h). lia.
    + specialize (Honce h). unfold closes at 2. simpl. lia.
  - intros k' c'. rewrite lookup_delete_Some. intros [Hne H'].
    rewrite closes_app, (Hopen k' c' H'). destruct (c_is_active c); [|done].
    rewrite closes_close_effect. case_decide as Heq; [|done].
    destruct Hne. by eapply Hinj.
Qed.

Lemma owned_disconnect k : keeps transports_owned (disconnect k).
Proof.
  intros w Hw. destruct (connections (manager w) !! k) as [c|] eqn:Hk.
  - rewrite (disconnect_known _ _ _ Hk). by apply owned_disconnected.
  - by rewrite (disconnect_unknown _ _ Hk).
Qed.

Lemma owned_retime t e w : transports_owned w → transports_owned (retime t e w).
Proof. by intros []. Qed.

Section owned_runs.
Context `{PyLib}.

Lemma owned_update_heartbeat c : keeps transports_owned (update_heartbeat c).
Proof.
  apply keeps_bind; [apply keeps_gets|]. intros t. by apply owned_mutate.
Qed.

Lemma owned_handle_message k message_data :
  keeps transports_owned (handle_message k message_data).
Proof.
  apply keeps_bind; [apply keeps_gets|]. intros [c|]; [|apply keeps_lift].
  destruct (WebSocketMessage_new message_data) as [message|];
    [|apply keeps_lift].
  apply keeps_bind; [apply owned_update_heartbeat|]. intros _.
  apply keeps_try_except; [|intros e; apply keeps_lift].
  repeat case_match.
  - unfold _handle_subscribe_task.
    destruct (negb _); [apply keeps_lift|].
    destruct (UUID_new _) as [t|[]];
      try apply keeps_lift; try apply keeps_raise.
    apply keeps_bind; [by apply owned_mutate|]. intros _.
    apply keeps_bind; [apply owned_update_task_subscribers|]. intros _.
    apply keeps_lift.
  - unfold _handle_unsubscribe_task.
    destruct (negb _); [apply keeps_lift|].
    destruct (UUID_new _) as [t|[]];
      try apply keeps_lift; try apply keeps_raise.
    apply keeps_bind; [by apply owned_mutate|]. intros _.
    apply keeps_bind; [|intros _; apply keeps_lift].
    apply keeps_bind; [apply keeps_gets|]. intros ts.
    destruct (contains ts t);
      [apply owned_update_task_subscribers | apply keeps_ret].
  - apply keeps_bind; [apply owned_update_heartbeat|]. intros _.
    apply keeps_bind; [apply keeps_gets|]. intros ?. apply keeps_lift.
  - apply keeps_bind; [apply keeps_gets|]. intros ?. apply keeps_lift.
  - apply keeps_lift.
Qed.

Lemma owned_connected websocket k user_id session_id w :
  transports_owned w →
  websocket ∉ eff_ws <$> trace w →
  connections (manager w) !! k = None →
  transports_owned (connected websocket k user_id session_id w).
Proof.
  intros [Hinj Hseen Honce Hopen] Hws Hk.
  assert (∀ h, closes h (trace (connected websocket k user_id session_id w))
               = closes h (trace w)) as Hcl.
  { intros h. simpl. rewrite closes_app. unfold closes at 2. simpl.
    rewrite !filter_cons_False by (by intros [_ ?]). simpl. lia. }
  assert (closes websocket (trace w) = 0) as Hnew.
  { unfold closes. apply length_zero_iff_nil.
    destruct (filter _ (trace w)) as [|e tr] eqn:Hf; [done|].
    assert (e ∈ filter (λ e, eff_ws e = websocket ∧ is_close e) (trace w))
      as He by (rewrite Hf; set_solver).
    apply list_elem_of_filter in He as [[<- _] He].
    destruct Hws. by apply list_elem_of_fmap_2. }
  split.
  - intros k1 k2 c1 c2. simpl. rewrite !lookup_insert.
    destruct (decide (k = k1)) as [<-|?], (decide (k = k2)) as [<-|?];
      try done.
    + intros [= <-] H2 Heq. simpl in Heq. destruct Hws. rewrite Heq.
      by eapply Hseen.
    + intros H1 [= <-] Heq. simpl in Heq. destruct Hws. rewrite <- Heq.
      by eapply Hseen.
    + apply Hinj.
  - intros k' c'. simpl. rewrite lookup_insert, fmap_app.
    destruct (decide (k = k')) as [<-|?].
    + intros [= <-]. simpl. apply elem_of_app. right. set_solver.
    + intros H'. apply elem_of_app. left. by eapply Hseen.
  - intros h. rewrite Hcl. apply Honce.
  - intros k' c'. rewrite Hcl. simpl. rewrite lookup_insert.
    destruct (decide (k = k')) as [<-|?]; [|by apply Hopen]. by intros [= <-].
Qed.

Lemma owned_connect websocket k user_id session_id w :
  transports_owned w →
  websocket ∉ eff_ws <$> trace w →
  connections (manager w) !! k = None →
  transports_owned (connect websocket k user_id session_id w).2.
Proof.
  intros Hw Hws Hk. rewrite connect_run. case_match; simpl.
  - by apply owned_connected.
  - by apply owned_log.
Qed.

(** Every [connect] of the sequence is given an unregistered id and a
    transport handle that no earlier call has used. *)
Fixpoint fresh_connects (w : World) (ops : list op) : Prop :=
  match ops with
  | [] => True
  | o :: ops' =>
      match o with
      | Connect websocket connection_id _ _ =>
          connections (manager w) !! connection_id = None
          ∧ websocket ∉ eff_ws <$> trace w
      | _ => True
      end ∧ fresh_connects (step w o) ops'
  end.

Lemma fresh_connects_ids w ops : fresh_connects w ops → fresh_ids w ops.
Proof.
  revert w. induction ops as [|o ops IH]; intros w; simpl; [done|].
  intros [Ho Hf]. split; [|by apply IH]. destruct o; try done. by destruct Ho.
Qed.

Lemma owned_step w o :
  transports_owned w → fresh_connects w [o] → transports_owned (step w o).
Proof.
  intros Hw [Ho _]. unfold step. destruct o; simpl exec.
  - rewrite bind_ret_snd. destruct Ho. by apply owned_connect.
  - by apply owned_disconnect.
  - rewrite bind_ret_snd. by apply owned_handle_message.
  - apply keeps_broadcast_event;
      auto using owned_disconnect, owned_send_event.
  - apply keeps_send_to_user;
      auto using owned_disconnect, owned_send_event.
  - apply keeps_send_to_task_subscribers;
      auto using owned_disconnect, owned_send_event.
  - apply keeps_heartbeat_loop_iteration;
      auto using owned_disconnect, owned_send_event, owned_retime.
  - apply keeps_cleanup_loop_iteration;
      auto using owned_disconnect, owned_retime.
  - apply keeps_stop; auto using owned_disconnect.
  - by destruct Hw.
  - by destruct Hw.
Qed.

Lemma owned_run w ops :
  transports_owned w → fresh_connects w ops → transports_owned (run w ops).
Proof.
  revert w. induction ops as [|o ops IH]; intros w Hw Hf; simpl; [done|].
  destruct Hf as [Ho Hf]. apply IH; [|done]. by apply owned_step.
Qed.

End owned_runs.

(** ** A library instance and a network to run the model on *)

(** A stand-in for the Python library: it knows two task ids. *)
Definition test_lib : PyLib :=
  {| UUID_parse s :=
       if String.eqb s "T1" then Some 1%N
       else if String.eqb s "T2" then Some 2%N else None;
     UUID_str u := if (u =? 1)%N then "T1" else "T2";
     isoformat t := "2024-01-01T00:00:00";
     exn_str e := "error" |}.

(** The network in which no transport call fails, and the one in which
    the given handles fail to send. *)
Definition healthy : Net :=
  {| accept_failing := ∅; send_failing := ∅; close_failing := ∅ |}.

Definition send_fails_on (hs : gset WebSocket) : Net :=
  {| accept_failing := ∅; send_failing := hs; close_failing := ∅ |}.

Definition subscribe_message (task : string) (request_id : string) : pydict :=
  [("type", PStr "subscribe_task"); ("data", PDict [("task_id", PStr task)]);
   ("request_id", PStr request_id)].

Definition unsubscribe_message (task : string) (request_id : string) : pydict :=
  [("type", PStr "unsubscribe_task"); ("data", PDict [("task_id", PStr task)]);
   ("request_id", PStr request_id)].

(** The transport calls that an operation adds to the trace of [w]. *)
Definition calls_since (w w' : World) : list effect :=
  drop (length (trace w)) (trace w').

Lemma calls_since_app w w' l :
  trace w' = (trace w ++ l)%list → calls_since w w' = l.
Proof. intros Hl. unfold calls_since. by rewrite Hl, drop_app_length. Qed.

(** ** Heartbeat events (claims C9 and C2) *)

(** An event is system-scoped when it names no task and no user. *)
Definition system_scoped (event : WebSocketEvent) : Prop :=
  e_task_id event = None ∧ e_user_id event = None.

Section heartbeat.
Context `{PyLib}.

(** C9, as amended: every event the heartbeat factory produces has kind
    HEARTBEAT, carries only a timestamp in its payload (the current time)
    and names no task; its user and its session are the arguments of the
    factory, so the event has no user exactly when the factory is given
    none. *)
Theorem create_heartbeat_event_fields user_id session_id w :
  ∃ event w',
    create_heartbeat_event user_id session_id w = (Ok event, w')
    ∧ e_type event = HEARTBEAT
    ∧ e_data event = [("timestamp", PStr (isoformat (now w)))]
    ∧ e_task_id event = None
    ∧ e_user_id event = user_id
    ∧ e_session_id event = session_id
    ∧ (system_scoped event ↔ user_id = None).
Proof.
  eexists _, _. split; [reflexivity|]. simpl. unfold system_scoped. simpl.
  naive_solver.
Qed.

(** The heartbeat event of the loop selects no target at all: it names no
    task and no user, and HEARTBEAT is not one of the two kinds that
    [broadcast_event] sends to every connection. *)
Lemma heartbeat_targets_nobody m event :
  e_type event = HEARTBEAT → e_task_id event = None → e_user_id event = None →
  target_connections m event = ∅.
Proof.
  intros Hty Ht Hu. unfold target_connections. by rewrite Hty, Ht, Hu.
Qed.

(** So one turn of the heartbeat loop makes no transport call and leaves
    the manager as it was, whatever connections exist: only the time and
    the entropy move. *)
Lemma heartbeat_turn_run w :
  _heartbeat_loop_iteration w
  = (Ok tt,
     retime (now w + 30)
       (if decide (connections (manager w) = ∅) then entropy w
        else N.succ (entropy w)) w).
Proof.
  unfold _heartbeat_loop_iteration, try_except, sleep, modify,
    create_heartbeat_event, utcnow, new_event, uuid4, broadcast_event, bind,
    gets, ret.
  simpl. destruct (decide (connections (manager w) = ∅)) as [He|Hne]; [done|].
  simpl. destruct (decide (connections (manager w) = ∅)); [done|].
  rewrite heartbeat_targets_nobody by done. by rewrite elements_empty.
Qed.

Lemma heartbeat_turn_silent w :
  trace (_heartbeat_loop_iteration w).2 = trace w
  ∧ manager (_heartbeat_loop_iteration w).2 = manager w.
Proof. by rewrite heartbeat_turn_run. Qed.

(** And so does the loop, however many turns it takes. *)
Lemma heartbeat_loop_silent turns w :
  trace (_heartbeat_loop turns w).2 = trace w
  ∧ manager (_heartbeat_loop turns w).2 = manager w.
Proof.
  revert w. induction turns as [|turns IH]; intros w; [done|].
  cbn [_heartbeat_loop]. erewrite bind_ok by apply heartbeat_turn_run.
  destruct (IH (retime (now w + 30)
                  (if decide (connections (manager w) = ∅) then entropy w
                   else N.succ (entropy w)) w)) as [-> ->].
  done.
Qed.

End heartbeat.

Section heartbeat_examples.
#[local] Existing Instance test_lib.

(** C9, as stated, fails: given a user, the factory scopes the event to that
    user. *)
Lemma heartbeat_event_of_user_not_system_scoped :
  ∃ event w',
    create_heartbeat_event (Some "u1") None (boot healthy 0 0) = (Ok event, w')
    ∧ e_user_id event = Some "u1"
    ∧ ¬ system_scoped event.
Proof.
  eexists _, _. split; [reflexivity|]. split; [reflexivity|].
  by intros [_ ?].
Qed.

(** One connection, registered and active, on a healthy transport. *)
Definition listener : World :=
  run (boot healthy 0 0) [Connect 1 "a" (Some "u1") None].

(** C2: with one registered, active connection on a healthy transport, a
    turn of the heartbeat loop sends it nothing: the loop makes no
    transport call. *)
Theorem heartbeat_turn_reaches_nobody :
  attempted listener "a" = Some (new_connection 1 "a" (Some "u1") None 0)
  ∧ send_ok listener (new_connection 1 "a" (Some "u1") None 0) = true
  ∧ calls_since listener (step listener HeartbeatTurn) = [].
Proof. vm_compute. done. Qed.

End heartbeat_examples.

(** ** Handling a message (claim C6) *)

(** A valid message carries the correlation id of the raw message. *)
Lemma message_request_id message_data message :
  WebSocketMessage_new message_data = Ok message →
  dict_get message_data "request_id" = py_of_opt (m_request_id message).
Proof.
  unfold WebSocketMessage_new, dict_get. intros Hm.
  repeat case_match; simplify_eq; done.
Qed.

(** [m] answers [message]: when it returns, its response has the type and
    the correlation id of the message. *)
Definition answers (message : WebSocketMessage) (m : M WebSocketResponse)
  : Prop :=
  ∀ w, match (m w).1 with
       | Ok r => r_type r = m_type message
                 ∧ r_request_id r = m_request_id message
       | Raise _ => True
       end.

Lemma answers_success message data :
  answers message
    (success_response (m_type message) data (py_of_opt (m_request_id message))).
Proof. intros w. unfold success_response, lift. by rewrite response_new_opt. Qed.

Lemma answers_error message text :
  answers message
    (error_response (m_type message) text (py_of_opt (m_request_id message))).
Proof. intros w. unfold error_response, lift. by rewrite response_new_opt. Qed.

Lemma answers_bind {A} message (m : M A) f :
  (∀ a, answers message (f a)) → answers message (bind m f).
Proof.
  intros Hf w. unfold bind. destruct (m w) as [[a|e] w']; [apply Hf | done].
Qed.

Lemma answers_raise message e : answers message (raise e).
Proof. by intros w. Qed.

(** The time of the last heartbeat of [k] is [t], and it is [t] o'clock. *)
Definition heartbeat_at (k : string) (t : datetime) (w : World) : Prop :=
  c_last_heartbeat <$> connections (manager w) !! k = Some t ∧ now w = t.

Lemma heartbeat_at_mutate k t c f :
  (∀ c, c_last_heartbeat (f c) = c_last_heartbeat c) →
  keeps (heartbeat_at k t) (mutate c f).
Proof.
  intros Hf w [Hk Hn]. split; [|done]. simpl.
  destruct (decide (c_connection_id c = k)) as [<-|Hne].
  - rewrite lookup_alter_eq.
    destruct (connections (manager w) !! c_connection_id c) as [c0|]; [|done].
    simpl in *. by rewrite Hf.
  - by rewrite lookup_alter_ne.
Qed.

Lemma heartbeat_at_update_task_subscribers k t f :
  keeps (heartbeat_at k t) (update_task_subscribers f).
Proof.
  intros w Hw. unfold update_task_subscribers, bind, gets, lift, modify.
  by destruct (f _).
Qed.

Lemma heartbeat_at_update_heartbeat k t c :
  keeps (heartbeat_at k t) (update_heartbeat c).
Proof.
  intros w [Hk Hn]. split; [|done]. simpl.
  destruct (decide (c_connection_id c = k)) as [<-|Hne].
  - rewrite lookup_alter_eq.
    destruct (connections (manager w) !! c_connection_id c) as [c0|]; [|done].
    simpl in *. by rewrite Hn.
  - by rewrite lookup_alter_ne.
Qed.

Section handle_message_facts.
Context `{PyLib}.

Lemma answers_handle_subscribe_task c message :
  answers message (_handle_subscribe_task c message).
Proof.
  unfold _handle_subscribe_task. destruct (negb _); [apply answers_error|].
  destruct (UUID_new _) as [t|[]];
    try apply answers_error; try apply answers_raise.
  do 2 (apply answers_bind; intros _). apply answers_success.
Qed.

Lemma answers_handle_unsubscribe_task c message :
  answers message (_handle_unsubscribe_task c message).
Proof.
  unfold _handle_unsubscribe_task. destruct (negb _); [apply answers_error|].
  destruct (UUID_new _) as [t|[]];
    try apply answers_error; try apply answers_raise.
  do 2 (apply answers_bind; intros _). apply answers_success.
Qed.

(** What [handle_message] dispatches a valid message to. *)
Definition dispatch (connection : WebSocketConnection)
    (message : WebSocketMessage) : M WebSocketResponse :=
  if String.eqb (m_type message) "subscribe_task"
  then _handle_subscribe_task connection message
  else if String.eqb (m_type message) "unsubscribe_task"
  then _handle_unsubscribe_task connection message
  else if String.eqb (m_type message) "heartbeat"
  then _handle_heartbeat connection message
  else if String.eqb (m_type message) "get_status"
  then _handle_get_status connection message
  else error_response (m_type message)
         ("Unknown message type: " ++ m_type message)
         (py_of_opt (m_request_id message)).

Lemma answers_dispatch c message : answers message (dispatch c message).
Proof.
  unfold dispatch. repeat case_match.
  - apply answers_handle_subscribe_task.
  - apply answers_handle_unsubscribe_task.
  - do 2 (apply answers_bind; intros ?). apply answers_success.
  - apply answers_bind; intros ?. apply answers_success.
  - apply answers_error.
Qed.

Lemma heartbeat_at_dispatch k t c message :
  keeps (heartbeat_at k t) (dispatch c message).
Proof.
  unfold dispatch. repeat case_match.
  - unfold _handle_subscribe_task. destruct (negb _); [apply keeps_lift|].
    destruct (UUID_new _) as [t'|[]];
      try apply keeps_lift; try apply keeps_raise.
    apply keeps_bind; [by apply heartbeat_at_mutate|]. intros _.
    apply keeps_bind; [apply heartbeat_at_update_task_subscribers|]. intros _.
    apply keeps_lift.
  - unfold _handle_unsubscribe_task. destruct (negb _); [apply keeps_lift|].
    destruct (UUID_new _) as [t'|[]];
      try apply keeps_lift; try apply keeps_raise.
    apply keeps_bind; [by apply heartbeat_at_mutate|]. intros _.
    apply keeps_bind; [|intros _; apply keeps_lift].
    apply keeps_bind; [apply keeps_gets|]. intros ts.
    destruct (contains ts t');
      [apply heartbeat_at_update_task_subscribers | apply keeps_ret].
  - apply keeps_bind; [apply heartbeat_at_update_heartbeat|]. intros _.
    apply keeps_bind; [apply keeps_gets|]. intros ?. apply keeps_lift.
  - apply keeps_bind; [apply keeps_gets|]. intros ?. apply keeps_lift.
  - apply keeps_lift.
Qed.

(** An unknown connection id gets an error response and changes nothing;
    that response carries no correlation id, whatever the message. *)
Lemma handle_message_unknown k message_data w :
  connections (manager w) !! k = None →
  handle_message k message_data w
  = (Ok {| r_type := "error"; r_data := []; r_success := false;
           r_error := Some "Connection not found"; r_request_id := None |},
     w).
Proof.
  intros Hk. unfold handle_message, bind, connections_get, gets.
  by rewrite Hk.
Qed.

(** A malformed message changes nothing either; the error response is built
    with whatever the raw message has under [request_id], which only makes a
    response when that is a string or is missing. *)
Lemma handle_message_malformed k c message_data e w :
  connections (manager w) !! k = Some c →
  WebSocketMessage_new message_data = Raise e →
  handle_message k message_data w
  = (WebSocketResponse_new "error" [] false (Some "Invalid message format")
       (dict_get message_data "request_id"),
     w).
Proof.
  intros Hk Hm. unfold handle_message, bind, connections_get, gets.
  by rewrite Hk, Hm.
Qed.

(** A valid message to a registered connection is answered, with its own
    correlation id, and the heartbeat of the connection is brought to the
    current time. *)
Lemma handle_message_valid k c message_data message w :
  connections (manager w) !! k = Some c → c_connection_id c = k →
  WebSocketMessage_new message_data = Ok message →
  ∃ r w', handle_message k message_data w = (Ok r, w')
    ∧ r_type r = m_type message
    ∧ py_of_opt (r_request_id r) = dict_get message_data "request_id"
    ∧ c_last_heartbeat <$> connections (manager w') !! k = Some (now w).
Proof.
  intros Hk Hid Hm. unfold handle_message, bind at 1, connections_get, gets.
  rewrite Hk, Hm. fold (dispatch c message).
  rewrite (message_request_id _ _ Hm).
  unfold bind at 1, update_heartbeat, bind at 1, utcnow, gets.
  unfold mutate at 1, modify.
  set (w1 := with_manager _ w).
  assert (heartbeat_at k (now w) w1) as Hw1.
  { subst w1. split; [|done]. simpl. rewrite Hid, lookup_alter_eq, Hk. done. }
  pose proof (heartbeat_at_dispatch k (now w) c message w1 Hw1) as [Hhb _].
  pose proof (answers_dispatch c message w1) as Hans.
  unfold try_except. destruct (dispatch c message w1) as [[r|e] w2]; simpl in *.
  - exists r, w2. destruct Hans as [? ->]. done.
  - unfold error_response, lift. rewrite response_new_opt.
    eexists _, _. split; [done|]. done.
Qed.

End handle_message_facts.

Section handle_message_examples.
#[local] Existing Instance test_lib.

(** C6: a message with correlation id ["r1"] sent under an id that the
    registry does not hold is answered with an error response whose
    correlation id is [None]: the id of the client is not echoed. *)
Theorem handle_message_unknown_connection_drops_request_id :
  handle_message "ghost"
    [("type", PStr "heartbeat"); ("request_id", PStr "r1")]
    (boot healthy 0 0)
  = (Ok {| r_type := "error"; r_data := []; r_success := false;
           r_error := Some "Connection not found"; r_request_id := None |},
     boot healthy 0 0).
Proof. reflexivity. Qed.

(** A malformed message whose correlation id is not a string gets no
    response at all: building the error response raises. *)
Example handle_message_malformed_request_id_raises :
  handle_message "a" [("type", PStr "heartbeat"); ("request_id", PInt 7)]
    listener
  = (Raise ValidationError, listener).
Proof. vm_compute. reflexivity. Qed.

End handle_message_examples.

(** ** The index consistency invariant (claim C3) *)

(** The invariant in the words of the specification: a registered
    connection whose user is a key of [user_connections] is listed under
    that key, a registered connection is listed under every subscribed task
    that is a key of [task_subscribers], and neither index lists an id that
    the registry does not hold. *)
Definition index_consistency (m : WebSocketManager) : Prop :=
  (∀ k c u s, connections m !! k = Some c → c_user_id c = Some u →
              user_connections m !! u = Some s → c_connection_id c ∈ s)
  ∧ (∀ k c t s, connections m !! k = Some c → t ∈ c_subscribed_tasks c →
                task_subscribers m !! t = Some s → c_connection_id c ∈ s)
  ∧ (∀ u s k, user_connections m !! u = Some s → k ∈ s →
              is_Some (connections m !! k))
  ∧ (∀ t s k, task_subscribers m !! t = Some s → k ∈ s →
              is_Some (connections m !! k)).

Lemma consistent_index_consistency m : consistent m → index_consistency m.
Proof.
  intros [Hkey Hu Ht Hun Htn]. repeat split.
  - intros k c u s Hc Hcu Hs. rewrite (Hkey k c Hc).
    assert (∃ k', k' ∈ s) as [k' Hk'].
    { apply set_choose_L. by eapply Hun. }
    assert (indexed (user_connections m) u k') as Hi by by exists s.
    apply Hu in Hi as (c' & _ & _ & Htruthy).
    assert (indexed (user_connections m) u k) as (s' & Hs' & Hin).
    { apply Hu. by exists c. }
    congruence.
  - intros k c t s Hc Hin Hs. rewrite (Hkey k c Hc).
    assert (indexed (task_subscribers m) t k) as (s' & Hs' & Hin').
    { apply Ht. by exists c. }
    congruence.
  - intros u s k Hs Hin.
    assert (indexed (user_connections m) u k) as Hi by by exists s.
    apply Hu in Hi as (c & Hc & _). by exists c.
  - intros t s k Hs Hin.
    assert (indexed (task_subscribers m) t k) as Hi by by exists s.
    apply Ht in Hi as (c & Hc & _). by exists c.
Qed.

Lemma consistent_keyed w : consistent_world w → keyed w.
Proof. intros Hw k c. by apply cons_key. Qed.

Section index_consistency_reachable.
Context `{PyLib}.

(** C3, as amended: in every state that a sequence of completed operations
    reaches from a new manager, each [connect] being given an id that is not
    registered at that time, the indices are consistent with the registry:
    in the words of the specification, and as exact reflections of the
    fields of the registered connections. *)
Theorem index_consistency_reachable n t e ops :
  fresh_ids (boot n t e) ops →
  index_consistency (manager (run (boot n t e) ops))
  ∧ consistent (manager (run (boot n t e) ops)).
Proof.
  intros Hf.
  assert (consistent_world (run (boot n t e) ops)) as Hw.
  { apply consistent_run; [apply consistent_boot | done]. }
  split; [by apply consistent_index_consistency | done].
Qed.

End index_consistency_reachable.

(** ** [disconnect] (claim C4) *)

(** C4, as amended: in every state, [disconnect] of an id that the registry
    does not hold returns and changes nothing, and [disconnect] of any id
    returns, after which the id is absent from the registry and a second
    [disconnect] of the id returns and changes nothing; when the indices
    were consistent with the registry, the id is then also absent from
    every set of both indices, and no index keeps an empty set. *)
Theorem disconnect_idempotent_total (w : World) (k : string) :
  (connections (manager w) !! k = None → disconnect k w = (Ok tt, w))
  ∧ ∃ w', disconnect k w = (Ok tt, w')
      ∧ connections (manager w') !! k = None
      ∧ disconnect k w' = (Ok tt, w')
      ∧ (consistent_world w →
         (∀ u s, user_connections (manager w') !! u = Some s →
                 (k ∉ s) ∧ s ≠ ∅)
         ∧ (∀ t s, task_subscribers (manager w') !! t = Some s →
                   (k ∉ s) ∧ s ≠ ∅)).
Proof.
  split; [apply disconnect_unknown|].
  assert (∃ w', disconnect k w = (Ok tt, w')
                ∧ connections (manager w') !! k = None
                ∧ (consistent_world w → consistent_world w'))
    as (w' & Hrun & Hk & Hw').
  { destruct (connections (manager w) !! k) as [c|] eqn:Hc.
    - exists (disconnected k c w). split; [by apply disconnect_known|].
      split; [apply lookup_delete_eq|].
      intros Hw. by apply consistent_disconnected.
    - exists w. split; [by apply disconnect_unknown | done]. }
  exists w'. split; [done|]. split; [done|].
  split; [by apply disconnect_unknown|].
  intros Hw. destruct (Hw' Hw) as [Hkey Hu Ht Hun Htn]. split.
  - intros u s Hs. split; [|by eapply Hun].
    intros Hin. assert (indexed (user_connections (manager w')) u k) as Hi
      by by exists s.
    apply Hu in Hi as (c & Hc & _). congruence.
  - intros t s Hs. split; [|by eapply Htn].
    intros Hin. assert (indexed (task_subscribers (manager w')) t k) as Hi
      by by exists s.
    apply Ht in Hi as (c & Hc & _). congruence.
Qed.

(** ** Subscribing and unsubscribing (claim C5) *)

Lemma set_subscribed_tasks_id f c :
  f (c_subscribed_tasks c) = c_subscribed_tasks c →
  set_subscribed_tasks f c = c.
Proof. intros Hf. destruct c. unfold set_subscribed_tasks. simpl in *. by rewrite Hf. Qed.

Lemma subscribed_twice k t m : subscribed k t (subscribed k t m) = subscribed k t m.
Proof.
  unfold subscribed. simpl. rewrite added_twice. f_equal.
  apply map_eq. intros k'.
  destruct (decide (k = k')) as [<-|?]; [|by rewrite !lookup_alter_ne].
  rewrite !lookup_alter_eq. destruct (connections m !! k) as [c|]; [|done].
  simpl. unfold set_subscribed_tasks. simpl. do 2 f_equal. set_solver.
Qed.

Lemma unsubscribed_not_subscribed k c t m :
  consistent m → connections m !! k = Some c → t ∉ c_subscribed_tasks c →
  unsubscribed k t m = m.
Proof.
  intros [Hkey Hu Ht Hun Htn] Hc Hin. unfold unsubscribed.
  rewrite discarded_not_indexed; [|done|]; cycle 1.
  { intros Hi. apply Ht in Hi as (c' & Hc' & Hin'). congruence. }
  rewrite alter_id; [by destruct m|].
  intros c' Hc'. apply set_subscribed_tasks_id.
  assert (c' = c) as -> by congruence. set_solver.
Qed.

Section subscriptions.
Context `{PyLib}.

(** C5, as amended: for every connection, every state and every message
    that names a task, handling the subscription a second time leaves the
    world that the first has produced, and when the unsubscription empties
    the set of the task, the task is no longer a key of [task_subscribers];
    and when the connection is registered and the indices are consistent
    with the registry, unsubscribing from a task that the connection does
    not subscribe to leaves the world unchanged. *)
Theorem subscribe_unsubscribe_idempotent c message task_id w :
  task_id_of message = Some task_id →
  (_handle_subscribe_task c message (_handle_subscribe_task c message w).2).2
  = (_handle_subscribe_task c message w).2
  ∧ (consistent_world w →
     connections (manager w) !! c_connection_id c = Some c →
     task_id ∉ c_subscribed_tasks c →
     (_handle_unsubscribe_task c message w).2 = w)
  ∧ (∀ s, task_subscribers (manager w) !! task_id = Some s →
          s ∖ {[c_connection_id c]} = ∅ →
          task_subscribers (manager (_handle_unsubscribe_task c message w).2)
            !! task_id = None).
Proof.
  intros Ht. rewrite !(handle_subscribe_task_run _ _ _ _ Ht),
    (handle_unsubscribe_task_run _ _ _ _ Ht). simpl. repeat split.
  - destruct w as [m ? ? ? ?]. unfold with_manager. simpl. f_equal.
    apply subscribed_twice.
  - intros Hw Hc Hin. destruct w as [m ? ? ? ?]. unfold with_manager.
    simpl in *. f_equal. by eapply unsubscribed_not_subscribed.
  - intros s Hs He. by eapply discarded_empties.
Qed.

End subscriptions.

(** ** Closing the transport (claim C8) *)

Section transport_closed.
Context `{PyLib}.

(** C8, as amended: along any sequence of operations in which each
    [connect] is given an unregistered id and an unused transport handle, no
    handle is closed more than once and the handle of a registered
    connection has not been closed; the [disconnect] of a registered
    connection returns, calls [close] on its handle exactly once when the
    connection is still active and not at all when a failed send has marked
    it inactive, whether or not [close] raises, and leaves the id out of the
    registry and of both indices. *)
Theorem transport_closed_at_most_once n t e ops :
  fresh_connects (boot n t e) ops →
  let w := run (boot n t e) ops in
  (∀ h, (closes h (trace w) ≤ 1)%nat)
  ∧ ∀ k c, connections (manager w) !! k = Some c →
      closes (c_websocket c) (trace w) = 0
      ∧ ∃ w', disconnect k w = (Ok tt, w')
          ∧ calls_since w w'
            = (if c_is_active c then [close_effect w c] else [])
          ∧ closes (c_websocket c) (trace w')
            = (if c_is_active c then 1 else 0)
          ∧ connections (manager w') !! k = None
          ∧ (∀ u, ¬ indexed (user_connections (manager w')) u k)
          ∧ (∀ t, ¬ indexed (task_subscribers (manager w')) t k).
Proof.
  intros Hf w.
  assert (transports_owned w) as Ho.
  { apply owned_run; [apply owned_boot | done]. }
  assert (consistent_world w) as Hw.
  { apply consistent_run; [apply consistent_boot|].
    by apply fresh_connects_ids. }
  split; [apply Ho|]. intros k c Hk. split; [by eapply own_open|].
  exists (disconnected k c w). split; [by apply disconnect_known|].
  pose proof (consistent_disconnected w k c Hw Hk) as [_ Hu Ht _ _].
  repeat split.
  - by apply calls_since_app.
  - simpl. rewrite closes_app, (own_open w Ho k c Hk).
    destruct (c_is_active c); [|done].
    by rewrite closes_close_effect, decide_True.
  - apply lookup_delete_eq.
  - intros u Hi. apply Hu in Hi as (c' & Hc' & _). simpl in Hc'.
    by rewrite lookup_delete_eq in Hc'.
  - intros t' Hi. apply Ht in Hi as (c' & Hc' & _). simpl in Hc'.
    by rewrite lookup_delete_eq in Hc'.
Qed.

End transport_closed.

(** ** Targets and deliveries (claims C1, C7 and C10) *)

(** C1, as amended: [broadcast_event] returns, and the transport calls it
    makes are sends of the event, one to each target that is registered and
    active, each succeeding exactly when the transport of its connection
    does.  For an event that names a task and no user and whose kind is
    neither SYSTEM_STATUS nor ERROR, these are the registered, active
    connections listed under the task in [task_subscribers] at call time,
    and no others; for an event of kind SYSTEM_STATUS or ERROR, whatever
    it names, they are all the registered, active connections. *)
Theorem broadcast_event_targets (event : WebSocketEvent) (w : World) :
  keyed w →
  ∃ w', broadcast_event event w = (Ok tt, w')
    ∧ (is_system_kind (e_type event) = false → e_user_id event = None →
       ∀ task_id, e_task_id event = Some task_id →
       ∀ call, call ∈ calls_since w w'
         ↔ ∃ k c, indexed (task_subscribers (manager w)) task_id k
                  ∧ connections (manager w) !! k = Some c
                  ∧ c_is_active c = true
                  ∧ call = send_effect w event c)
    ∧ (is_system_kind (e_type event) = true →
       ∀ call, call ∈ calls_since w w'
         ↔ ∃ k c, connections (manager w) !! k = Some c
                  ∧ c_is_active c = true
                  ∧ call = send_effect w event c).
Proof.
  intros Hw. destruct (broadcast_event_run event w Hw) as (w' & Hrun & Hfan).
  exists w'. split; [done|].
  rewrite (calls_since_app _ _ _ (fan_trace _ _ _ _ Hfan)).
  split.
  - intros Hkind Hu t Ht call. rewrite elem_of_sends.
    unfold target_connections. rewrite Hkind, Hu, Ht.
    setoid_rewrite attempted_Some. setoid_rewrite elem_of_elements.
    unfold indexed.
    destruct (task_subscribers (manager w) !! t) as [s|].
    + split.
      * intros (k & c & Hin & [Hc Hact] & ->). exists k, c.
        split; [|done]. exists s. split; [done|]. set_solver.
      * intros (k & c & (s' & [= <-] & Hin) & Hc & Hact & ->).
        exists k, c. split; [set_solver|done].
    + split.
      * intros (k & c & Hin & _). set_solver.
      * intros (k & c & (s' & ? & _) & _). done.
  - intros Hkind call. rewrite elem_of_sends.
    unfold target_connections. rewrite Hkind.
    setoid_rewrite attempted_Some. setoid_rewrite elem_of_elements. split.
    + intros (k & c & _ & [Hc Hact] & ->). by exists k, c.
    + intros (k & c & Hc & Hact & ->). exists k, c. split; [|done].
      apply elem_of_union. right. apply elem_of_dom. by exists c.
Qed.

(** What a send path does with a failing target: the call returns; every
    registered, active target is sent the event, whatever happens to the
    other targets; it stays registered, unchanged, when its send succeeds
    and is gone from the registry when its send fails; nothing else leaves
    the registry; and the indices stay consistent with the registry, so
    that they have lost the failed targets too. *)
Definition isolates_failures (event : WebSocketEvent) (targets : gset string)
    (m : M unit) (w : World) : Prop :=
  ∃ w', m w = (Ok tt, w')
    ∧ (∀ k c, k ∈ targets → connections (manager w) !! k = Some c →
              c_is_active c = true →
              send_effect w event c ∈ calls_since w w'
              ∧ connections (manager w') !! k
                = if send_ok w c then Some c else None)
    ∧ (∀ k, connections (manager w') !! k = None →
            connections (manager w) !! k = None
            ∨ k ∈ targets
              ∧ ∃ c, connections (manager w) !! k = Some c
                     ∧ c_is_active c = true ∧ send_ok w c = false)
    ∧ (consistent_world w → consistent_world w').

Lemma fanned_out_isolates event targets m w w' :
  m w = (Ok tt, w') → fanned_out event (elements targets) w w' →
  keeps consistent_world m →
  isolates_failures event targets m w.
Proof.
  intros Hrun [Htr _ Hcs] Hkeeps. exists w'. split; [done|].
  split; [|split].
  - intros k c Hk Hc Hact.
    assert (attempted w k = Some c) as Hat by by apply attempted_Some.
    split.
    + rewrite (calls_since_app _ _ _ Htr). apply elem_of_sends.
      exists k, c. by rewrite elem_of_elements.
    + rewrite Hcs. destruct (send_ok w c) eqn:Hok.
      * rewrite decide_False; [done|]. rewrite elem_of_failures.
        intros (_ & c' & Hc' & Hok'). congruence.
      * rewrite decide_True; [done|]. apply elem_of_failures.
        rewrite elem_of_elements. split; [done|]. by exists c.
  - intros k. rewrite Hcs. case_decide as Hf; [|by left].
    intros _. right. apply elem_of_failures in Hf as (Hin & c & Hat & Hok).
    apply elem_of_elements in Hin. apply attempted_Some in Hat as [Hc Hact].
    split; [done|]. by exists c.
  - intros Hw. specialize (Hkeeps w Hw). by rewrite Hrun in Hkeeps.
Qed.

(** C7: on each of the three send paths, a send that fails for one target
    does not prevent the delivery to any other target, exactly the targets
    whose send failed are disconnected, and the call returns normally. *)
Theorem partial_failure_isolation (event : WebSocketEvent) (w : World) :
  keyed w →
  isolates_failures event (target_connections (manager w) event)
    (broadcast_event event) w
  ∧ (∀ user_id,
       isolates_failures event
         (default ∅ (user_connections (manager w) !! user_id))
         (send_to_user user_id event) w)
  ∧ (∀ task_id,
       isolates_failures event
         (default ∅ (task_subscribers (manager w) !! task_id))
         (send_to_task_subscribers task_id event) w).
Proof.
  intros Hw. repeat split.
  - destruct (broadcast_event_run event w Hw) as (w' & Hrun & Hfan).
    eapply fanned_out_isolates; [done..|].
    apply keeps_broadcast_event;
      auto using consistent_disconnect, consistent_send_event.
  - intros u. destruct (send_to_user_run u event w Hw) as (w' & Hrun & Hfan).
    eapply fanned_out_isolates; [done..|].
    apply keeps_send_to_user;
      auto using consistent_disconnect, consistent_send_event.
  - intros t.
    destruct (send_to_task_subscribers_run t event w Hw) as (w' & Hrun & Hfan).
    eapply fanned_out_isolates; [done..|].
    apply keeps_send_to_task_subscribers;
      auto using consistent_disconnect, consistent_send_event.
Qed.

(** What a send path does with a target that is not registered or not
    active: the call makes no transport call for it, and leaves the
    registry as it was at that id. *)
Definition skips_inactive (targets : gset string) (m : M unit) (w : World)
  : Prop :=
  ∃ w', m w = (Ok tt, w')
    ∧ ∀ k, k ∈ targets → attempted w k = None →
        (∀ call, call ∈ calls_since w w' → eff_conn call ≠ k)
        ∧ connections (manager w') !! k = connections (manager w) !! k.

Lemma fanned_out_skips event targets m w w' :
  keyed w →
  m w = (Ok tt, w') → fanned_out event (elements targets) w w' →
  skips_inactive targets m w.
Proof.
  intros Hw Hrun [Htr _ Hcs]. exists w'. split; [done|].
  intros k Hk Hat. split.
  - intros call. rewrite (calls_since_app _ _ _ Htr), elem_of_sends.
    intros (k' & c & _ & Hat' & ->) <-. simpl in Hat.
    apply attempted_Some in Hat' as Hc. destruct Hc as [Hc _].
    rewrite (Hw k' c Hc) in Hat. congruence.
  - rewrite Hcs, decide_False; [done|]. rewrite elem_of_failures.
    intros (_ & c & ? & _). congruence.
Qed.

(** C10: on each of the three send paths, a target that is absent from the
    registry or whose connection is inactive is sent nothing, is not among
    the failed sends that the send loop returns, and is not disconnected by
    the call. *)
Theorem inactive_targets_skipped (event : WebSocketEvent) (w : World) :
  keyed w →
  (∀ targets failed k,
     NoDup targets → attempted w k = None →
     ∃ w', send_loop event targets failed w
           = (Ok (failed ++ failures w targets)%list, w')
           ∧ k ∉ failures w targets)
  ∧ skips_inactive (target_connections (manager w) event)
      (broadcast_event event) w
  ∧ (∀ user_id,
       skips_inactive (default ∅ (user_connections (manager w) !! user_id))
         (send_to_user user_id event) w)
  ∧ (∀ task_id,
       skips_inactive (default ∅ (task_subscribers (manager w) !! task_id))
         (send_to_task_subscribers task_id event) w).
Proof.
  intros Hw. repeat split.
  - intros targets failed k Hnd Hat. eexists. split; [by apply send_loop_run|].
    rewrite elem_of_failures. intros (_ & c & ? & _). congruence.
  - destruct (broadcast_event_run event w Hw) as (w' & Hrun & Hfan).
    by eapply fanned_out_skips.
  - intros u. destruct (send_to_user_run u event w Hw) as (w' & Hrun & Hfan).
    by eapply fanned_out_skips.
  - intros t.
    destruct (send_to_task_subscribers_run t event w Hw) as (w' & Hrun & Hfan).
    by eapply fanned_out_skips.
Qed.

(** ** The theorems at work on concrete runs *)

Section examples.
#[local] Existing Instance test_lib.

(** Three connections, all subscribed to task [T1]; then the transport of
    ["a"], the second one that a send loop over them visits, starts
    failing. *)
Definition trio_ops : list op :=
  [Connect 1 "a" (Some "u1") None;
   Connect 2 "b" (Some "u1") None;
   Connect 3 "c" None None;
   HandleMessage "a" (subscribe_message "T1" "r1");
   HandleMessage "b" (subscribe_message "T1" "r2");
   HandleMessage "c" (subscribe_message "T1" "r3");
   SetNet (send_fails_on {[1]})].

Definition trio : World := run (boot healthy 0 0) trio_ops.

(** Two connections, the first subscribed to task [T1]. *)
Definition duo : World :=
  run (boot healthy 0 0)
    [Connect 1 "a" (Some "u1") None;
     Connect 2 "b" None None;
     HandleMessage "a" (subscribe_message "T1" "r1")].

(** Two connections subscribed to task [T1]; the confirmation sent to the
    second one at its [connect] has failed, so it is registered inactive. *)
Definition limping : World :=
  run (boot (send_fails_on {[2]}) 0 0)
    [Connect 1 "a" (Some "u1") None;
     Connect 2 "b" (Some "u1") None;
     HandleMessage "a" (subscribe_message "T1" "r1");
     HandleMessage "b" (subscribe_message "T1" "r2")].

(** One connection, and the message by which it subscribes to [T1]. *)
Definition solo : World :=
  run (boot healthy 0 0) [Connect 1 "a" (Some "u1") None].

Definition solo_connection : WebSocketConnection :=
  new_connection 1 "a" (Some "u1") None 0.

Definition solo_message : WebSocketMessage :=
  {| m_type := "subscribe_task"; m_data := [("task_id", PStr "T1")];
     m_request_id := Some "r1" |}.

Definition task_event (kind : WebSocketEventType) : WebSocketEvent :=
  {| e_id := 7%N; e_type := kind; e_data := []; e_timestamp := 0;
     e_task_id := Some 1%N; e_user_id := None; e_session_id := None |}.

Definition bare_event (kind : WebSocketEventType) : WebSocketEvent :=
  {| e_id := 8%N; e_type := kind; e_data := []; e_timestamp := 0;
     e_task_id := None; e_user_id := None; e_session_id := None |}.

Lemma trio_consistent : consistent_world trio.
Proof.
  apply consistent_run; [apply consistent_boot|]. vm_compute. tauto.
Qed.

Lemma duo_consistent : consistent_world duo.
Proof.
  apply consistent_run; [apply consistent_boot|]. vm_compute. tauto.
Qed.

Lemma limping_consistent : consistent_world limping.
Proof.
  apply consistent_run; [apply consistent_boot|]. vm_compute. tauto.
Qed.

Lemma solo_consistent : consistent_world solo.
Proof.
  apply consistent_run; [apply consistent_boot|]. vm_compute. tauto.
Qed.

(** The scenario of C7 by evaluation: of the three targets, the one whose
    send fails is gone from the registry and from the index afterwards, and
    the other two have been sent the event. *)
Example trio_broadcast :
  let w' := step trio (BroadcastEvent (task_event TASK_UPDATED)) in
  broadcast_event (task_event TASK_UPDATED) trio = (Ok tt, w')
  ∧ ((λ call, (eff_conn call, eff_ok call)) <$> calls_since trio w')
    = [("c", true); ("a", false); ("b", true)]
  ∧ dom (connections (manager w')) = {["b"; "c"]}
  ∧ task_subscribers (manager w') = {[1%N := {["b"; "c"]}]}.
Proof. vm_compute. repeat split. Qed.

(** C1, as stated, fails.  An ERROR event that names task [T1] and no user
    also reaches the connection that does not subscribe to [T1]; an event
    that names neither a task nor a user, of a kind other than SYSTEM_STATUS
    and ERROR, reaches no connection although both are registered, active
    and healthy; and an event that names task [T1] does not reach the
    subscriber of [T1] that is inactive. *)
Lemma broadcast_targets_depend_on_kind :
  (task_subscribers (manager duo) = {[1%N := {["a"]}]}
   ∧ ((λ call, (eff_conn call, eff_ok call))
        <$> calls_since duo (step duo (BroadcastEvent (task_event ERROR))))
     = [("a", true); ("b", true)])
  ∧ (is_Some (attempted duo "a") ∧ is_Some (attempted duo "b")
     ∧ calls_since duo
         (step duo (BroadcastEvent (bare_event DESKTOP_STATUS))) = [])
  ∧ (task_subscribers (manager limping) = {[1%N := {["a"; "b"]}]}
     ∧ ((λ call, (eff_conn call, eff_ok call))
          <$> calls_since limping
                (step limping (BroadcastEvent (task_event TASK_UPDATED))))
       = [("a", true)]).
Proof. vm_compute. repeat split; eauto. Qed.

(** C8, as stated, fails: the confirmation that [connect] sends fails, so
    the connection is registered inactive, and its [disconnect] removes it
    without ever closing its transport. *)
Lemma inactive_connection_never_closed :
  is_Some (connections
             (manager (run (boot (send_fails_on {[1]}) 0 0)
                         [Connect 1 "a" None None])) !! "a")
  ∧ connections
      (manager (run (boot (send_fails_on {[1]}) 0 0)
                  [Connect 1 "a" None None; Disconnect "a"])) !! "a" = None
  ∧ closes 1
      (trace (run (boot (send_fails_on {[1]}) 0 0)
                [Connect 1 "a" None None; Disconnect "a"])) = 0.
Proof. vm_compute. repeat split; eauto. Qed.

(** C3, as stated, fails.  Without fresh ids the invariant is lost: a second
    [connect] under a registered id replaces the connection, and the
    [disconnect] of that id leaves the id behind under the first user, in
    an index entry that names a connection which the registry does not
    hold. *)
Lemma reused_id_breaks_index :
  let w := run (boot healthy 0 0)
             [Connect 1 "a" (Some "u1") None;
              Connect 2 "a" (Some "u2") None;
              Disconnect "a"] in
  connections (manager w) = ∅
  ∧ user_connections (manager w) = {["u1" := {["a"]}]}
  ∧ ¬ index_consistency (manager w).
Proof.
  cbv zeta.
  assert (connections
            (manager (run (boot healthy 0 0)
                        [Connect 1 "a" (Some "u1") None;
                         Connect 2 "a" (Some "u2") None;
                         Disconnect "a"])) = ∅) as Hc
    by (vm_compute; reflexivity).
  assert (user_connections
            (manager (run (boot healthy 0 0)
                        [Connect 1 "a" (Some "u1") None;
                         Connect 2 "a" (Some "u2") None;
                         Disconnect "a"])) = {["u1" := {["a"]}]}) as Hu
    by (vm_compute; reflexivity).
  split; [exact Hc|]. split; [exact Hu|].
  intros (_ & _ & Hlisted & _).
  destruct (Hlisted "u1" {["a"]} "a") as [c Hreg].
  - rewrite Hu. apply lookup_singleton_eq.
  - set_solver.
  - rewrite Hc, lookup_empty in Hreg. discriminate.
Qed.

(** A connection that has subscribed to [T1], after which its id has been
    given to a second [connect]: the registry holds the second connection,
    which has no subscription, and the indices still list the id for the
    first. *)
Definition reused : World :=
  run (boot healthy 0 0)
    [Connect 1 "a" (Some "u1") None;
     HandleMessage "a" (subscribe_message "T1" "r1");
     Connect 2 "a" (Some "u2") None].

Definition reused_connection : WebSocketConnection :=
  new_connection 2 "a" (Some "u2") None 0.

(** C4, as stated, fails: in [reused], the [disconnect] of ["a"] returns
    and empties the registry, but leaves ["a"] in the set of user [u1] and
    in the set of the subscribers of [T1]. *)
Lemma disconnect_leaves_reused_id_indexed :
  connections (manager reused) !! "a" = Some reused_connection
  ∧ disconnect "a" reused = (Ok tt, step reused (Disconnect "a"))
  ∧ connections (manager (step reused (Disconnect "a"))) = ∅
  ∧ user_connections (manager (step reused (Disconnect "a")))
    = {["u1" := {["a"]}]}
  ∧ task_subscribers (manager (step reused (Disconnect "a")))
    = {[1%N := {["a"]}]}.
Proof. vm_compute. repeat split. Qed.

(** C5, as stated, fails: in [reused], the registered connection ["a"]
    does not subscribe to [T1], and yet its unsubscription from [T1]
    changes the state: it removes the entry of [T1] from
    [task_subscribers]. *)
Lemma unsubscribe_of_reused_id_changes_index :
  connections (manager reused) !! c_connection_id reused_connection
  = Some reused_connection
  ∧ c_subscribed_tasks reused_connection = ∅
  ∧ task_id_of solo_message = Some 1%N
  ∧ task_subscribers (manager reused) = {[1%N := {["a"]}]}
  ∧ task_subscribers
      (manager (_handle_unsubscribe_task reused_connection solo_message
                  reused).2) = ∅
  ∧ (_handle_unsubscribe_task reused_connection solo_message reused).2
    ≠ reused.
Proof.
  assert (task_subscribers (manager reused) = {[1%N := {["a"]}]}) as Hbefore
    by (vm_compute; reflexivity).
  assert (task_subscribers
            (manager (_handle_unsubscribe_task reused_connection solo_message
                        reused).2) = ∅) as Hafter
    by (vm_compute; reflexivity).
  split; [vm_compute; reflexivity|]. split; [reflexivity|].
  split; [vm_compute; reflexivity|]. split; [exact Hbefore|].
  split; [exact Hafter|].
  intros Heq. rewrite Heq, Hbefore in Hafter.
  apply (f_equal (λ ts : gmap UUID (gset string), ts !! 1%N)) in Hafter.
  rewrite lookup_singleton_eq, lookup_empty in Hafter. discriminate.
Qed.

(** The scenario of C10 by evaluation: the inactive subscriber is sent
    nothing and stays registered. *)
Example limping_broadcast :
  let w' := step limping (BroadcastEvent (task_event TASK_UPDATED)) in
  task_subscribers (manager limping) = {[1%N := {["a"; "b"]}]}
  ∧ attempted limping "b" = None
  ∧ ((λ call, (eff_conn call, eff_ok call)) <$> calls_since limping w')
    = [("a", true)]
  ∧ connections (manager w') !! "b" = connections (manager limping) !! "b"
  ∧ is_Some (connections (manager w') !! "b").
Proof. vm_compute. repeat split; eauto. Qed.

(** *** The theorems applied *)

(** The invariant of C3 after the operations that build [trio]. *)
Lemma index_consistency_reachable_witness :
  fresh_ids (boot healthy 0 0) trio_ops
  ∧ index_consistency (manager trio)
  ∧ consistent (manager trio).
Proof.
  assert (fresh_ids (boot healthy 0 0) trio_ops) as Hf
    by (vm_compute; tauto).
  split; [exact Hf|].
  exact (index_consistency_reachable healthy 0 0 trio_ops Hf).
Defined.

(** C4 at the [disconnect] of ["a"] in [trio]. *)
Lemma disconnect_idempotent_total_witness :
  consistent_world trio
  ∧ ∃ w', disconnect "a" trio = (Ok tt, w')
      ∧ connections (manager w') !! "a" = None
      ∧ disconnect "a" w' = (Ok tt, w')
      ∧ (∀ u s, user_connections (manager w') !! u = Some s →
                ("a" ∉ s) ∧ s ≠ ∅)
      ∧ (∀ t s, task_subscribers (manager w') !! t = Some s →
                ("a" ∉ s) ∧ s ≠ ∅).
Proof.
  split; [exact trio_consistent|].
  destruct (proj2 (disconnect_idempotent_total trio "a"))
    as (w' & Hrun & Hgone & Hagain & Hidx).
  exists w'. split; [exact Hrun|]. split; [exact Hgone|].
  split; [exact Hagain|]. exact (Hidx trio_consistent).
Defined.

(** C5 for the connection of [solo] and task [T1], to which it does not
    subscribe yet. *)
Lemma subscribe_unsubscribe_idempotent_witness :
  consistent_world solo
  ∧ connections (manager solo) !! c_connection_id solo_connection
    = Some solo_connection
  ∧ task_id_of solo_message = Some 1%N
  ∧ (_handle_subscribe_task solo_connection solo_message
       (_handle_subscribe_task solo_connection solo_message solo).2).2
    = (_handle_subscribe_task solo_connection solo_message solo).2
  ∧ (_handle_unsubscribe_task solo_connection solo_message solo).2 = solo.
Proof.
  assert (connections (manager solo) !! c_connection_id solo_connection
          = Some solo_connection) as Hc by (vm_compute; reflexivity).
  assert (task_id_of solo_message = Some 1%N) as Ht
    by (vm_compute; reflexivity).
  split; [exact solo_consistent|]. split; [exact Hc|]. split; [exact Ht|].
  destruct (subscribe_unsubscribe_idempotent solo_connection solo_message
              1%N solo Ht) as (Htwice & Hnone & _).
  split; [exact Htwice|]. apply (Hnone solo_consistent Hc).
  vm_compute. set_solver.
Defined.

(** C8 after the operations that build [trio]: no handle has been closed
    twice, and the handle of ["a"] is still open. *)
Lemma transport_closed_at_most_once_witness :
  fresh_connects (boot healthy 0 0) trio_ops
  ∧ (∀ h, (closes h (trace trio) ≤ 1)%nat)
  ∧ closes 1 (trace trio) = 0.
Proof.
  assert (fresh_connects (boot healthy 0 0) trio_ops) as Hf.
  { vm_compute. repeat split; try done; set_solver. }
  split; [exact Hf|].
  destruct (transport_closed_at_most_once healthy 0 0 trio_ops Hf)
    as [Honce Hopen].
  split; [exact Honce|].
  assert (connections (manager trio) !! "a"
          = Some (set_subscribed_tasks (λ s, s ∪ {[1%N]})
                    (new_connection 1 "a" (Some "u1") None 0))) as Ha
    by (vm_compute; reflexivity).
  exact (proj1 (Hopen "a" _ Ha)).
Defined.

(** C1 for an event of kind TASK_UPDATED that names task [T1], in [duo]. *)
Lemma broadcast_event_targets_witness :
  keyed duo
  ∧ ∃ w', broadcast_event (task_event TASK_UPDATED) duo = (Ok tt, w')
      ∧ ∀ call, call ∈ calls_since duo w'
          ↔ ∃ k c, indexed (task_subscribers (manager duo)) 1%N k
                   ∧ connections (manager duo) !! k = Some c
                   ∧ c_is_active c = true
                   ∧ call = send_effect duo (task_event TASK_UPDATED) c.
Proof.
  assert (keyed duo) as Hk by exact (consistent_keyed duo duo_consistent).
  split; [exact Hk|].
  destruct (broadcast_event_targets (task_event TASK_UPDATED) duo Hk)
    as (w' & Hrun & Htask & _).
  exists w'. split; [exact Hrun|].
  exact (Htask eq_refl eq_refl 1%N eq_refl).
Defined.

(** C7 for the broadcast to the three subscribers of [trio]. *)
Lemma partial_failure_isolation_witness :
  keyed trio
  ∧ isolates_failures (task_event TASK_UPDATED)
      (target_connections (manager trio) (task_event TASK_UPDATED))
      (broadcast_event (task_event TASK_UPDATED)) trio.
Proof.
  assert (keyed trio) as Hk by exact (consistent_keyed trio trio_consistent).
  split; [exact Hk|].
  exact (proj1 (partial_failure_isolation (task_event TASK_UPDATED) trio Hk)).
Defined.

(** C10 for the broadcast to the two subscribers of [limping]. *)
Lemma inactive_targets_skipped_witness :
  keyed limping
  ∧ skips_inactive
      (target_connections (manager limping) (task_event TASK_UPDATED))
      (broadcast_event (task_event TASK_UPDATED)) limping.
Proof.
  assert (keyed limping) as Hk
    by exact (consistent_keyed limping limping_consistent).
  split; [exact Hk|].
  exact (proj1 (proj2
    (inactive_targets_skipped (task_event TASK_UPDATED) limping Hk))).
Defined.

End examples.

(** * Further properties of the manager and of the models *)

(** ** [connect] and [disconnect] *)

Lemma discarded_added `{Countable K} (d : gmap K (gset string)) k x :
  no_empty_entry d → ¬ indexed d k x → discarded (added d k x) k x = d.
Proof.
  intros Hd Hn. unfold discarded, added. rewrite lookup_insert_eq.
  destruct (d !! k) as [s|] eqn:Hs; simpl.
  - assert (x ∉ s) by (intros ?; apply Hn; by exists s).
    assert ((s ∪ {[x]}) ∖ {[x]} = s) as -> by set_solver.
    destruct (decide (s = ∅)) as [->|_]; [by apply Hd in Hs|].
    rewrite insert_insert_eq. by apply insert_id.
  - assert (((∅ : gset string) ∪ {[x]}) ∖ {[x]} = ∅) as -> by set_solver.
    rewrite decide_True by done. rewrite delete_insert_eq. by apply delete_id.
Qed.

Section connect_disconnect.
Context `{PyLib}.

(** X1: What [connect] leaves.  When the handshake fails, it raises, registers
    nothing and has made the one failed call.  When the handshake succeeds,
    the connection is registered under its id whether or not the
    confirmation could be sent (it is active exactly when it could), it is
    listed under its user exactly when the user id is a non-empty string,
    it has no subscription, and the other connections, the other index
    entries and the task index are as before; the transport calls are the
    [accept] and the send of the CONNECT event, which carries the id of the
    connection and the time, names no task, and names the user and the
    session given to [connect]. *)
Theorem connect_outcome websocket k user_id session_id w :
  match connect websocket k user_id session_id w with
  | (Raise e, w') =>
      (websocket ∈ accept_failing (net w)) ∧ e = TransportError
      ∧ manager w' = manager w
      ∧ calls_since w w' = [accept_effect w websocket k]
  | (Ok c, w') =>
      (websocket ∉ accept_failing (net w))
      ∧ connections (manager w') !! k = Some c
      ∧ c_connection_id c = k ∧ c_websocket c = websocket
      ∧ c_user_id c = user_id ∧ c_session_id c = session_id
      ∧ c_subscribed_tasks c = ∅
      ∧ c_connected_at c = now w ∧ c_last_heartbeat c = now w
      ∧ c_is_active c = bool_decide (websocket ∉ send_failing (net w))
      ∧ (∀ k', k' ≠ k →
           connections (manager w') !! k' = connections (manager w) !! k')
      ∧ (∀ u k', indexed (user_connections (manager w')) u k'
                 ↔ indexed (user_connections (manager w)) u k'
                   ∨ (k' = k ∧ user_id = Some u ∧ truthy_opt (Some u) = true))
      ∧ task_subscribers (manager w') = task_subscribers (manager w)
      ∧ calls_since w w'
        = [accept_effect w websocket k;
           {| eff_conn := k; eff_ws := websocket;
              eff_call := SendText (connect_event w k user_id session_id);
              eff_ok := bool_decide (websocket ∉ send_failing (net w)) |}]
  end.
Proof.
  rewrite connect_run.
  destruct (bool_decide (websocket ∉ accept_failing (net w))) eqn:Hacc.
  - apply bool_decide_eq_true_1 in Hacc.
    split; [done|]. split; [apply lookup_insert_eq|].
    do 8 (split; [done|]). split; [|split; [|split]].
    + intros k' Hne. simpl. by rewrite lookup_insert_ne.
    + intros u k'. simpl.
      destruct user_id as [u0|]; [destruct (truthy_opt (Some u0)) eqn:Htu|].
      * rewrite indexed_added. split; [|naive_solver].
        intros [?|[<- <-]]; [by left | by right].
      * split; [by left|]. intros [?|(_ & [= <-] & ?)]; [done|congruence].
      * split; [by left|]. by intros [?|(_ & ? & _)].
    + done.
    + erewrite calls_since_app; [|reflexivity]. done.
  - apply bool_decide_eq_false_1 in Hacc.
    split; [by apply dec_stable|]. split; [done|]. split; [done|].
    erewrite calls_since_app; [|reflexivity]. done.
Qed.

(** X2: A [connect] followed by the [disconnect] of the same id leaves the
    registry and both indices as they were. *)
Theorem connect_disconnect_round_trip websocket k user_id session_id w :
  consistent_world w →
  connections (manager w) !! k = None →
  websocket ∉ accept_failing (net w) →
  manager ((connect websocket k user_id session_id >> disconnect k) w).2
  = manager w.
Proof.
  intros Hw Hk Hacc. unfold bind. rewrite connect_run.
  rewrite bool_decide_eq_true_2 by done.
  erewrite disconnect_known by apply lookup_insert_eq.
  destruct Hw as [Hkey Hu Ht Hun Htn].
  destruct w as [[cs uc ts] t e n tr]. simpl in *.
  rewrite elements_empty. simpl. f_equal.
  - rewrite delete_insert_eq. by apply delete_id.
  - destruct user_id as [u|]; [|done].
    destruct (truthy_opt (Some u)); [|done].
    apply discarded_added; [done|]. intros Hi.
    apply Hu in Hi as (c & Hc & _). congruence.
Qed.

End connect_disconnect.

(** X3: [disconnect] touches one connection only: the other registered
    connections and what the indices list for the other ids are as before,
    and the only transport call it can make is on the handle of the
    connection it removes. *)
Theorem disconnect_frame (k : string) (w : World) :
  (∀ k', k' ≠ k →
     connections (manager (disconnect k w).2) !! k'
     = connections (manager w) !! k')
  ∧ (∀ u k', k' ≠ k →
       indexed (user_connections (manager (disconnect k w).2)) u k'
       ↔ indexed (user_connections (manager w)) u k')
  ∧ (∀ t k', k' ≠ k →
       indexed (task_subscribers (manager (disconnect k w).2)) t k'
       ↔ indexed (task_subscribers (manager w)) t k')
  ∧ (∀ call, call ∈ calls_since w (disconnect k w).2 →
       ∃ c, connections (manager w) !! k = Some c
            ∧ c_is_active c = true ∧ call = close_effect w c).
Proof.
  destruct (connections (manager w) !! k) as [c|] eqn:Hk.
  - rewrite (disconnect_known _ _ _ Hk). split; [|split; [|split]].
    + intros k' Hne. simpl. by rewrite lookup_delete_ne.
    + intros u k' Hne. simpl.
      destruct (c_user_id c) as [u0|]; [destruct (truthy_opt (Some u0))|];
        try done.
      rewrite indexed_discarded. naive_solver.
    + intros t k' Hne. simpl. rewrite indexed_foldl_discarded. naive_solver.
    + intros call. erewrite calls_since_app; [|reflexivity].
      destruct (c_is_active c) eqn:Hact.
      * intros ->%list_elem_of_singleton. by exists c.
      * by intros ?%elem_of_nil.
  - rewrite (disconnect_unknown _ _ Hk). split; [done|]. split; [done|].
    split; [done|]. intros call. unfold calls_since.
    rewrite drop_all. by intros ?%elem_of_nil.
Qed.

(** ** Subscriptions *)

(** [WebSocketConnection.is_subscribed_to_task] *)
Definition is_subscribed_to_task (self : WebSocketConnection) (task_id : UUID)
  : bool :=
  bool_decide (task_id ∈ c_subscribed_tasks self).

Lemma unsubscribed_subscribed k c t m :
  consistent m → connections m !! k = Some c → t ∉ c_subscribed_tasks c →
  unsubscribed k t (subscribed k t m) = m.
Proof.
  intros [Hkey Hu Ht Hun Htn] Hc Hin. unfold unsubscribed, subscribed. simpl.
  rewrite discarded_added; [|done|]; cycle 1.
  { intros Hi. apply Ht in Hi as (c' & Hc' & Hin'). congruence. }
  destruct m as [cs uc ts]. simpl in *. f_equal.
  apply map_eq. intros k'.
  destruct (decide (k = k')) as [<-|?]; [|by rewrite !lookup_alter_ne].
  rewrite !lookup_alter_eq, Hc. simpl. f_equal.
  destruct c. unfold set_subscribed_tasks. simpl in *. f_equal. set_solver.
Qed.

(** The heartbeat of the connection brought to the current time: what
    [update_heartbeat] leaves. *)
Definition touched (c : WebSocketConnection) (w : World) : World :=
  with_manager (λ m,
    set_connections
      (alter (set_last_heartbeat (now w)) (c_connection_id c) (connections m))
      m) w.

Section subscriptions_via_messages.
Context `{PyLib}.

(** X4: Subscribing and then unsubscribing restores the world, when the
    connection did not subscribe to the task before. *)
Theorem subscribe_unsubscribe_round_trip c message task_id w :
  consistent_world w →
  connections (manager w) !! c_connection_id c = Some c →
  task_id_of message = Some task_id →
  task_id ∉ c_subscribed_tasks c →
  (_handle_unsubscribe_task c message (_handle_subscribe_task c message w).2).2
  = w.
Proof.
  intros Hw Hc Ht Hin.
  rewrite (handle_subscribe_task_run _ _ _ _ Ht),
    (handle_unsubscribe_task_run _ _ _ _ Ht). simpl.
  destruct w as [m ? ? ? ?]. unfold with_manager. simpl in *. f_equal.
  by eapply unsubscribed_subscribed.
Qed.

Lemma handle_message_dispatch k c message_data message w :
  connections (manager w) !! k = Some c →
  WebSocketMessage_new message_data = Ok message →
  handle_message k message_data w
  = try_except (dispatch c message)
      (λ e, error_response (m_type message) ("Internal error: " ++ exn_str e)
              (py_of_opt (m_request_id message)))
      (touched c w).
Proof.
  intros Hk Hm. unfold handle_message, bind at 1, connections_get, gets.
  rewrite Hk, Hm. fold (dispatch c message). done.
Qed.

(** X5: A [subscribe_task] message that names a task is answered with success,
    and afterwards [is_subscribed_to_task] holds of the connection and the
    task index lists it; an [unsubscribe_task] message undoes both. *)
Theorem handle_message_subscribes k c message_data message task_id w :
  connections (manager w) !! k = Some c → c_connection_id c = k →
  WebSocketMessage_new message_data = Ok message →
  task_id_of message = Some task_id →
  (m_type message = "subscribe_task" →
   ∃ r w' c', handle_message k message_data w = (Ok r, w')
     ∧ r_success r = true
     ∧ r_data r = [("task_id", PStr (UUID_str task_id));
                   ("subscribed", PBool true)]
     ∧ connections (manager w') !! k = Some c'
     ∧ is_subscribed_to_task c' task_id = true
     ∧ c_subscribed_tasks c' = c_subscribed_tasks c ∪ {[task_id]}
     ∧ indexed (task_subscribers (manager w')) task_id k)
  ∧ (m_type message = "unsubscribe_task" →
     ∃ r w' c', handle_message k message_data w = (Ok r, w')
       ∧ r_success r = true
       ∧ r_data r = [("task_id", PStr (UUID_str task_id));
                     ("subscribed", PBool false)]
       ∧ connections (manager w') !! k = Some c'
       ∧ is_subscribed_to_task c' task_id = false
       ∧ c_subscribed_tasks c' = c_subscribed_tasks c ∖ {[task_id]}
       ∧ ¬ indexed (task_subscribers (manager w')) task_id k).
Proof.
  intros Hk Hid Hm Ht.
  rewrite (handle_message_dispatch _ _ _ _ _ Hk Hm). unfold try_except, dispatch.
  split; intros ->; simpl.
  - rewrite (handle_subscribe_task_run _ _ _ _ Ht). eexists _, _, _.
    split; [done|]. split; [done|]. split; [done|]. simpl. rewrite Hid.
    split; [by rewrite !lookup_alter_eq, Hk|]. simpl.
    split; [apply bool_decide_eq_true_2; set_solver|]. split; [done|].
    apply indexed_added. by right.
  - rewrite (handle_unsubscribe_task_run _ _ _ _ Ht). eexists _, _, _.
    split; [done|]. split; [done|]. split; [done|]. simpl. rewrite Hid.
    split; [by rewrite !lookup_alter_eq, Hk|]. simpl.
    split; [apply bool_decide_eq_false_2; set_solver|]. split; [done|].
    rewrite indexed_discarded. naive_solver.
Qed.

End subscriptions_via_messages.

(** ** What [handle_message] never does *)

(** Two connection objects that differ at most by their heartbeat and their
    subscriptions. *)
Definition same_identity (c c0 : WebSocketConnection) : Prop :=
  c_websocket c = c_websocket c0 ∧ c_connection_id c = c_connection_id c0
  ∧ c_user_id c = c_user_id c0 ∧ c_session_id c = c_session_id c0
  ∧ c_connected_at c = c_connected_at c0 ∧ c_is_active c = c_is_active c0.

(** The world [w] differs from [w0] at most by the heartbeat and the
    subscriptions of connection [k]: no transport call has been made, no
    connection has been added or dropped, the user index, the other
    connections and what the task index lists for them are the same. *)
Record untouched_outside (k : string) (w0 w : World) : Prop := {
  uo_trace : trace w = trace w0;
  uo_net : net w = net w0;
  uo_now : now w = now w0;
  uo_users : user_connections (manager w) = user_connections (manager w0);
  uo_dom : dom (connections (manager w)) = dom (connections (manager w0));
  uo_others : ∀ k', k' ≠ k →
    connections (manager w) !! k' = connections (manager w0) !! k';
  uo_tasks : ∀ t k', k' ≠ k →
    indexed (task_subscribers (manager w)) t k'
    ↔ indexed (task_subscribers (manager w0)) t k';
  uo_self : ∀ c, connections (manager w) !! k = Some c →
    ∃ c0, connections (manager w0) !! k = Some c0 ∧ same_identity c c0;
}.

Lemma untouched_refl k w : untouched_outside k w w.
Proof.
  split; try done. intros c Hc. exists c. split; [done|]. by repeat split.
Qed.

Lemma untouched_mutate k w0 c f :
  c_connection_id c = k → (∀ c, same_identity (f c) c) →
  keeps (untouched_outside k w0) (mutate c f).
Proof.
  intros Hid Hf w [Htr Hnet Hnow Hu Hdom Ho Ht Hs]. split; simpl; try done.
  - by rewrite dom_alter_L.
  - intros k' Hne. rewrite lookup_alter_ne by congruence. by apply Ho.
  - intros c'. rewrite Hid, lookup_alter_eq.
    destruct (connections (manager w) !! k) as [c1|] eqn:Hc1; [|done].
    simpl. intros [= <-]. destruct (Hs c1 eq_refl) as (c0 & Hc0 & Hsame).
    exists c0. split; [done|]. destruct (Hf c1) as (?&?&?&?&?&?).
    destruct Hsame as (?&?&?&?&?&?). repeat split; congruence.
Qed.

Lemma untouched_update_task_subscribers k w0 f :
  (∀ ts ts', f ts = Ok ts' →
     ∀ t k', k' ≠ k → indexed ts' t k' ↔ indexed ts t k') →
  keeps (untouched_outside k w0) (update_task_subscribers f).
Proof.
  intros Hf w Hw. unfold update_task_subscribers, bind, gets, lift, modify.
  destruct (f (task_subscribers (manager w))) as [ts'|e] eqn:Hts; [|done].
  destruct Hw as [Htr Hnet Hnow Hu Hdom Ho Ht Hs]. split; simpl; try done.
  intros t k' Hne. rewrite (Hf _ _ Hts t k' Hne). by apply Ht.
Qed.

Lemma same_identity_heartbeat t c : same_identity (set_last_heartbeat t c) c.
Proof. by repeat split. Qed.

Lemma same_identity_subscribed f c : same_identity (set_subscribed_tasks f c) c.
Proof. by repeat split. Qed.

Section handle_message_untouched.
Context `{PyLib}.

Lemma untouched_dispatch k w0 c message :
  c_connection_id c = k →
  keeps (untouched_outside k w0) (dispatch c message).
Proof.
  intros Hid. unfold dispatch. repeat case_match.
  - unfold _handle_subscribe_task. destruct (negb _); [apply keeps_lift|].
    destruct (UUID_new _) as [t'|[]];
      try apply keeps_lift; try apply keeps_raise.
    apply keeps_bind.
    { apply untouched_mutate; [done|]. apply same_identity_subscribed. }
    intros _. apply keeps_bind; [|intros _; apply keeps_lift].
    apply untouched_update_task_subscribers. intros ts ts'.
    rewrite add_entry_ok, Hid. intros [= <-] t k' Hne.
    rewrite indexed_added. naive_solver.
  - unfold _handle_unsubscribe_task. destruct (negb _); [apply keeps_lift|].
    destruct (UUID_new _) as [t'|[]];
      try apply keeps_lift; try apply keeps_raise.
    apply keeps_bind.
    { apply untouched_mutate; [done|]. apply same_identity_subscribed. }
    intros _. apply keeps_bind; [|intros _; apply keeps_lift].
    apply keeps_bind; [apply keeps_gets|]. intros ts.
    unfold contains. case_bool_decide as Hin; [|apply keeps_ret].
    apply untouched_update_task_subscribers. intros ts1 ts' Hf.
    destruct (ts1 !! t') as [s|] eqn:Hs; cycle 1.
    { unfold discard_entry, getitem in Hf. by rewrite Hs in Hf. }
    rewrite discard_entry_ok in Hf by eauto. injection Hf as <-.
    rewrite Hid. intros t k' Hne. rewrite indexed_discarded. naive_solver.
  - apply keeps_bind; [|intros _].
    + apply keeps_bind; [apply keeps_gets|]. intros t.
      apply untouched_mutate; [done|]. apply same_identity_heartbeat.
    + apply keeps_bind; [apply keeps_gets|]. intros ?. apply keeps_lift.
  - apply keeps_bind; [apply keeps_gets|]. intros ?. apply keeps_lift.
  - apply keeps_lift.
Qed.

(** X6: Whatever the message, [handle_message] makes no transport call, adds
    and drops no connection, and changes nothing but the heartbeat and the
    subscriptions of the connection it is called for. *)
Theorem handle_message_frame k message_data w :
  keyed w → untouched_outside k w (handle_message k message_data w).2.
Proof.
  intros Hw.
  enough (keeps (untouched_outside k w) (handle_message k message_data)) as Hk
    by apply Hk, untouched_refl.
  unfold handle_message. intros w1 Hw1.
  unfold bind at 1, connections_get, gets.
  destruct (connections (manager w1) !! k) as [c|] eqn:Hc; [|done].
  destruct (WebSocketMessage_new message_data) as [message|]; [|done].
  assert (c_connection_id c = k) as Hid.
  { destruct (uo_self _ _ _ Hw1 c Hc) as (c0 & Hc0 & _ & Hid & _).
    rewrite Hid. by apply Hw. }
  fold (dispatch c message).
  apply keeps_bind; [|intros _|done].
  - apply keeps_bind; [apply keeps_gets|]. intros t.
    apply untouched_mutate; [done|]. apply same_identity_heartbeat.
  - apply keeps_try_except; [by apply untouched_dispatch|].
    intros e. apply keeps_lift.
Qed.

End handle_message_untouched.

(** ** When [handle_message] raises, and what it rejects *)

(** A value that [Optional[str]] accepts. *)
Definition is_optional_str (v : pyval) : bool :=
  match v with PNone | PStr _ => true | _ => false end.

(** The error text of a subscribe or unsubscribe message that names no
    task: the entry is missing or falsy, is a string that does not parse,
    or is not a string at all. *)
Definition task_id_error `{PyLib} (message : WebSocketMessage) : string :=
  let task_id_str := dict_get (m_data message) "task_id" in
  if negb (truthy task_id_str) then "task_id is required"
  else match task_id_str with
       | PStr _ => "Invalid task_id format"
       | _ => "Internal error: " ++ exn_str AttributeError
       end.

Section handle_message_errors.
Context `{PyLib}.

(** X7: The one exception that escapes [handle_message]: the message of a
    registered connection is malformed and what it has under [request_id]
    is neither a string nor [None]; then a [ValidationError] is raised and
    nothing has changed.  In every other case a response is returned. *)
Theorem handle_message_raises_iff k message_data w :
  let escapes :=
    is_Some (connections (manager w) !! k)
    ∧ (∃ e, WebSocketMessage_new message_data = Raise e)
    ∧ is_optional_str (dict_get message_data "request_id") = false in
  (escapes → handle_message k message_data w = (Raise ValidationError, w))
  ∧ (¬ escapes → ∃ r w', handle_message k message_data w = (Ok r, w')).
Proof.
  intros escapes. subst escapes. split.
  - intros ([c Hc] & [e He] & Hrid).
    rewrite (handle_message_malformed _ _ _ _ _ Hc He).
    unfold WebSocketResponse_new.
    by destruct (dict_get message_data "request_id").
  - intros Hn. destruct (connections (manager w) !! k) as [c|] eqn:Hc.
    + destruct (WebSocketMessage_new message_data) as [message|e] eqn:Hm.
      * rewrite (handle_message_dispatch _ _ _ _ _ Hc Hm). unfold try_except.
        destruct (dispatch c message (touched c w)) as [[r|e] w2];
          [by eexists _, _|].
        unfold error_response, lift. rewrite response_new_opt.
        by eexists _, _.
      * rewrite (handle_message_malformed _ _ _ _ _ Hc Hm).
        unfold WebSocketResponse_new.
        destruct (dict_get message_data "request_id") eqn:Hrid;
          try (by eexists _, _);
          destruct Hn; (split; [by eexists|]); (split; [by eexists|]); done.
    + rewrite (handle_message_unknown _ _ _ Hc). by eexists _, _.
Qed.

(** X8: A valid message that is a subscribe or unsubscribe message naming no
    task, or whose type is none of the four that the manager knows, is
    answered with a failure response that carries the type and the
    correlation id of the message and says what is wrong; nothing changes
    but the heartbeat of the connection. *)
Theorem handle_message_rejects k c message_data message w :
  connections (manager w) !! k = Some c →
  WebSocketMessage_new message_data = Ok message →
  let rejected (text : string) :=
    handle_message k message_data w
    = (Ok {| r_type := m_type message; r_data := []; r_success := false;
             r_error := Some text; r_request_id := m_request_id message |},
       touched c w) in
  ((m_type message = "subscribe_task" ∨ m_type message = "unsubscribe_task") →
   task_id_of message = None → rejected (task_id_error message))
  ∧ (m_type message ≠ "subscribe_task" → m_type message ≠ "unsubscribe_task" →
     m_type message ≠ "heartbeat" → m_type message ≠ "get_status" →
     rejected ("Unknown message type: " ++ m_type message)).
Proof.
  intros Hk Hm rejected. subst rejected. simpl.
  rewrite (handle_message_dispatch _ _ _ _ _ Hk Hm). unfold try_except, dispatch.
  split.
  - intros Hty Hnone.
    assert (∀ handler : WebSocketConnection → WebSocketMessage
                        → M WebSocketResponse,
      handler = _handle_subscribe_task ∨ handler = _handle_unsubscribe_task →
      (let (o, w') := handler c message (touched c w) in
       match o with
       | Ok a => (Ok a, w')
       | Raise e =>
           error_response (m_type message) ("Internal error: " ++ exn_str e)
             (py_of_opt (m_request_id message)) w'
       end)
      = (Ok {| r_type := m_type message; r_data := []; r_success := false;
               r_error := Some (task_id_error message);
               r_request_id := m_request_id message |},
         touched c w)) as Hboth.
    { intros handler Hh. unfold task_id_of, task_id_error in *.
      destruct Hh as [-> | ->];
        unfold _handle_subscribe_task, _handle_unsubscribe_task;
        destruct (truthy (dict_get (m_data message) "task_id")) eqn:Htr;
        simpl;
        unfold error_response, lift, raise; rewrite ?response_new_opt;
        try done;
        destruct (dict_get (m_data message) "task_id") as [| | |s| |]
          eqn:Hv; simpl in *; rewrite ?response_new_opt; try done;
        destruct (UUID_parse s); simpl; rewrite ?response_new_opt; done. }
    destruct Hty as [Hty|Hty].
    + rewrite (proj2 (String.eqb_eq _ _) Hty). apply Hboth; auto.
    + assert (m_type message ≠ "subscribe_task") as Hne by (by rewrite Hty).
      rewrite (proj2 (String.eqb_neq _ _) Hne),
        (proj2 (String.eqb_eq _ _) Hty).
      apply Hboth; auto.
  - intros H1 H2 H3 H4.
    rewrite !(proj2 (String.eqb_neq _ _)) by done.
    unfold error_response, lift. by rewrite response_new_opt.
Qed.

End handle_message_errors.

(** ** Who is sent an event *)

(** An event is addressed to a connection when its kind is SYSTEM_STATUS or
    ERROR, when it names a task the connection subscribes to, or when it
    names the (non-empty) user of the connection. *)
Definition addressed (event : WebSocketEvent) (c : WebSocketConnection)
  : Prop :=
  is_system_kind (e_type event) = true
  ∨ (∃ t, e_task_id event = Some t ∧ t ∈ c_subscribed_tasks c)
  ∨ (∃ u, e_user_id event = Some u ∧ truthy_opt (Some u) = true
          ∧ c_user_id c = Some u).

(** What a send path has done: it has sent the event once to each
    registered, active connection that [selected] holds of, and made no
    other transport call. *)
Definition sent_exactly (event : WebSocketEvent)
    (selected : WebSocketConnection → Prop) (w w' : World) : Prop :=
  NoDup (calls_since w w')
  ∧ ∀ call, call ∈ calls_since w w'
      ↔ ∃ c, connections (manager w) !! c_connection_id c = Some c
             ∧ c_is_active c = true ∧ selected c
             ∧ call = send_effect w event c.

Lemma NoDup_sends w event l : keyed w → NoDup l → NoDup (sends w event l).
Proof.
  intros Hw. induction 1 as [|k l Hk Hl IH]; [constructor|].
  rewrite sends_cons. destruct (attempted w k) as [c|] eqn:Hc; [|done].
  constructor; [|done]. rewrite elem_of_sends.
  intros (k' & c' & Hk' & Hc' & Heq).
  apply attempted_Some in Hc as [Hc _]. apply attempted_Some in Hc' as [Hc' _].
  apply Hw in Hc, Hc'. apply (f_equal eff_conn) in Heq. simpl in Heq.
  congruence.
Qed.

Lemma fanned_out_sent_exactly event (targets : gset string) selected w w' :
  keyed w →
  (∀ k c, connections (manager w) !! k = Some c →
          k ∈ targets ↔ selected c) →
  fanned_out event (elements targets) w w' →
  sent_exactly event selected w w'.
Proof.
  intros Hw Hsel [Htr _ _]. unfold sent_exactly.
  rewrite (calls_since_app _ _ _ Htr). split.
  - apply NoDup_sends; [done|apply NoDup_elements].
  - intros call. rewrite elem_of_sends. setoid_rewrite attempted_Some.
    setoid_rewrite elem_of_elements. split.
    + intros (k & c & Hin & [Hc Hact] & ->). exists c.
      rewrite (Hw k c Hc). split; [done|]. split; [done|].
      split; [|done]. by apply (Hsel k).
    + intros (c & Hc & Hact & Hs & ->). exists (c_connection_id c), c.
      split; [|done]. by apply (Hsel _ c).
Qed.

Lemma target_connections_addressed m event k c :
  consistent m → connections m !! k = Some c →
  k ∈ target_connections m event ↔ addressed event c.
Proof.
  intros [_ Hu Ht _ _] Hc.
  assert (∀ t, (∃ s, task_subscribers m !! t = Some s ∧ k ∈ s)
               ↔ t ∈ c_subscribed_tasks c) as Ht'.
  { intros t. specialize (Ht t k). unfold indexed in Ht. rewrite Ht, Hc.
    naive_solver. }
  assert (∀ u, (∃ s, user_connections m !! u = Some s ∧ k ∈ s)
               ↔ c_user_id c = Some u ∧ truthy_opt (Some u) = true) as Hu'.
  { intros u. specialize (Hu u k). unfold indexed in Hu. rewrite Hu, Hc.
    naive_solver. }
  assert (k ∈ dom (connections m)) as Hd by (apply elem_of_dom; eauto).
  assert (∀ (X : gset string) t,
            k ∈ match task_subscribers m !! t with
                | Some s => X ∪ s
                | None => X
                end
            ↔ k ∈ X ∨ t ∈ c_subscribed_tasks c) as HT.
  { intros X t. rewrite <- Ht'.
    destruct (task_subscribers m !! t) as [s|].
    - rewrite elem_of_union. split.
      + intros [?|?]; [by left|right; by exists s].
      + intros [?|(s' & [= <-] & ?)]; [by left|by right].
    - split; [by left|]. by intros [?|(s' & ? & _)]. }
  assert (∀ (X : gset string) u,
            k ∈ match user_connections m !! u with
                | Some s => X ∪ s
                | None => X
                end
            ↔ k ∈ X ∨ (c_user_id c = Some u ∧ truthy_opt (Some u) = true))
    as HU.
  { intros X u. rewrite <- Hu'.
    destruct (user_connections m !! u) as [s|].
    - rewrite elem_of_union. split.
      + intros [?|?]; [by left|right; by exists s].
      + intros [?|(s' & [= <-] & ?)]; [by left|by right].
    - split; [by left|]. by intros [?|(s' & ? & _)]. }
  unfold target_connections, addressed.
  destruct (is_system_kind (e_type event)).
  { rewrite elem_of_union. split; [by left|by right]. }
  destruct (e_task_id event) as [t|], (e_user_id event) as [u|];
    try destruct (truthy_opt (Some u)) eqn:Htu;
    rewrite ?HU, ?HT, ?elem_of_empty.
  - split.
    + intros [[[]|?]|[? _]]; right; [left|right]; eauto.
    + intros [?|[(t' & [= <-] & ?)|(u' & [= <-] & ? & ?)]];
        [done|left; by right|by right].
  - split.
    + intros [[]|?]. right. left. eauto.
    + intros [?|[(t' & [= <-] & ?)|(u' & [= <-] & ? & ?)]];
        [done|by right|congruence].
  - split.
    + intros [[]|?]. right. left. eauto.
    + intros [?|[(t' & [= <-] & ?)|(u' & ? & _)]]; [done|by right|done].
  - split.
    + intros [[]|[? _]]. right. right. eauto.
    + intros [?|[(t' & ? & _)|(u' & [= <-] & ? & ?)]]; [done|done|by right].
  - split; [done|].
    intros [?|[(t' & ? & _)|(u' & [= <-] & ? & ?)]]; [done|done|congruence].
  - split; [done|].
    by intros [?|[(t' & ? & _)|(u' & ? & _)]].
Qed.

(** X9: [broadcast_event] sends the event once to each registered, active
    connection that the event is addressed to, whatever the event names,
    and makes no other transport call. *)
Theorem broadcast_event_addressing (event : WebSocketEvent) (w : World) :
  consistent_world w →
  ∃ w', broadcast_event event w = (Ok tt, w')
        ∧ sent_exactly event (addressed event) w w'.
Proof.
  intros Hw. assert (keyed w) as Hk by by apply consistent_keyed.
  destruct (broadcast_event_run event w Hk) as (w' & Hrun & Hfan).
  exists w'. split; [done|].
  eapply fanned_out_sent_exactly; [done| |done].
  intros k c Hc. by apply target_connections_addressed.
Qed.

(** X10: [send_to_user] and [send_to_task_subscribers] do not look at what the
    event names or at its kind: the first sends it once to each registered,
    active connection of the user, the second once to each registered,
    active connection that subscribes to the task, and neither makes any
    other transport call. *)
Theorem targeted_sends_addressing (event : WebSocketEvent) (w : World) :
  consistent_world w →
  (∀ user_id, ∃ w',
     send_to_user user_id event w = (Ok tt, w')
     ∧ sent_exactly event
         (λ c, c_user_id c = Some user_id ∧ truthy_opt (Some user_id) = true)
         w w')
  ∧ (∀ task_id, ∃ w',
       send_to_task_subscribers task_id event w = (Ok tt, w')
       ∧ sent_exactly event (λ c, task_id ∈ c_subscribed_tasks c) w w').
Proof.
  intros Hw. assert (keyed w) as Hk by by apply consistent_keyed.
  destruct Hw as [_ Hu Ht _ _]. split.
  - intros u. destruct (send_to_user_run u event w Hk) as (w' & Hrun & Hfan).
    exists w'. split; [done|].
    eapply fanned_out_sent_exactly; [done| |done].
    intros k c Hc.
    specialize (Hu u k). unfold indexed in Hu. rewrite Hc in Hu.
    destruct (user_connections (manager w) !! u) as [s|]; simpl.
    + split; [intros Hin|intros Hs].
      * destruct (proj1 Hu) as (c' & [= <-] & ?); [by exists s|done].
      * destruct (proj2 Hu) as (s' & [= <-] & ?); [by exists c|done].
    + split; [set_solver|]. intros Hs.
      destruct (proj2 Hu) as (s' & ? & _); [by exists c|done].
  - intros t.
    destruct (send_to_task_subscribers_run t event w Hk) as (w' & Hrun & Hfan).
    exists w'. split; [done|].
    eapply fanned_out_sent_exactly; [done| |done].
    intros k c Hc.
    specialize (Ht t k). unfold indexed in Ht. rewrite Hc in Ht.
    destruct (task_subscribers (manager w) !! t) as [s|]; simpl.
    + split; [intros Hin|intros Hs].
      * destruct (proj1 Ht) as (c' & [= <-] & ?); [by exists s|done].
      * destruct (proj2 Ht) as (s' & [= <-] & ?); [by exists c|done].
    + split; [set_solver|]. intros Hs.
      destruct (proj2 Ht) as (s' & ? & _); [by exists c|done].
Qed.

(** ** A loop of [disconnect]s: the cleanup turn and [stop] *)

(** The [close] calls of a loop of [disconnect]s over [l]: one on each
    connection that is registered and active. *)
Definition closings (w : World) (l : list string) : list effect :=
  omap (λ k, close_effect w <$> attempted w k) l.

(** What a loop of [disconnect]s over [l] leaves. *)
Record closed_down (l : list string) (w w' : World) : Prop := {
  cd_trace : trace w' = (trace w ++ closings w l)%list;
  cd_net : net w' = net w;
  cd_now : now w' = now w;
  cd_entropy : entropy w' = entropy w;
  cd_connections : ∀ k,
    connections (manager w') !! k
    = if decide (k ∈ l) then None else connections (manager w) !! k;
}.

Lemma closings_cons w k l :
  closings w (k :: l)
  = match attempted w k with
    | Some c => close_effect w c :: closings w l
    | None => closings w l
    end.
Proof. unfold closings. simpl. by destruct (attempted w k). Qed.

Lemma closings_ext w w' l :
  (∀ k, k ∈ l → attempted w' k = attempted w k) → net w' = net w →
  closings w' l = closings w l.
Proof.
  intros Ha Hn. unfold closings.
  apply list_omap_ext, Forall_Forall2_diag, Forall_forall. intros k Hk.
  rewrite Ha by done. unfold close_effect. by rewrite Hn.
Qed.

Lemma elem_of_closings w l e :
  e ∈ closings w l
  ↔ ∃ k c, k ∈ l ∧ attempted w k = Some c ∧ e = close_effect w c.
Proof.
  unfold closings. rewrite list_elem_of_omap. split.
  - intros (k & Hk & He). destruct (attempted w k) as [c|] eqn:Hc; [|done].
    injection He as <-. by exists k, c.
  - intros (k & c & Hk & Hc & ->). exists k. by rewrite Hc.
Qed.

Lemma NoDup_closings w l : keyed w → NoDup l → NoDup (closings w l).
Proof.
  intros Hw. induction 1 as [|k l Hk Hl IH]; [constructor|].
  rewrite closings_cons. destruct (attempted w k) as [c|] eqn:Hc; [|done].
  constructor; [|done]. rewrite elem_of_closings.
  intros (k' & c' & Hk' & Hc' & Heq).
  apply attempted_Some in Hc as [Hc _]. apply attempted_Some in Hc' as [Hc' _].
  apply Hw in Hc, Hc'. apply (f_equal eff_conn) in Heq. simpl in Heq.
  congruence.
Qed.

Lemma attempted_disconnected_ne k0 c w k :
  k0 ≠ k → attempted (disconnected k0 c w) k = attempted w k.
Proof. intros Hne. unfold attempted. simpl. by rewrite lookup_delete_ne. Qed.

Lemma disconnect_loop_run l w :
  NoDup l → ∃ w', for_each l disconnect w = (Ok tt, w') ∧ closed_down l w w'.
Proof.
  intros Hl. revert w. induction Hl as [|k0 l Hk0 Hl IH]; intros w.
  - exists w. split; [done|]. split; try done.
    unfold closings. simpl. by rewrite app_nil_r.
  - cbn [for_each].
    destruct (connections (manager w) !! k0) as [c|] eqn:Hc.
    + erewrite bind_ok by by apply disconnect_known.
      destruct (IH (disconnected k0 c w)) as (w' & Hrun & [Htr Hn Ht He Hcs]).
      exists w'. split; [done|].
      rewrite (closings_ext w (disconnected k0 c w)) in Htr; try done;
        [|intros k Hk; apply attempted_disconnected_ne; set_solver].
      split; try done.
      * rewrite closings_cons, Htr. simpl. unfold attempted. rewrite Hc.
        destruct (c_is_active c); simpl; [|by rewrite app_nil_r].
        by rewrite <- (assoc_L (++)).
      * intros k. rewrite Hcs. simpl. destruct (decide (k ∈ l)).
        -- by rewrite decide_True by set_solver.
        -- destruct (decide (k0 = k)) as [->|Hne].
           ++ rewrite lookup_delete_eq. by rewrite decide_True by set_solver.
           ++ rewrite lookup_delete_ne by done.
              by rewrite decide_False by set_solver.
    + erewrite bind_ok by by apply disconnect_unknown.
      destruct (IH w) as (w' & Hrun & [Htr Hn Ht He Hcs]).
      exists w'. split; [done|].
      assert (attempted w k0 = None) as Hat
        by (unfold attempted; by rewrite Hc).
      split; try done; [by rewrite closings_cons, Hat|].
      intros k. rewrite Hcs. destruct (decide (k ∈ l)).
      * by rewrite decide_True by set_solver.
      * destruct (decide (k0 = k)) as [->|Hne].
        -- by rewrite decide_True by set_solver.
        -- by rewrite decide_False by set_solver.
Qed.

(** [(now - connection.last_heartbeat).total_seconds() > 300] *)
Definition stale (t : datetime) (c : WebSocketConnection) : bool :=
  bool_decide (300 < t - c_last_heartbeat c).

(** The ids that a cleanup turn at time [t] collects. *)
Definition stale_ids (t : datetime) (cs : gmap string WebSocketConnection)
  : list string :=
  (map_to_list cs) ≫= (λ kc, if stale t kc.2 then [kc.1] else []).

Lemma elem_of_stale_ids t cs k :
  k ∈ stale_ids t cs ↔ ∃ c, cs !! k = Some c ∧ stale t c = true.
Proof.
  unfold stale_ids. rewrite list_elem_of_bind. split.
  - intros ([k' c] & Hin & Hkc). apply elem_of_map_to_list in Hkc. simpl in Hin.
    destruct (stale t c) eqn:Hs; [|by apply elem_of_nil in Hin].
    apply list_elem_of_singleton in Hin as ->. by exists c.
  - intros (c & Hc & Hs). exists (k, c). simpl. rewrite Hs.
    split; [by apply list_elem_of_singleton|by apply elem_of_map_to_list].
Qed.

Lemma NoDup_stale_ids t cs : NoDup (stale_ids t cs).
Proof.
  unfold stale_ids. eapply sublist_NoDup; [apply (NoDup_fst_map_to_list cs)|].
  induction (map_to_list cs) as [|[k c] l IH]; [done|].
  simpl. destruct (stale t c); simpl.
  - by apply sublist_skip.
  - by apply sublist_cons.
Qed.

Lemma consistent_empty m : consistent m → connections m = ∅ → m = new_manager.
Proof.
  intros [_ Hu Ht Hun Htn] He. destruct m as [cs uc ts]. simpl in *. subst cs.
  unfold new_manager. f_equal.
  - apply map_empty. intros u. destruct (uc !! u) as [s|] eqn:Hs; [|done].
    destruct (set_choose_L s) as [k Hk]; [by eapply Hun|].
    destruct (proj1 (Hu u k)) as (c & Hc & _); [by exists s|].
    by rewrite lookup_empty in Hc.
  - apply map_empty. intros t. destruct (ts !! t) as [s|] eqn:Hs; [|done].
    destruct (set_choose_L s) as [k Hk]; [by eapply Htn|].
    destruct (proj1 (Ht t k)) as (c & Hc & _); [by exists s|].
    by rewrite lookup_empty in Hc.
Qed.

Lemma stop_as_loop (l : list (string * WebSocketConnection)) w :
  (∀ kc, kc ∈ l → c_connection_id kc.2 = kc.1) →
  for_each l (λ kc, disconnect (c_connection_id kc.2)) w
  = for_each l.*1 disconnect w.
Proof.
  revert w. induction l as [|kc l IH]; intros w Hl; [done|].
  cbn [for_each fmap list_fmap]. rewrite (Hl kc) by set_solver.
  unfold bind. destruct (disconnect kc.1 w) as [[[]|e] w1]; [|done].
  apply IH. intros ??. apply Hl. set_solver.
Qed.

Section closing_down.
Context `{PyLib}.

(** The world when the [sleep] of a cleanup turn is over. *)
Definition slept (seconds : nat) (w : World) : World :=
  {| manager := manager w; now := now w + seconds; entropy := entropy w;
     net := net w; trace := trace w |}.

Lemma cleanup_turn_run (w : World) :
  ∃ w', _cleanup_loop_iteration w = (Ok tt, w')
    ∧ for_each (stale_ids (now w + 60) (connections (manager w))) disconnect
        (slept 60 w) = (Ok tt, w')
    ∧ closed_down (stale_ids (now w + 60) (connections (manager w)))
        (slept 60 w) w'.
Proof.
  unfold _cleanup_loop_iteration, try_except, bind at 1, sleep, modify.
  unfold bind at 1, utcnow, gets. unfold bind at 1, gets. cbn [now manager].
  fold (slept 60 w).
  destruct (disconnect_loop_run
              (stale_ids (now w + 60) (connections (manager w))) (slept 60 w))
    as (w' & Hrun & Hcd); [apply NoDup_stale_ids|].
  pose proof Hrun as Hrun'. unfold stale_ids, stale in Hrun'. rewrite Hrun'.
  by exists w'.
Qed.

Lemma cleanup_turn_lookup w w' k :
  closed_down (stale_ids (now w + 60) (connections (manager w)))
    (slept 60 w) w' →
  connections (manager w') !! k
  = match connections (manager w) !! k with
    | Some c => if stale (now w + 60) c then None else Some c
    | None => None
    end.
Proof.
  intros [_ _ _ _ Hcs]. rewrite Hcs. simpl.
  destruct (connections (manager w) !! k) as [c|] eqn:Hc.
  - destruct (stale (now w + 60) c) eqn:Hs.
    + rewrite decide_True; [done|]. apply elem_of_stale_ids. by exists c.
    + rewrite decide_False; [done|]. rewrite elem_of_stale_ids.
      intros (c' & Hc' & Hs'). congruence.
  - by case_decide.
Qed.

(** X11: One turn of the cleanup loop never raises.  It lets 60 seconds pass and
    then drops from the registry exactly the connections whose last
    heartbeat is more than 300 seconds old by then; the others stay as they
    are.  The transport calls it makes are the [close] of each dropped
    connection that was active, and it keeps the indices consistent. *)
Theorem cleanup_turn_reaps (w : World) :
  ∃ w', _cleanup_loop_iteration w = (Ok tt, w')
    ∧ now w' = now w + 60 ∧ net w' = net w
    ∧ (∀ k, connections (manager w') !! k
            = match connections (manager w) !! k with
              | Some c => if stale (now w + 60) c then None else Some c
              | None => None
              end)
    ∧ (∀ call, call ∈ calls_since w w'
         ↔ ∃ k c, connections (manager w) !! k = Some c
                  ∧ stale (now w + 60) c = true ∧ c_is_active c = true
                  ∧ call = close_effect w c)
    ∧ (consistent_world w → consistent_world w').
Proof.
  destruct (cleanup_turn_run w) as (w' & Hrun & Hloop & Hcd).
  exists w'. split; [done|].
  split; [by destruct Hcd|]. split; [by destruct Hcd|].
  split; [|split].
  - intros k. by apply cleanup_turn_lookup.
  - intros call. destruct Hcd as [Htr _ _ _ _].
    rewrite (calls_since_app w w' (closings (slept 60 w) _) Htr).
    rewrite elem_of_closings. setoid_rewrite attempted_Some.
    setoid_rewrite elem_of_stale_ids. simpl. split.
    + intros (k & c & (c' & Hc' & Hs) & [Hc Hact] & ->).
      exists k, c. by simplify_eq.
    + intros (k & c & Hc & Hs & Hact & ->). exists k, c.
      split; [by exists c|done].
  - intros Hw.
    assert (consistent_world (slept 60 w)) as Hw1 by done.
    pose proof (keeps_for_each consistent_world
                  (stale_ids (now w + 60) (connections (manager w)))
                  disconnect consistent_disconnect (slept 60 w) Hw1) as Hk.
    by rewrite Hloop in Hk.
Qed.

(** X12: [stop] disconnects every connection: when every object sits under its
    own id, it returns with an empty registry, having closed each active
    transport once and made no other transport call; and when the indices
    were consistent, they are empty too, so that the manager is as new. *)
Theorem stop_disconnects_all (w : World) :
  keyed w →
  ∃ w', stop w = (Ok tt, w')
    ∧ connections (manager w') = ∅
    ∧ NoDup (calls_since w w')
    ∧ (∀ call, call ∈ calls_since w w'
         ↔ ∃ c, connections (manager w) !! c_connection_id c = Some c
                ∧ c_is_active c = true ∧ call = close_effect w c)
    ∧ (consistent_world w → manager w' = new_manager).
Proof.
  intros Hw. unfold stop, bind at 1, gets.
  rewrite stop_as_loop; cycle 1.
  { intros [k c] Hkc. apply elem_of_map_to_list in Hkc. by apply Hw. }
  destruct (disconnect_loop_run (map_to_list (connections (manager w))).*1 w)
    as (w' & Hrun & [Htr Hn Ht He Hcs]); [apply NoDup_fst_map_to_list|].
  exists w'. split; [done|].
  assert (connections (manager w') = ∅) as Hempty.
  { apply map_empty. intros k. rewrite Hcs. case_decide as Hin; [done|].
    destruct (connections (manager w) !! k) as [c|] eqn:Hc; [|done].
    destruct Hin. apply list_elem_of_fmap. exists (k, c).
    split; [done|]. by apply elem_of_map_to_list. }
  split; [done|]. rewrite (calls_since_app _ _ _ Htr).
  split; [|split].
  - apply NoDup_closings; [done|]. apply NoDup_fst_map_to_list.
  - intros call. rewrite elem_of_closings. setoid_rewrite attempted_Some. split.
    + intros (k & c & _ & [Hc Hact] & ->). exists c.
      by rewrite (Hw k c Hc).
    + intros (c & Hc & Hact & ->). exists (c_connection_id c), c.
      split; [|done]. apply list_elem_of_fmap. exists (c_connection_id c, c).
      split; [done|]. by apply elem_of_map_to_list.
  - intros Hcons. apply consistent_empty; [|done].
    pose proof (keeps_for_each consistent_world
                  (map_to_list (connections (manager w))).*1 disconnect
                  consistent_disconnect w Hcons) as Hk.
    by rewrite Hrun in Hk.
Qed.

(** X13: A message keeps its connection alive: when a valid message of a
    registered connection has been handled, and the next cleanup turn ends
    its sleep no more than 300 seconds later, that turn keeps the
    connection, with the time of the message as its last heartbeat. *)
Theorem handled_message_defers_cleanup k c message_data message seconds w :
  connections (manager w) !! k = Some c → c_connection_id c = k →
  WebSocketMessage_new message_data = Ok message →
  (seconds + 60 ≤ 300)%nat →
  let w' := run w [HandleMessage k message_data; Advance seconds;
                   CleanupTurn] in
  now w' = now w + seconds + 60
  ∧ c_last_heartbeat <$> connections (manager w') !! k = Some (now w).
Proof.
  intros Hk Hid Hm Hs. cbv zeta. unfold run. cbn [foldl].
  assert (heartbeat_at k (now w) (step w (HandleMessage k message_data)))
    as [Hhb Hnow].
  { unfold step. simpl exec.
    rewrite bind_ret_snd, (handle_message_dispatch _ _ _ _ _ Hk Hm).
    assert (heartbeat_at k (now w) (touched c w)) as Hw1.
    { split; [|done]. simpl. by rewrite Hid, lookup_alter_eq, Hk. }
    apply (heartbeat_at_dispatch k (now w) c message) in Hw1.
    unfold try_except.
    by destruct (dispatch c message (touched c w)) as [[r|e] w2]. }
  set (w1 := step w (HandleMessage k message_data)) in *. clearbody w1.
  change (step w1 (Advance seconds)) with (slept seconds w1).
  destruct (cleanup_turn_run (slept seconds w1)) as (w3 & Hrun & _ & Hcd).
  assert (step (slept seconds w1) CleanupTurn = w3) as ->
    by (unfold step; simpl exec; by rewrite Hrun).
  split; [destruct Hcd as [_ _ -> _ _]; simpl; lia|].
  rewrite (cleanup_turn_lookup (slept seconds w1) w3 k Hcd). simpl.
  destruct (connections (manager w1) !! k) as [c1|] eqn:Hc1; [|done].
  simpl in Hhb. injection Hhb as Hhb.
  unfold stale. rewrite bool_decide_eq_false_2 by lia. simpl. by rewrite Hhb.
Qed.

(** X14: No state makes the manager raise: [disconnect], the three send paths,
    [stop] and the turns of the two background loops return in every
    world, whatever the registry and the indices hold and whichever
    transports fail. *)
Theorem manager_never_raises (w : World) :
  (∀ k, (disconnect k w).1 = Ok tt)
  ∧ (∀ event, (broadcast_event event w).1 = Ok tt)
  ∧ (∀ user_id event, (send_to_user user_id event w).1 = Ok tt)
  ∧ (∀ task_id event, (send_to_task_subscribers task_id event w).1 = Ok tt)
  ∧ (stop w).1 = Ok tt
  ∧ (_heartbeat_loop_iteration w).1 = Ok tt
  ∧ (_cleanup_loop_iteration w).1 = Ok tt.
Proof.
  assert (∀ m : M unit, returns m → (m w).1 = Ok tt) as Hret.
  { intros m Hm. destruct (Hm w) as [[] ->]. done. }
  split; [|split; [|split; [|split; [|split; [|split]]]]].
  - intros k. apply Hret, returns_disconnect.
  - intros event. apply Hret, returns_broadcast_event.
  - intros u event. apply Hret, returns_send_to_user.
  - intros t event. apply Hret, returns_send_to_task_subscribers.
  - apply Hret. apply returns_bind; [apply returns_gets|]. intros cs.
    apply returns_for_each. intros kc. apply returns_disconnect.
  - apply Hret. apply returns_try_except. intros _. apply returns_ret.
  - apply Hret. apply returns_try_except. intros _. apply returns_ret.
Qed.

End closing_down.

(** ** The timestamps of a connection *)

(** No connection has connected after its last heartbeat, and no heartbeat
    lies in the future. *)
Definition timely (w : World) : Prop :=
  ∀ k c, connections (manager w) !! k = Some c →
    (c_connected_at c ≤ c_last_heartbeat c)%nat
    ∧ (c_last_heartbeat c ≤ now w)%nat.

Lemma timely_alter (f : WebSocketConnection → WebSocketConnection) k w :
  (∀ c, c_connected_at (f c) = c_connected_at c
        ∧ (c_last_heartbeat (f c) = c_last_heartbeat c
           ∨ c_last_heartbeat (f c) = now w)) →
  timely w →
  timely (with_manager (λ m, set_connections (alter f k (connections m)) m) w).
Proof.
  intros Hf Hw k' c'. simpl. rewrite lookup_alter.
  case_decide; [subst|apply Hw].
  destruct (connections (manager w) !! k') as [c0|] eqn:Hc0; simpl; [|done].
  intros [= <-]. destruct (Hw k' c0 Hc0) as [H1 H2].
  destruct (Hf c0) as [-> [-> | ->]]; lia.
Qed.

Lemma timely_mutate c f :
  (∀ c, c_connected_at (f c) = c_connected_at c
        ∧ c_last_heartbeat (f c) = c_last_heartbeat c) →
  keeps timely (mutate c f).
Proof.
  intros Hf w Hw. apply timely_alter; [|done].
  intros c0. destruct (Hf c0). auto.
Qed.

Lemma timely_update_heartbeat c : keeps timely (update_heartbeat c).
Proof.
  intros w Hw. unfold update_heartbeat, bind, utcnow, gets.
  apply timely_alter; [|done]. intros c0. simpl. auto.
Qed.

Lemma timely_update_task_subscribers f :
  keeps timely (update_task_subscribers f).
Proof.
  intros w Hw. unfold update_task_subscribers, bind, gets, lift, modify.
  by destruct (f _).
Qed.

Lemma timely_send_event c event : keeps timely (send_event c event).
Proof.
  intros w Hw. rewrite send_event_run.
  destruct (send_ok w c); simpl; [done|].
  apply (timely_alter _ _ (log _ w)); [|done]. intros c0. simpl. auto.
Qed.

Lemma timely_disconnect k : keeps timely (disconnect k).
Proof.
  intros w Hw. destruct (connections (manager w) !! k) as [c|] eqn:Hk.
  - rewrite (disconnect_known _ _ _ Hk). intros k' c'. simpl.
    rewrite lookup_delete_Some. intros [_ Hc']. exact (Hw k' c' Hc').
  - by rewrite (disconnect_unknown _ _ Hk).
Qed.

Lemma timely_sleep seconds : keeps timely (sleep seconds).
Proof.
  intros w Hw k c Hc. destruct (Hw k c Hc). simpl. lia.
Qed.

Lemma timely_uuid4 : keeps timely uuid4.
Proof. by intros w Hw. Qed.

Section timely_runs.
Context `{PyLib}.

Lemma timely_connect websocket k user_id session_id :
  keeps timely (connect websocket k user_id session_id).
Proof.
  intros w Hw. rewrite connect_run. case_match; simpl; [|done].
  intros k' c'. simpl. destruct (decide (k = k')) as [<-|Hne].
  - rewrite lookup_insert_eq. intros [= <-]. simpl. lia.
  - rewrite lookup_insert_ne by done. intros Hc'. exact (Hw k' c' Hc').
Qed.

Lemma timely_handle_message k message_data :
  keeps timely (handle_message k message_data).
Proof.
  apply keeps_bind; [apply keeps_gets|]. intros [c|]; [|apply keeps_lift].
  destruct (WebSocketMessage_new message_data) as [message|];
    [|apply keeps_lift].
  apply keeps_bind; [apply timely_update_heartbeat|]. intros _.
  apply keeps_try_except; [|intros e; apply keeps_lift].
  repeat case_match.
  - unfold _handle_subscribe_task.
    destruct (negb _); [apply keeps_lift|].
    destruct (UUID_new _) as [t|[]];
      try apply keeps_lift; try apply keeps_raise.
    apply keeps_bind; [by apply timely_mutate|]. intros _.
    apply keeps_bind; [apply timely_update_task_subscribers|]. intros _.
    apply keeps_lift.
  - unfold _handle_unsubscribe_task.
    destruct (negb _); [apply keeps_lift|].
    destruct (UUID_new _) as [t|[]];
      try apply keeps_lift; try apply keeps_raise.
    apply keeps_bind; [by apply timely_mutate|]. intros _.
    apply keeps_bind; [|intros _; apply keeps_lift].
    apply keeps_bind; [apply keeps_gets|]. intros ts.
    destruct (contains ts t);
      [apply timely_update_task_subscribers | apply keeps_ret].
  - apply keeps_bind; [apply timely_update_heartbeat|]. intros _.
    apply keeps_bind; [apply keeps_gets|]. intros ?. apply keeps_lift.
  - apply keeps_bind; [apply keeps_gets|]. intros ?. apply keeps_lift.
  - apply keeps_lift.
Qed.

Lemma timely_step w o : timely w → timely (step w o).
Proof.
  intros Hw. unfold step. destruct o; simpl exec.
  - rewrite bind_ret_snd. by apply timely_connect.
  - by apply timely_disconnect.
  - rewrite bind_ret_snd. by apply timely_handle_message.
  - apply keeps_broadcast_event;
      auto using timely_disconnect, timely_send_event.
  - apply keeps_send_to_user;
      auto using timely_disconnect, timely_send_event.
  - apply keeps_send_to_task_subscribers;
      auto using timely_disconnect, timely_send_event.
  - revert w Hw. apply keeps_try_except; [|intros _; apply keeps_ret].
    apply keeps_bind; [apply timely_sleep|]. intros _.
    apply keeps_bind; [apply keeps_gets|]. intros cs.
    destruct (decide _); [apply keeps_ret|].
    apply keeps_bind.
    + apply keeps_bind; [apply keeps_gets|]. intros ?.
      apply keeps_bind; [apply timely_uuid4|]. intros ?.
      apply keeps_bind; [apply keeps_gets|]. intros ?. apply keeps_ret.
    + intros ?. apply keeps_broadcast_event;
        auto using timely_disconnect, timely_send_event.
  - revert w Hw. apply keeps_try_except; [|intros _; apply keeps_ret].
    apply keeps_bind; [apply timely_sleep|]. intros _.
    apply keeps_bind; [apply keeps_gets|]. intros t.
    apply keeps_bind; [apply keeps_gets|]. intros cs.
    apply keeps_for_each, timely_disconnect.
  - apply keeps_stop; auto using timely_disconnect.
  - done.
  - by apply timely_sleep.
Qed.

Lemma timely_run w ops : timely w → timely (run w ops).
Proof.
  revert w. induction ops as [|o ops IH]; intros w Hw; simpl; [done|].
  by apply IH, timely_step.
Qed.

(** X15: Whatever has happened to a manager since it was created, every
    connection it holds has connected no later than its last heartbeat, and
    that heartbeat is not in the future.  Ids may have been reused and
    transports may have failed. *)
Theorem timestamps_ordered n t e ops : timely (run (boot n t e) ops).
Proof.
  apply timely_run. intros k' c'. simpl. by rewrite lookup_empty.
Qed.

End timely_runs.

(** ** [get_connection_stats] *)

Definition get_connection_stats (self : WebSocketManager) : pydict :=
  let active_connections :=
    length (filter (λ conn, c_is_active conn = true)
              (map_to_list (connections self)).*2) in
  [("total_connections", PInt (Z.of_nat (size (connections self))));
   ("active_connections", PInt (Z.of_nat active_connections));
   ("users_connected", PInt (Z.of_nat (size (user_connections self))));
   ("tasks_with_subscribers", PInt (Z.of_nat (size (task_subscribers self))));
   ("connections_by_user",
    PDict ((λ kv, (kv.1, PInt (Z.of_nat (size kv.2))))
             <$> map_to_list (user_connections self)))].

(** The registered connections of a user, the users that have a registered
    connection, and the tasks that a registered connection subscribes to. *)
Definition connections_of (u : string) (m : WebSocketManager)
  : gmap string WebSocketConnection :=
  filter (λ kc, c_user_id kc.2 = Some u) (connections m).

Definition user_of (c : WebSocketConnection) : option string :=
  match c_user_id c with
  | Some u => if truthy_opt (Some u) then Some u else None
  | None => None
  end.

Definition users_of (m : WebSocketManager) : gset string :=
  list_to_set (omap user_of (map_to_list (connections m)).*2).

Definition tasks_of (m : WebSocketManager) : gset UUID :=
  ⋃ (c_subscribed_tasks <$> (map_to_list (connections m)).*2).

Lemma dict_lookup_fmap {V} (f : V → pyval) (l : list (string * V)) k :
  dict_lookup ((λ kv, (kv.1, f kv.2)) <$> l) k
  = f <$> (list_to_map l : gmap string V) !! k.
Proof.
  induction l as [|[k0 v] l IH]; simpl; [by rewrite lookup_empty|].
  destruct (String.eqb_spec k0 k) as [->|Hne].
  - by rewrite lookup_insert_eq.
  - by rewrite lookup_insert_ne.
Qed.

Lemma elem_of_values (cs : gmap string WebSocketConnection) c :
  c ∈ (map_to_list cs).*2 ↔ ∃ k, cs !! k = Some c.
Proof.
  rewrite list_elem_of_fmap. split.
  - intros ([k c'] & -> & Hkc). exists k. by apply elem_of_map_to_list.
  - intros [k Hk]. exists (k, c). split; [done|]. by apply elem_of_map_to_list.
Qed.

Lemma consistent_user_entry m u :
  consistent m →
  user_connections m !! u
  = if decide (truthy_opt (Some u) = true ∧ connections_of u m ≠ ∅)
    then Some (dom (connections_of u m)) else None.
Proof.
  intros [_ Hu _ Hun _].
  assert (∀ k, k ∈ dom (connections_of u m)
               ↔ ∃ c, connections m !! k = Some c ∧ c_user_id c = Some u)
    as Hdom.
  { intros k. rewrite elem_of_dom. unfold connections_of, is_Some.
    setoid_rewrite map_lookup_filter_Some. simpl. done. }
  destruct (user_connections m !! u) as [s|] eqn:Hs.
  - destruct (set_choose_L s) as [k0 Hk0]; [by eapply Hun|].
    destruct (proj1 (Hu u k0)) as (c0 & Hc0 & Hcu0 & Htu); [by exists s|].
    rewrite decide_True; cycle 1.
    { split; [done|]. intros He.
      assert (k0 ∈ dom (connections_of u m)) as Hin
        by (apply Hdom; by exists c0).
      rewrite He, dom_empty_L in Hin. set_solver. }
    f_equal. apply set_eq. intros k. rewrite Hdom. split.
    + intros Hk. destruct (proj1 (Hu u k)) as (c & Hc & Hcu & _);
        [by exists s|]. by exists c.
    + intros (c & Hc & Hcu).
      destruct (proj2 (Hu u k)) as (s' & Hs' & Hin); [by exists c|].
      congruence.
  - rewrite decide_False; [done|]. intros [Htu Hne].
    apply map_choose in Hne as (k & c & Hkc).
    apply map_lookup_filter_Some in Hkc as [Hc Hcu]. simpl in Hcu.
    destruct (proj2 (Hu u k)) as (s' & Hs' & _); [by exists c|]. congruence.
Qed.

(** The statistics count the registry: in every state [total_connections]
    is its size and [active_connections] is no more; and when the indices
    are consistent with the registry, [users_connected] is the number of
    (non-empty) users that have a registered connection,
    [tasks_with_subscribers] the number of tasks that a registered
    connection subscribes to, and [connections_by_user] gives each such
    user the number of their registered connections and has no entry for
    anybody else. *)
Definition counts_registry (m : WebSocketManager) : Prop :=
  ∃ active users tasks by_user,
    get_connection_stats m
    = [("total_connections", PInt (Z.of_nat (size (connections m))));
       ("active_connections", PInt (Z.of_nat active));
       ("users_connected", PInt (Z.of_nat users));
       ("tasks_with_subscribers", PInt (Z.of_nat tasks));
       ("connections_by_user", PDict by_user)]
    ∧ (active ≤ size (connections m))%nat
    ∧ (consistent m →
       users = size (users_of m)
       ∧ tasks = size (tasks_of m)
       ∧ ∀ u, dict_lookup by_user u
              = if decide (truthy_opt (Some u) = true
                           ∧ connections_of u m ≠ ∅)
                then Some (PInt (Z.of_nat (size (connections_of u m))))
                else None).

(** X16: In every state the statistics give the size of the registry as
    the total and no more than that as the number of active connections;
    when the indices are consistent with the registry, the other three
    entries count the registry too. *)
Theorem get_connection_stats_counts (m : WebSocketManager) :
  counts_registry m.
Proof.
  unfold counts_registry. eexists _, _, _, _.
  split; [reflexivity|]. split.
  { etransitivity; [apply length_filter|].
    by rewrite length_fmap, length_map_to_list. }
  intros Hm. split; [|split].
  - rewrite <- !size_dom. f_equal. apply set_eq. intros u.
    rewrite elem_of_dom, (consistent_user_entry m u Hm).
    unfold users_of. rewrite elem_of_list_to_set, list_elem_of_omap.
    setoid_rewrite elem_of_values. unfold user_of, connections_of. split.
    + intros [s Hs]. case_decide as Hd; [|done]. destruct Hd as [Htu Hne].
      apply map_choose in Hne as (k & c & Hkc).
      apply map_lookup_filter_Some in Hkc as [Hc Hcu]. simpl in Hcu.
      exists c. split; [by exists k|]. by rewrite Hcu, Htu.
    + intros (c & [k Hc] & Hcu).
      destruct (c_user_id c) as [u'|] eqn:Hcu'; [|done].
      destruct (truthy_opt (Some u')) eqn:Htu; [|done].
      injection Hcu as ->. rewrite decide_True; [by eexists|].
      split; [done|]. intros He.
      assert (filter (λ kc, c_user_id kc.2 = Some u) (connections m) !! k
              = Some c) as Hf by by apply map_lookup_filter_Some.
      by rewrite He, lookup_empty in Hf.
  - rewrite <- size_dom. f_equal. apply set_eq. intros t.
    rewrite elem_of_dom. unfold tasks_of.
    rewrite elem_of_union_list. setoid_rewrite list_elem_of_fmap.
    destruct Hm as [_ _ Ht _ Htn]. split.
    + intros [s Hs]. destruct (set_choose_L s) as [k Hk]; [by eapply Htn|].
      destruct (proj1 (Ht t k)) as (c & Hc & Hin); [by exists s|].
      exists (c_subscribed_tasks c). split; [|done]. exists c.
      split; [done|]. apply elem_of_values. by exists k.
    + intros (X & (c & -> & Hc) & Hin). apply elem_of_values in Hc as [k Hc].
      destruct (proj2 (Ht t k)) as (s & Hs & _); [by exists c|].
      by exists s.
  - intros u. rewrite (dict_lookup_fmap (λ s, PInt (Z.of_nat (size s)))).
    rewrite list_to_map_to_list, (consistent_user_entry m u Hm).
    case_decide; [|done]. simpl. by rewrite size_dom.
Qed.

(** ** events.py: the wire forms of the models *)

(** [WebSocketEventType.value] *)
Definition WebSocketEventType_value (t : WebSocketEventType) : string :=
  match t with
  | CONNECT => "connect"
  | DISCONNECT => "disconnect"
  | TASK_CREATED => "task_created"
  | TASK_UPDATED => "task_updated"
  | TASK_STARTED => "task_started"
  | TASK_PAUSED => "task_paused"
  | TASK_RESUMED => "task_resumed"
  | TASK_COMPLETED => "task_completed"
  | TASK_FAILED => "task_failed"
  | TASK_CANCELLED => "task_cancelled"
  | TASK_PROGRESS => "task_progress"
  | MESSAGE_CREATED => "message_created"
  | MESSAGE_UPDATED => "message_updated"
  | MESSAGE_PROCESSED => "message_processed"
  | MESSAGE_FAILED => "message_failed"
  | SUMMARY_CREATED => "summary_created"
  | SUMMARY_UPDATED => "summary_updated"
  | SUMMARY_APPROVED => "summary_approved"
  | SUMMARY_ARCHIVED => "summary_archived"
  | AI_THINKING => "ai_thinking"
  | AI_TOOL_USE => "ai_tool_use"
  | AI_TOOL_RESULT => "ai_tool_result"
  | AI_RESPONSE => "ai_response"
  | SYSTEM_STATUS => "system_status"
  | ERROR => "error"
  | HEARTBEAT => "heartbeat"
  | DESKTOP_ACTION => "desktop_action"
  | DESKTOP_SCREENSHOT => "desktop_screenshot"
  | DESKTOP_STATUS => "desktop_status"
  end.

(** The members of the enumeration, in the order of their definition. *)
Definition WebSocketEventType_members : list WebSocketEventType :=
  [CONNECT; DISCONNECT;
   TASK_CREATED; TASK_UPDATED; TASK_STARTED; TASK_PAUSED; TASK_RESUMED;
   TASK_COMPLETED; TASK_FAILED; TASK_CANCELLED; TASK_PROGRESS;
   MESSAGE_CREATED; MESSAGE_UPDATED; MESSAGE_PROCESSED; MESSAGE_FAILED;
   SUMMARY_CREATED; SUMMARY_UPDATED; SUMMARY_APPROVED; SUMMARY_ARCHIVED;
   AI_THINKING; AI_TOOL_USE; AI_TOOL_RESULT; AI_RESPONSE;
   SYSTEM_STATUS; ERROR; HEARTBEAT;
   DESKTOP_ACTION; DESKTOP_SCREENSHOT; DESKTOP_STATUS].

(** [WebSocketEventType(value)]: the first member that has the value;
    [None] stands for [ValueError]. *)
Definition WebSocketEventType_of_value (value : string)
  : option WebSocketEventType :=
  List.find (λ t, String.eqb (WebSocketEventType_value t) value)
    WebSocketEventType_members.

Section wire_forms.
Context `{PyLib}.

(** [WebSocketEvent.to_dict]; a UUID object is always truthy. *)
Definition WebSocketEvent_to_dict (self : WebSocketEvent) : pydict :=
  [("id", PStr (UUID_str (e_id self)));
   ("type", PStr (WebSocketEventType_value (e_type self)));
   ("data", PDict (e_data self));
   ("timestamp", PStr (isoformat (e_timestamp self)));
   ("task_id", match e_task_id self with
               | Some task_id => PStr (UUID_str task_id)
               | None => PNone
               end);
   ("user_id", py_of_opt (e_user_id self));
   ("session_id", py_of_opt (e_session_id self))].

End wire_forms.

(** [WebSocketMessage.to_dict] *)
Definition WebSocketMessage_to_dict (self : WebSocketMessage) : pydict :=
  [("type", PStr (m_type self));
   ("data", PDict (m_data self));
   ("request_id", py_of_opt (m_request_id self))].

(** X17: No two members of the enumeration share a value: the member with the
    value of [t] is [t], and a string is the value of the member it
    denotes and of no other. *)
Theorem WebSocketEventType_value_round_trip value t :
  WebSocketEventType_of_value value = Some t
  ↔ WebSocketEventType_value t = value.
Proof.
  split.
  - intros Hf. apply List.find_some in Hf as [_ Hv].
    by apply String.eqb_eq in Hv.
  - intros <-. by destruct t.
Qed.

(** X18: A message is read back from its own wire form. *)
Theorem WebSocketMessage_to_dict_round_trip (message : WebSocketMessage) :
  WebSocketMessage_new (WebSocketMessage_to_dict message) = Ok message.
Proof. by destruct message as [ty d [r|]]. Qed.

Lemma py_of_opt_inj o1 o2 : py_of_opt o1 = py_of_opt o2 → o1 = o2.
Proof. destruct o1, o2; simpl; congruence. Qed.

Section wire_forms_facts.
Context `{PyLib}.

(** X19: The wire form of an event loses nothing: when [str] tells UUIDs apart
    and [isoformat] tells times apart, two different events have different
    dictionaries. *)
Theorem WebSocketEvent_to_dict_inj (e1 e2 : WebSocketEvent) :
  Inj (=) (=) UUID_str → Inj (=) (=) isoformat →
  e1 ≠ e2 → WebSocketEvent_to_dict e1 ≠ WebSocketEvent_to_dict e2.
Proof.
  intros Hu Ht Hne Heq. destruct Hne.
  destruct e1 as [i1 ty1 d1 ts1 t1 u1 s1].
  destruct e2 as [i2 ty2 d2 ts2 t2 u2 s2].
  unfold WebSocketEvent_to_dict in Heq. simpl in Heq.
  injection Heq as Hi Hty Hd Hts Htask Huser Hsess.
  apply Hu in Hi. apply Ht in Hts.
  apply py_of_opt_inj in Huser, Hsess.
  assert (ty1 = ty2) as ->.
  { assert (WebSocketEventType_of_value (WebSocketEventType_value ty1)
            = Some ty2) as Hv.
    { rewrite Hty. by destruct ty2. }
    assert (WebSocketEventType_of_value (WebSocketEventType_value ty1)
            = Some ty1) as Hv' by by destruct ty1.
    congruence. }
  assert (t1 = t2) as ->.
  { destruct t1 as [x|], t2 as [y|]; try done. injection Htask as Htask.
    by rewrite (Hu _ _ Htask). }
  by subst.
Qed.

End wire_forms_facts.

(** ** events.py: the data of message and summary events *)

Lemma dict_lookup_set d k v key :
  dict_lookup (dict_set d k v) key
  = if String.eqb k key then Some v else dict_lookup d key.
Proof.
  induction d as [|[k0 v0] d IH]; simpl; [done|].
  destruct (String.eqb_spec k0 k) as [->|Hne]; simpl.
  - by destruct (String.eqb k key).
  - rewrite IH. destruct (String.eqb_spec k0 key) as [->|Hne']; [|done].
    by rewrite (proj2 (String.eqb_neq _ _)) by done.
Qed.

Lemma dict_lookup_absent (d : pydict) key :
  key ∉ d.*1 → dict_lookup d key = None.
Proof.
  induction d as [|[k v] d IH]; simpl; [done|]. intros Hin.
  rewrite (proj2 (String.eqb_neq _ _)) by set_solver.
  apply IH. set_solver.
Qed.

Lemma dict_lookup_update d more key :
  NoDup more.*1 →
  dict_lookup (dict_update d more) key
  = match dict_lookup more key with
    | Some v => Some v
    | None => dict_lookup d key
    end.
Proof.
  unfold dict_update. revert d.
  induction more as [|[k v] more IH]; intros d Hnd; simpl; [done|].
  apply NoDup_cons in Hnd as [Hk Hnd]. rewrite IH by done.
  rewrite dict_lookup_set.
  destruct (String.eqb_spec k key) as [->|Hne]; [|done].
  by rewrite dict_lookup_absent.
Qed.

Section event_data.
Context `{PyLib}.

(** X20: The data of a message event and of a summary event are the data the
    caller gave, plus the id of the message or of the summary under
    [message_id] or [summary_id] unless the caller's data have an entry
    under that key, which then stays. *)
Theorem event_data_keeps_caller_entries event_type id task_id data
    user_id session_id w :
  NoDup data.*1 →
  (∃ event w',
     create_message_event event_type id task_id data user_id session_id w
     = (Ok event, w')
     ∧ e_type event = event_type ∧ e_task_id event = Some task_id
     ∧ ∀ key, dict_lookup (e_data event) key
              = match dict_lookup data key with
                | Some v => Some v
                | None => if String.eqb "message_id" key
                          then Some (PStr (UUID_str id)) else None
                end)
  ∧ (∃ event w',
       create_summary_event event_type id task_id data user_id session_id w
       = (Ok event, w')
       ∧ e_type event = event_type ∧ e_task_id event = Some task_id
       ∧ ∀ key, dict_lookup (e_data event) key
                = match dict_lookup data key with
                  | Some v => Some v
                  | None => if String.eqb "summary_id" key
                            then Some (PStr (UUID_str id)) else None
                  end).
Proof.
  intros Hnd.
  unfold create_message_event, create_summary_event, new_event, bind, uuid4,
    utcnow, gets, ret.
  split.
  - eexists _, _. split; [reflexivity|]. split; [done|]. split; [done|].
    intros key. cbn [e_data]. rewrite (dict_lookup_update _ data key Hnd).
    by destruct (dict_lookup data key).
  - eexists _, _. split; [reflexivity|]. split; [done|]. split; [done|].
    intros key. cbn [e_data]. rewrite (dict_lookup_update _ data key Hnd).
    by destruct (dict_lookup data key).
Qed.

End event_data.

(** ** The shape of the responses *)

(** A response either reports success and no error, or reports failure
    with an error text and no data. *)
Definition well_formed (r : WebSocketResponse) : Prop :=
  (r_success r = true ∧ r_error r = None)
  ∨ (r_success r = false ∧ r_data r = [] ∧ is_Some (r_error r)).

(** Whenever [m] returns, its response is well formed. *)
Definition shaped (m : M WebSocketResponse) : Prop :=
  ∀ w r w', m w = (Ok r, w') → well_formed r.

Lemma shaped_success message_type data request_id :
  shaped (success_response message_type data request_id).
Proof.
  intros w r w'. unfold success_response, lift, WebSocketResponse_new.
  destruct request_id; intros [= <- _]; by left.
Qed.

Lemma shaped_error message_type error_message request_id :
  shaped (error_response message_type error_message request_id).
Proof.
  intros w r w'. unfold error_response, lift, WebSocketResponse_new.
  destruct request_id; intros [= <- _]; right; simpl; eauto.
Qed.

Lemma shaped_bind {A} (m : M A) f : (∀ a, shaped (f a)) → shaped (bind m f).
Proof.
  intros Hf w r w'. unfold bind. destruct (m w) as [[a|e] w1]; [|done].
  apply Hf.
Qed.

Lemma shaped_raise e : shaped (raise e).
Proof. by intros w r w'. Qed.

Lemma shaped_try_except m h :
  shaped m → (∀ e, shaped (h e)) → shaped (try_except m h).
Proof.
  intros Hm Hh w r w'. unfold try_except.
  destruct (m w) as [[r1|e] w1] eqn:Hmw.
  - intros [= <- _]. by eapply Hm.
  - apply Hh.
Qed.

Section response_shape.
Context `{PyLib}.

Lemma shaped_dispatch c message : shaped (dispatch c message).
Proof.
  unfold dispatch. repeat case_match.
  - unfold _handle_subscribe_task. destruct (negb _); [apply shaped_error|].
    destruct (UUID_new _) as [t'|[]];
      try apply shaped_error; try apply shaped_raise.
    apply shaped_bind. intros _. apply shaped_bind. intros _.
    apply shaped_success.
  - unfold _handle_unsubscribe_task. destruct (negb _); [apply shaped_error|].
    destruct (UUID_new _) as [t'|[]];
      try apply shaped_error; try apply shaped_raise.
    apply shaped_bind. intros _. apply shaped_bind. intros _.
    apply shaped_success.
  - apply shaped_bind. intros _. apply shaped_bind. intros ?.
    apply shaped_success.
  - apply shaped_bind. intros ?. apply shaped_success.
  - apply shaped_error.
Qed.

(** X21: Every response that [handle_message] returns is well formed: it
    reports success and carries no error, or reports failure, carries an
    error text and has no data. *)
Theorem handle_message_response_shape k message_data w r w' :
  handle_message k message_data w = (Ok r, w') → well_formed r.
Proof.
  revert w r w'. change (shaped (handle_message k message_data)).
  apply shaped_bind. intros [c|]; [|apply shaped_error].
  destruct (WebSocketMessage_new message_data) as [message|];
    [|apply shaped_error].
  apply shaped_bind. intros _.
  apply shaped_try_except; [apply shaped_dispatch|].
  intros e. apply shaped_error.
Qed.

End response_shape.

(** ** The two background loops over several turns *)

Section background_loops.
Context `{PyLib}.

(** X22: However many turns the heartbeat loop takes and whatever connections
    exist, it returns having made no transport call and having left the
    manager and the transports as they were: only the clock, by 30 seconds
    a turn, and the entropy have moved.  In particular it refreshes the
    heartbeat of no connection. *)
Theorem heartbeat_loop_never_sends (turns : nat) (w : World) :
  ∃ e, _heartbeat_loop turns w = (Ok tt, retime (now w + 30 * turns) e w).
Proof.
  revert w. induction turns as [|turns IH]; intros w.
  - exists (entropy w). unfold retime. simpl. unfold ret.
    rewrite Nat.add_0_r. by destruct w.
  - cbn [_heartbeat_loop]. erewrite bind_ok by apply heartbeat_turn_run.
    destruct (IH (retime (now w + 30)
                    (if decide (connections (manager w) = ∅) then entropy w
                     else N.succ (entropy w)) w)) as [e ->].
    exists e. unfold retime. simpl. do 2 f_equal. lia.
Qed.

Lemma cleanup_loop_gone turns w k :
  connections (manager w) !! k = None →
  connections (manager (_cleanup_loop turns w).2) !! k = None.
Proof.
  revert w. induction turns as [|turns IH]; intros w Hk; [done|].
  cbn [_cleanup_loop]. destruct (cleanup_turn_run w) as (w1 & Hrun & _ & Hcd).
  erewrite bind_ok by done. apply IH.
  by rewrite (cleanup_turn_lookup w w1 k Hcd), Hk.
Qed.

(** X23: A connection that stays silent is dropped: when the cleanup loop takes
    enough turns for the last one to end its sleep more than 300 seconds
    after the last heartbeat of a connection, and no message of the
    connection is handled meanwhile, the connection is gone from the
    registry afterwards. *)
Theorem silent_connection_reaped (turns : nat) (w : World) k c :
  connections (manager w) !! k = Some c →
  (300 < now w + 60 * S turns - c_last_heartbeat c)%nat →
  ∃ w', _cleanup_loop (S turns) w = (Ok tt, w')
        ∧ connections (manager w') !! k = None.
Proof.
  assert (∀ n w, ∃ w', _cleanup_loop n w = (Ok tt, w')) as Hret.
  { intros n. induction n as [|n IH]; intros w0; [by eexists|].
    cbn [_cleanup_loop].
    destruct (cleanup_turn_run w0) as (w1 & Hrun & _ & _).
    erewrite bind_ok by done. apply IH. }
  intros Hk Hs. destruct (Hret (S turns) w) as [w' Hw']. exists w'.
  split; [done|]. change w' with (Ok tt, w').2. rewrite <- Hw'. clear w' Hw'.
  revert w Hk Hs. induction turns as [|turns IH]; intros w Hk Hs.
  - cbn [_cleanup_loop]. destruct (cleanup_turn_run w) as (w1 & Hrun & _ & Hcd).
    erewrite bind_ok by done. simpl.
    rewrite (cleanup_turn_lookup w w1 k Hcd), Hk.
    unfold stale. rewrite bool_decide_eq_true_2; [done|lia].
  - cbn [_cleanup_loop]. destruct (cleanup_turn_run w) as (w1 & Hrun & _ & Hcd).
    erewrite bind_ok by done.
    pose proof (cleanup_turn_lookup w w1 k Hcd) as Hk1. rewrite Hk in Hk1.
    destruct (stale (now w + 60) c).
    + by apply (cleanup_loop_gone (S turns)).
    + apply IH; [done|]. destruct Hcd as [_ _ -> _ _]. simpl. lia.
Qed.

End background_loops.

(** ** The further theorems at work on concrete runs *)

(** A library that prints UUIDs and times in decimal, and parses no
    string. *)
Definition decimal_lib : PyLib :=
  {| UUID_parse s := None;
     UUID_str u := pretty u;
     isoformat t := pretty t;
     exn_str e := "error" |}.

Section further_examples.
#[local] Existing Instance test_lib.

(** A message of a type that the manager does not know. *)
Definition ping_data : pydict :=
  [("type", PStr "ping"); ("request_id", PStr "r9")].

Definition ping_message : WebSocketMessage :=
  {| m_type := "ping"; m_data := []; m_request_id := Some "r9" |}.

(** Data of a message event that have their own [message_id]. *)
Definition own_id_data : pydict :=
  [("text", PStr "hello"); ("message_id", PStr "mine")].

Lemma solo_registered :
  connections (manager solo) !! "a" = Some solo_connection.
Proof. vm_compute. reflexivity. Qed.

Lemma solo_message_valid :
  WebSocketMessage_new (subscribe_message "T1" "r1") = Ok solo_message.
Proof. reflexivity. Qed.

Lemma solo_message_task : task_id_of solo_message = Some 1%N.
Proof. vm_compute. reflexivity. Qed.

(** A second connection joins [solo] and leaves again. *)
Lemma connect_disconnect_round_trip_witness :
  consistent_world solo
  ∧ connections (manager solo) !! "b" = None
  ∧ (2%nat ∉ accept_failing (net solo))
  ∧ manager ((connect 2%nat "b" (Some "u2") None >> disconnect "b") solo).2
    = manager solo.
Proof.
  assert (connections (manager solo) !! "b" = None) as Hb
    by (vm_compute; reflexivity).
  assert (2%nat ∉ accept_failing (net solo)) as Hn by set_solver.
  split; [exact solo_consistent|]. split; [exact Hb|]. split; [exact Hn|].
  exact (connect_disconnect_round_trip 2%nat "b" (Some "u2") None solo
           solo_consistent Hb Hn).
Defined.

(** The connection of [solo] subscribes to [T1] and unsubscribes again. *)
Lemma subscribe_unsubscribe_round_trip_witness :
  consistent_world solo
  ∧ connections (manager solo) !! c_connection_id solo_connection
    = Some solo_connection
  ∧ task_id_of solo_message = Some 1%N
  ∧ (1%N ∉ c_subscribed_tasks solo_connection)
  ∧ (_handle_unsubscribe_task solo_connection solo_message
       (_handle_subscribe_task solo_connection solo_message solo).2).2
    = solo.
Proof.
  assert (1%N ∉ c_subscribed_tasks solo_connection) as Hn
    by (vm_compute; set_solver).
  split; [exact solo_consistent|]. split; [exact solo_registered|].
  split; [exact solo_message_task|]. split; [exact Hn|].
  exact (subscribe_unsubscribe_round_trip solo_connection solo_message 1%N
           solo solo_consistent solo_registered solo_message_task Hn).
Defined.

(** The subscribe message of [solo], handled. *)
Lemma handle_message_subscribes_witness :
  connections (manager solo) !! "a" = Some solo_connection
  ∧ c_connection_id solo_connection = "a"
  ∧ WebSocketMessage_new (subscribe_message "T1" "r1") = Ok solo_message
  ∧ task_id_of solo_message = Some 1%N
  ∧ ∃ r w' c',
      handle_message "a" (subscribe_message "T1" "r1") solo = (Ok r, w')
      ∧ r_success r = true
      ∧ connections (manager w') !! "a" = Some c'
      ∧ is_subscribed_to_task c' 1%N = true
      ∧ indexed (task_subscribers (manager w')) 1%N "a".
Proof.
  split; [exact solo_registered|]. split; [reflexivity|].
  split; [exact solo_message_valid|]. split; [exact solo_message_task|].
  destruct (proj1 (handle_message_subscribes "a" solo_connection
                     (subscribe_message "T1" "r1") solo_message 1%N solo
                     solo_registered eq_refl solo_message_valid
                     solo_message_task) eq_refl)
    as (r & w' & c' & Hrun & Hok & _ & Hc' & Hsub & _ & Hidx).
  exists r, w', c'. split; [exact Hrun|]. split; [exact Hok|].
  split; [exact Hc'|]. split; [exact Hsub|]. exact Hidx.
Defined.

(** The subscribe message of [solo] touches nothing but ["a"]. *)
Lemma handle_message_frame_witness :
  keyed solo
  ∧ untouched_outside "a" solo
      (handle_message "a" (subscribe_message "T1" "r1") solo).2.
Proof.
  assert (keyed solo) as Hk by exact (consistent_keyed solo solo_consistent).
  split; [exact Hk|].
  exact (handle_message_frame "a" (subscribe_message "T1" "r1") solo Hk).
Defined.

(** A message of an unknown type, sent by the connection of [solo]. *)
Lemma handle_message_rejects_witness :
  connections (manager solo) !! "a" = Some solo_connection
  ∧ WebSocketMessage_new ping_data = Ok ping_message
  ∧ handle_message "a" ping_data solo
    = (Ok {| r_type := "ping"; r_data := []; r_success := false;
             r_error := Some "Unknown message type: ping";
             r_request_id := Some "r9" |},
       touched solo_connection solo).
Proof.
  assert (WebSocketMessage_new ping_data = Ok ping_message) as Hm
    by reflexivity.
  split; [exact solo_registered|]. split; [exact Hm|].
  apply (proj2 (handle_message_rejects "a" solo_connection ping_data
                  ping_message solo solo_registered Hm)); discriminate.
Defined.

(** A task event broadcast to the three subscribers of [trio]. *)
Lemma broadcast_event_addressing_witness :
  consistent_world trio
  ∧ ∃ w', broadcast_event (task_event TASK_UPDATED) trio = (Ok tt, w')
      ∧ sent_exactly (task_event TASK_UPDATED)
          (addressed (task_event TASK_UPDATED)) trio w'.
Proof.
  split; [exact trio_consistent|].
  exact (broadcast_event_addressing (task_event TASK_UPDATED) trio
           trio_consistent).
Defined.

(** An event that names nobody, sent to the user of two connections of
    [trio]. *)
Lemma targeted_sends_addressing_witness :
  consistent_world trio
  ∧ ∃ w', send_to_user "u1" (bare_event DESKTOP_STATUS) trio = (Ok tt, w')
      ∧ sent_exactly (bare_event DESKTOP_STATUS)
          (λ c, c_user_id c = Some "u1" ∧ truthy_opt (Some "u1") = true)
          trio w'.
Proof.
  split; [exact trio_consistent|].
  exact (proj1 (targeted_sends_addressing (bare_event DESKTOP_STATUS) trio
                  trio_consistent) "u1").
Defined.

(** [stop] in [trio]. *)
Lemma stop_disconnects_all_witness :
  keyed trio
  ∧ ∃ w', stop trio = (Ok tt, w') ∧ manager w' = new_manager.
Proof.
  assert (keyed trio) as Hk by exact (consistent_keyed trio trio_consistent).
  split; [exact Hk|].
  destruct (stop_disconnects_all trio Hk) as (w' & Hrun & _ & _ & _ & Hnew).
  exists w'. split; [exact Hrun|]. exact (Hnew trio_consistent).
Defined.

(** The connection of [solo] sends a message, and the cleanup turn ends
    its sleep 300 seconds later. *)
Lemma handled_message_defers_cleanup_witness :
  connections (manager solo) !! "a" = Some solo_connection
  ∧ c_connection_id solo_connection = "a"
  ∧ WebSocketMessage_new (subscribe_message "T1" "r1") = Ok solo_message
  ∧ (240 + 60 ≤ 300)%nat
  ∧ now (run solo [HandleMessage "a" (subscribe_message "T1" "r1");
                   Advance 240; CleanupTurn]) = (now solo + 240 + 60)%nat
  ∧ c_last_heartbeat
      <$> connections
            (manager (run solo [HandleMessage "a" (subscribe_message "T1" "r1");
                                Advance 240; CleanupTurn])) !! "a"
    = Some (now solo).
Proof.
  assert (240 + 60 ≤ 300)%nat as Hs by lia.
  split; [exact solo_registered|]. split; [reflexivity|].
  split; [exact solo_message_valid|]. split; [exact Hs|].
  exact (handled_message_defers_cleanup "a" solo_connection
           (subscribe_message "T1" "r1") solo_message 240 solo
           solo_registered eq_refl solo_message_valid Hs).
Defined.

(** The connection of [solo] stays silent for six cleanup turns. *)
Lemma silent_connection_reaped_witness :
  connections (manager solo) !! "a" = Some solo_connection
  ∧ (300 < now solo + 60 * 6 - c_last_heartbeat solo_connection)%nat
  ∧ ∃ w', _cleanup_loop 6 solo = (Ok tt, w')
          ∧ connections (manager w') !! "a" = None.
Proof.
  assert (300 < now solo + 60 * 6 - c_last_heartbeat solo_connection)%nat
    as Hs by (vm_compute; lia).
  split; [exact solo_registered|]. split; [exact Hs|].
  exact (silent_connection_reaped 5 solo "a" solo_connection
           solo_registered Hs).
Defined.

(** The statistics of [trio]. *)
Lemma get_connection_stats_counts_witness :
  consistent (manager trio)
  ∧ ∃ active by_user,
      get_connection_stats (manager trio)
      = [("total_connections",
          PInt (Z.of_nat (size (connections (manager trio)))));
         ("active_connections", PInt (Z.of_nat active));
         ("users_connected",
          PInt (Z.of_nat (size (users_of (manager trio)))));
         ("tasks_with_subscribers",
          PInt (Z.of_nat (size (tasks_of (manager trio)))));
         ("connections_by_user", PDict by_user)]
      ∧ (active ≤ size (connections (manager trio)))%nat
      ∧ ∀ u, dict_lookup by_user u
             = if decide (truthy_opt (Some u) = true
                          ∧ connections_of u (manager trio) ≠ ∅)
               then Some (PInt (Z.of_nat
                                  (size (connections_of u (manager trio)))))
               else None.
Proof.
  split; [exact trio_consistent|].
  destruct (get_connection_stats_counts (manager trio))
    as (active & users & tasks & by_user & Hstats & Hle & Hcons).
  destruct (Hcons trio_consistent) as (Hu & Ht & Hby).
  exists active, by_user. rewrite Hstats, Hu, Ht.
  split; [reflexivity|]. split; [exact Hle|]. exact Hby.
Defined.

(** Two events, printed in decimal. *)
Lemma WebSocketEvent_to_dict_inj_witness :
  Inj (=) (=) (@UUID_str decimal_lib)
  ∧ Inj (=) (=) (@isoformat decimal_lib)
  ∧ task_event TASK_UPDATED ≠ bare_event TASK_UPDATED
  ∧ @WebSocketEvent_to_dict decimal_lib (task_event TASK_UPDATED)
    ≠ @WebSocketEvent_to_dict decimal_lib (bare_event TASK_UPDATED).
Proof.
  assert (Inj (=) (=) (@UUID_str decimal_lib)) as Hu
    by exact pretty_N_inj.
  assert (Inj (=) (=) (@isoformat decimal_lib)) as Ht
    by exact pretty_nat_inj.
  assert (task_event TASK_UPDATED ≠ bare_event TASK_UPDATED) as Hne
    by discriminate.
  split; [exact Hu|]. split; [exact Ht|]. split; [exact Hne|].
  exact (@WebSocketEvent_to_dict_inj decimal_lib (task_event TASK_UPDATED)
           (bare_event TASK_UPDATED) Hu Ht Hne).
Defined.

(** A message event whose data have their own [message_id]. *)
Lemma event_data_keeps_caller_entries_witness :
  NoDup own_id_data.*1
  ∧ ∃ event w',
      create_message_event MESSAGE_CREATED 2%N 1%N own_id_data None None solo
      = (Ok event, w')
      ∧ dict_lookup (e_data event) "message_id" = Some (PStr "mine").
Proof.
  assert (NoDup own_id_data.*1) as Hnd.
  { simpl. apply NoDup_cons. split; [set_solver|]. apply NoDup_singleton. }
  split; [exact Hnd|].
  destruct (proj1 (event_data_keeps_caller_entries MESSAGE_CREATED 2%N 1%N
                     own_id_data None None solo Hnd))
    as (event & w' & Hrun & _ & _ & Hdata).
  exists event, w'. split; [exact Hrun|]. exact (Hdata "message_id").
Defined.

(** The response to a message for a connection that is not registered. *)
Lemma handle_message_response_shape_witness :
  handle_message "z" ping_data solo
  = (Ok {| r_type := "error"; r_data := []; r_success := false;
           r_error := Some "Connection not found"; r_request_id := None |},
     solo)
  ∧ well_formed
      {| r_type := "error"; r_data := []; r_success := false;
         r_error := Some "Connection not found"; r_request_id := None |}.
Proof.
  assert (handle_message "z" ping_data solo
          = (Ok {| r_type := "error"; r_data := []; r_success := false;
                   r_error := Some "Connection not found";
                   r_request_id := None |}, solo)) as Hrun
    by (apply handle_message_unknown; vm_compute; reflexivity).
  split; [exact Hrun|].
  exact (handle_message_response_shape "z" ping_data solo _ _ Hrun).
Defined.

End further_examples.
